(** * video-summary: the task pipeline, embedded and verified

    A shallow embedding of the asynchronous video-to-summary pipeline:
    [audio_processor.py] (decoder, temporary audio files), [ai_agents.py]
    (summarisation providers and the chunking of long transcripts),
    [video_processor.py] (the single-video orchestrator and the folder
    variant) and the task registry of [main.py].

    Python text is a Rocq [string], one [ascii] per character (a character
    outside ASCII is carried as its UTF-8 bytes; [lower], [upper] and
    [strip] act on the ASCII range).  Python floats that the code only
    compares and prints are exact rationals, and their printing is a
    parameter of the world.  Logging is not modelled: an [except] clause
    that logs and re-raises is the identity. *)

From Stdlib Require Import ZArith QArith Lia List String Ascii.
From stdpp Require Import base gmap strings list.

Set Warnings "-abstract-large-number,-clear-no-such-hyp".

Open Scope string_scope.
Open Scope list_scope.

(** ** Text *)

Module Text.

Definition nl : string := String "010" EmptyString.

Definition is_upper (c : ascii) : bool :=
  let n := nat_of_ascii c in (65 <=? n)%nat && (n <=? 90)%nat.

Definition is_lower (c : ascii) : bool :=
  let n := nat_of_ascii c in (97 <=? n)%nat && (n <=? 122)%nat.

Definition lower_char (c : ascii) : ascii :=
  if is_upper c then ascii_of_nat (nat_of_ascii c + 32) else c.

Definition upper_char (c : ascii) : ascii :=
  if is_lower c then ascii_of_nat (nat_of_ascii c - 32) else c.

Fixpoint smap (f : ascii -> ascii) (s : string) : string :=
  match s with
  | EmptyString => EmptyString
  | String c s' => String (f c) (smap f s')
  end.

(** [str.lower()] and [str.upper()] as they act on ASCII text: the
    letters A-Z and a-z are mapped and every other character is left as
    it is.  Python also maps letters outside ASCII (the upper case of a
    dotless i is I), so what is proved of letter case is stated for
    ASCII text. *)
Definition lower : string -> string := smap lower_char.
Definition upper : string -> string := smap upper_char.

(** [str.isspace] on one character: tab, line feed, vertical tab, form
    feed, carriage return, the four separators 28..31 and the space. *)
Definition is_space (c : ascii) : bool :=
  let n := nat_of_ascii c in
  ((9 <=? n)%nat && (n <=? 13)%nat) || ((28 <=? n)%nat && (n <=? 32)%nat).

Fixpoint lstrip (s : string) : string :=
  match s with
  | EmptyString => EmptyString
  | String c s' => if is_space c then lstrip s' else s
  end.

(** [rstrip] keeps a character when it is not a space or when something
    that is kept follows it. *)
Fixpoint rstrip (s : string) : string :=
  match s with
  | EmptyString => EmptyString
  | String c s' =>
      match rstrip s' with
      | EmptyString => if is_space c then EmptyString else String c EmptyString
      | r => String c r
      end
  end.

(** [str.strip()]. *)
Definition strip (s : string) : string := rstrip (lstrip s).

(** [c * n] for a one-character string [c]. *)
Fixpoint replicate_char (n : nat) (c : ascii) : string :=
  match n with
  | O => EmptyString
  | S n' => String c (replicate_char n' c)
  end.

(** [x in xs] for a list of strings. *)
Definition str_in (x : string) (xs : list string) : bool :=
  bool_decide (x ∈ xs).

(** [s[i:j]] for [0 <= i <= j]. *)
Definition slice (s : string) (i j : nat) : string := substring i (j - i) s.

(** Split at the last occurrence of [c]: [Some (before, after)], or [None]
    when [c] does not occur ([str.rfind] and the two slices around it). *)
Fixpoint rsplit (c : ascii) (s : string) : option (string * string) :=
  match s with
  | EmptyString => None
  | String x s' =>
      match rsplit c s' with
      | Some (a, b) => Some (String x a, b)
      | None => if Ascii.eqb x c then Some (EmptyString, s') else None
      end
  end.

(** The leading run of [c] and the rest. *)
Fixpoint span_char (c : ascii) (s : string) : string * string :=
  match s with
  | String x s' =>
      if Ascii.eqb x c then let '(a, b) := span_char c s' in (String x a, b)
      else (EmptyString, s)
  | EmptyString => (EmptyString, EmptyString)
  end.

(** Decimal digits of a number, most significant first. *)
Definition digit (n : N) : ascii := ascii_of_N (48 + n mod 10).

Fixpoint digits_fuel (fuel : nat) (n : N) (acc : string) : string :=
  match fuel with
  | O => acc
  | S fuel' =>
      let acc' := String (digit n) acc in
      if (n <? 10)%N then acc' else digits_fuel fuel' (n / 10)%N acc'
  end.

(** [str(n)] for [n >= 0]; a number has no more decimal digits than bits. *)
Definition str_N (n : N) : string :=
  digits_fuel (S (N.to_nat (N.log2 n))) n EmptyString.

(** [str(z)] for an integer. *)
Definition str_Z (z : Z) : string :=
  if (z <? 0)%Z then String "-" (str_N (Z.to_N (- z))) else str_N (Z.to_N z).

(** The last [w] decimal digits of [n], zero-padded: what [%m], [%d],
    [%H], [%M], [%S] (w = 2), [%Y] (w = 4) and [%f] (w = 6) print for a
    field within its range. *)
Fixpoint pad (w : nat) (n : N) (acc : string) : string :=
  match w with
  | O => acc
  | S w' => pad w' (n / 10)%N (String (digit n) acc)
  end.

End Text.

Import Text.

(** ** Paths: [os.path] and [pathlib] *)

Module Path.

(** [os.path.basename]. *)
Definition basename (p : string) : string :=
  match rsplit "/" p with Some (_, b) => b | None => p end.

Definition dirname_sep (p : string) : string :=
  match rsplit "/" p with Some (a, _) => a +:+ "/" | None => "" end.

(** [os.path.splitext]: the extension runs from the last dot of the final
    component, leading dots of that component apart. *)
Definition splitext (p : string) : string * string :=
  let '(dots, rest) := span_char "." (basename p) in
  match rsplit "." rest with
  | Some (root, ext) => (dirname_sep p +:+ dots +:+ root, "." +:+ ext)
  | None => (p, "")
  end.

(** [os.path.join] of two components. *)
Definition join (a b : string) : string :=
  match b with
  | String "/" _ => b
  | _ =>
      match rsplit "/" a with
      | Some (_, EmptyString) => a +:+ b
      | _ => if bool_decide (a = "") then b else a +:+ "/" +:+ b
      end
  end.

(** [Path(p).suffix]: from the last dot of the name, when that dot is
    neither its first nor its last character. *)
Definition suffix (p : string) : string :=
  match rsplit "." (basename p) with
  | Some (String _ _, String c e) => "." +:+ String c e
  | _ => ""
  end.

(** [Path(p).stem]. *)
Definition stem (p : string) : string :=
  match rsplit "." (basename p) with
  | Some (String c a, String _ _) => String c a
  | _ => basename p
  end.

(** [s[1:]]. *)
Definition drop_first (s : string) : string :=
  match s with String _ s' => s' | EmptyString => EmptyString end.

End Path.

Example splitext_demo : Path.splitext "/v/demo.MP4" = ("/v/demo", ".MP4").
Proof. reflexivity. Qed.

Example splitext_hidden : Path.splitext "/v/.bashrc" = ("/v/.bashrc", "").
Proof. reflexivity. Qed.

Example stem_demo : Path.stem "/v/demo.tar.mp4" = "demo.tar".
Proof. reflexivity. Qed.

Example strip_demo : strip (nl +:+ " a b " +:+ nl +:+ "  ") = "a b".
Proof. reflexivity. Qed.

Example str_Z_demo : str_Z 1000 = "1000" /\ pad 6 42 "" = "000042".
Proof. split; reflexivity. Qed.

(** ** Wall-clock readings: [datetime.now()] *)

Record datetime := mk_datetime {
  year : N; month : N; day : N;
  hour : N; minute : N; second : N; microsecond : N
}.

(** The ranges of the fields of a Python [datetime], for a year of four
    digits (which [%Y] then prints as such on every platform). *)
Definition valid_datetime (d : datetime) : Prop :=
  (1000 <= year d <= 9999 /\ 1 <= month d <= 12 /\ 1 <= day d <= 31 /\
   hour d < 24 /\ minute d < 60 /\ second d < 60 /\ microsecond d < 1000000)%N.

(** [strftime('%Y%m%d_%H%M%S')]: the second-precision stamp of a result
    file's name. *)
Definition strftime_seconds (d : datetime) : string :=
  pad 4 (year d) (pad 2 (month d) (pad 2 (day d)
    (String "_" (pad 2 (hour d) (pad 2 (minute d) (pad 2 (second d) "")))))).

(** [strftime('%Y%m%d_%H%M%S_%f')]: the stamp of a task identifier. *)
Definition strftime_micro (d : datetime) : string :=
  pad 4 (year d) (pad 2 (month d) (pad 2 (day d)
    (String "_" (pad 2 (hour d) (pad 2 (minute d) (pad 2 (second d)
      (String "_" (pad 6 (microsecond d) "")))))))).

(** [isoformat()]: the microseconds are printed only when they are not 0. *)
Definition isoformat (d : datetime) : string :=
  pad 4 (year d) (String "-" (pad 2 (month d) (String "-" (pad 2 (day d)
    (String "T" (pad 2 (hour d) (String ":" (pad 2 (minute d)
      (String ":" (pad 2 (second d)
        (if (microsecond d =? 0)%N then ""
         else String "." (pad 6 (microsecond d) "")))))))))))).

(** ** Exceptions *)

Inductive exn : Type :=
  | FileNotFoundError (msg : string)
  | ValueError (msg : string)
  | KeyError (key : string)
  | IndexError (msg : string)
  | ExternalError (msg : string).
  (* [ExternalError]: raised by a collaborator (decoder, filesystem,
     speech model, provider client). *)

(** [str(e)]. *)
Definition str_exn (e : exn) : string :=
  match e with
  | FileNotFoundError m | ValueError m | IndexError m | ExternalError m => m
  | KeyError k => "'" +:+ k +:+ "'"
  end.

Inductive Outcome (A : Type) : Type :=
  | Returns (a : A)
  | Raises (e : exn).
Arguments Returns {A} a.
Arguments Raises {A} e.

(** ** Data model *)

(** The dictionary built by [get_video_info]. *)
Record VideoInfo := mk_VideoInfo {
  duration : Q;
  fps : Q;
  size : Z * Z;
  format : string;
  size_mb : Q;
  has_audio : bool
}.

(** The dictionary built by [process_video] for one video. *)
Record Result := mk_Result {
  video_path : string;
  video_info : VideoInfo;
  transcript : string;
  summary : string;
  processed_at : string;
  ai_provider : string;
  transcription_model : string
}.

Inductive Status : Type := processing | completed | error.

Definition status_str (st : Status) : string :=
  match st with
  | processing => "processing"
  | completed => "completed"
  | error => "error"
  end.

Definition terminal (st : Status) : Prop := st = completed \/ st = error.

(** One entry of [processing_tasks]. *)
Record Task := mk_Task {
  status : Status;
  results : list Result;
  errors : list string;
  started_at : string;
  completed_at : option string
}.

(** The class attributes of [Config] that the pipeline reads. *)
Record Config := mk_Config {
  VIDEO_INPUT_FOLDER : string;
  VIDEO_OUTPUT_FOLDER : string;
  AI_PROVIDER : string;
  GOOGLE_API_KEY : option string;
  TRANSCRIPTION_MODEL : string;
  MAX_VIDEO_SIZE_MB : Z;
  SUPPORTED_FORMATS : list string
}.

(** What an opened [VideoFileClip] shows. *)
Record Clip := mk_Clip {
  clip_duration : Q;
  clip_fps : Q;
  clip_size : Z * Z;
  clip_audio : bool     (* [video.audio is not None] *)
}.

Inductive Agent : Type := OpenAIAgent | AnthropicAgent | GoogleAIAgent.

(** The prompts sent to a provider's text model, by the template that
    builds them and the values that fill it. *)
Inductive Prompt : Type :=
  | TestPrompt
  | SummaryPrompt (transcript : string) (info : VideoInfo)
  | ChunkPrompt (i n : nat) (chunk : string) (info : VideoInfo)
  | FinalPrompt (summaries : list string).

(** The stages of the single-video pipeline, in the order of
    [process_video]. *)
Inductive Stage : Type :=
  | ExistenceCheck | Metadata | SizePolicy | FormatPolicy
  | AudioExtraction | Transcription | Summarization | Persistence.

Definition pipeline_order : list Stage :=
  [ExistenceCheck; Metadata; SizePolicy; FormatPolicy;
   AudioExtraction; Transcription; Summarization; Persistence].

(** ** The world: configuration and collaborators

    Every call that leaves the repository's code is answered by the world:
    it returns a value or raises. *)
Record World := mk_World {
  config : Config;
  clock : nat -> datetime;                       (* the n-th [datetime.now()] *)
  gettempdir : string;
  VideoFileClip : string -> exn + Clip;
  getsize : string -> exn + Z;
  write_audiofile : string -> string -> option exn;
  load_model : option exn;                       (* [whisper.load_model] *)
  whisper_transcribe : string -> exn + string;
  client_init : Agent -> option exn;             (* provider client constructors *)
  client_transcribe : Agent -> string -> exn + string;
  generate : Agent -> Prompt -> exn + string;    (* the text of the response *)
  os_remove : string -> option exn;
  isdir : string -> bool;                        (* [os.path.isdir]: the folders that exist *)
  open_text : string -> option exn;              (* [open(path, 'w')]: creates or empties the file *)
  write_text : string -> string -> option exn;   (* [f.write(content)] and the closing of the file *)
  listdir : string -> exn + list string;
  format_2f : Q -> string;                       (* [f'{x:.2f}'] *)
  str_float : Q -> string                        (* [str(x)] of a float *)
}.

(** ** State *)

(** What the pipeline touches outside the task registry. *)
Record Sys := mk_Sys {
  files : gset string;              (* paths that exist as files *)
  open_clips : list string;         (* decoder handles opened and not closed *)
  temp_files : list string;         (* [VideoProcessor.temp_files] *)
  written : list (string * string); (* result files written: path, content *)
  stages : list Stage;              (* stages entered so far *)
  calls : list Prompt;              (* prompts sent to the text model *)
  ticks : nat                       (* readings of the clock taken so far *)
}.

Definition set_files (f : gset string -> gset string) (s : Sys) : Sys :=
  mk_Sys (f (files s)) (open_clips s) (temp_files s) (written s) (stages s) (calls s) (ticks s).
Definition set_open_clips (f : list string -> list string) (s : Sys) : Sys :=
  mk_Sys (files s) (f (open_clips s)) (temp_files s) (written s) (stages s) (calls s) (ticks s).
Definition set_temp_files (f : list string -> list string) (s : Sys) : Sys :=
  mk_Sys (files s) (open_clips s) (f (temp_files s)) (written s) (stages s) (calls s) (ticks s).
Definition set_written (f : list (string * string) -> list (string * string)) (s : Sys) : Sys :=
  mk_Sys (files s) (open_clips s) (temp_files s) (f (written s)) (stages s) (calls s) (ticks s).
Definition set_stages (f : list Stage -> list Stage) (s : Sys) : Sys :=
  mk_Sys (files s) (open_clips s) (temp_files s) (written s) (f (stages s)) (calls s) (ticks s).
Definition set_calls (f : list Prompt -> list Prompt) (s : Sys) : Sys :=
  mk_Sys (files s) (open_clips s) (temp_files s) (written s) (stages s) (f (calls s)) (ticks s).
Definition set_ticks (f : nat -> nat) (s : Sys) : Sys :=
  mk_Sys (files s) (open_clips s) (temp_files s) (written s) (stages s) (calls s) (f (ticks s)).

(** ** A state and exception monad *)

Definition ST (S A : Type) : Type := S -> Outcome A * S.

Definition ret {S A} (a : A) : ST S A := fun s => (Returns a, s).

Definition raise {S A} (e : exn) : ST S A := fun s => (Raises e, s).

Definition bind {S A B} (m : ST S A) (k : A -> ST S B) : ST S B :=
  fun s =>
    match m s with
    | (Returns a, s') => k a s'
    | (Raises e, s') => (Raises e, s')
    end.

Definition modify {S} (f : S -> S) : ST S unit := fun s => (Returns tt, f s).

Definition gets {S A} (f : S -> A) : ST S A := fun s => (Returns (f s), s).

(** [try: m  finally: fin]. *)
Definition try_finally {S A} (m : ST S A) (fin : ST S unit) : ST S A :=
  fun s =>
    let '(r, s1) := m s in
    match fin s1 with
    | (Returns _, s2) => (r, s2)
    | (Raises e, s2) => (Raises e, s2)
    end.

(** [try: m  except Exception as e: h e]. *)
Definition try_except {S A} (m : ST S A) (h : exn -> ST S A) : ST S A :=
  fun s =>
    match m s with
    | (Returns a, s') => (Returns a, s')
    | (Raises e, s') => h e s'
    end.

(** The answer of a collaborator, as a computation. *)
Definition answer {S A} (r : exn + A) : ST S A :=
  match r with inl e => raise e | inr a => ret a end.

Definition check {S} (r : option exn) : ST S unit :=
  match r with Some e => raise e | None => ret tt end.

Declare Scope st_scope.
Delimit Scope st_scope with st.
Notation "x <- m ;; k" := (bind m (fun x => k))
  (at level 100, m at next level, right associativity) : st_scope.
Notation "m ;;; k" := (bind m (fun _ => k))
  (at level 100, right associativity) : st_scope.
Open Scope st_scope.

(** ** The pipeline *)

Section Pipeline.

Variable w : World.

(** [datetime.now()]: the next reading of the clock. *)
Definition datetime_now : ST Sys datetime :=
  fun s => (Returns (clock w (ticks s)), set_ticks S s).

Definition enter (st : Stage) : ST Sys unit :=
  modify (set_stages (fun l => l ++ [st])).

(** [os.path.exists]: true of a file and of a folder. *)
Definition path_exists (p : string) : ST Sys bool :=
  gets (fun s => bool_decide (p ∈ files s) || isdir w p).

(** [os.path.isfile]. *)
Definition path_isfile (p : string) : ST Sys bool :=
  gets (fun s => bool_decide (p ∈ files s)).

(** *** audio_processor.py *)

(** [VideoFileClip(path)]: the decoder handle stays open until closed. *)
Definition open_clip (path : string) : ST Sys Clip :=
  clip <- answer (VideoFileClip w path) ;;
  modify (set_open_clips (cons path)) ;;;
  ret clip.

Fixpoint remove_first (p : string) (l : list string) : list string :=
  match l with
  | [] => []
  | x :: l' => if bool_decide (x = p) then l' else x :: remove_first p l'
  end.

(** [video.close()] (and [audio.close()], the clip's own audio reader). *)
Definition close_clip (path : string) : ST Sys unit :=
  modify (set_open_clips (remove_first path)).

(** [AudioProcessor.__init__]: loads the speech model or raises. *)
Definition AudioProcessor_init : ST Sys unit := check (load_model w).

Definition default_audio_path (video_path : string) : string :=
  let video_name := fst (Path.splitext (Path.basename video_path)) in
  Path.join (gettempdir w) (video_name +:+ "_audio.wav").

Definition extract_audio_from_video
    (video_path : string) (output_path : option string) : ST Sys string :=
  let output_path :=
    match output_path with
    | Some o => if bool_decide (o = "") then default_audio_path video_path else o
    | None => default_audio_path video_path
    end in
  video <- open_clip video_path ;;
  if negb (clip_audio video) then raise (ValueError "El video no contiene audio")
  else
    check (write_audiofile w video_path output_path) ;;;
    modify (set_files (fun f => {[output_path]} ∪ f)) ;;;
    close_clip video_path ;;;
    ret output_path.

(** The model was loaded by the constructor, so the guard on
    [self.whisper_model] never fires. *)
Definition transcribe_with_whisper (audio_path : string) : ST Sys string :=
  answer (whisper_transcribe w audio_path).

Definition get_video_info (video_path : string) : ST Sys VideoInfo :=
  video <- open_clip video_path ;;
  bytes <- answer (getsize w video_path) ;;
  let info :=
    {| duration := clip_duration video;
       fps := clip_fps video;
       size := clip_size video;
       format := Path.drop_first (snd (Path.splitext video_path));
       size_mb := (bytes # 1048576)%Q;
       has_audio := clip_audio video |} in
  close_clip video_path ;;;
  ret info.

(** [os.remove]. *)
Definition remove_file (p : string) : ST Sys unit :=
  check (os_remove w p) ;;;
  modify (set_files (fun f => f ∖ {[p]})).

(** An error of one removal is logged as a warning and the loop goes on. *)
Fixpoint cleanup_temp_files (file_paths : list string) : ST Sys unit :=
  match file_paths with
  | [] => ret tt
  | file_path :: rest =>
      try_except
        (ex <- path_exists file_path ;;
         if ex then remove_file file_path else ret tt)
        (fun _ => ret tt) ;;;
      cleanup_temp_files rest
  end.

(** *** ai_agents.py *)

Definition call_model (agent : Agent) (p : Prompt) : ST Sys string :=
  modify (set_calls (fun l => l ++ [p])) ;;;
  answer (generate w agent p).

Definition single_call_summary (agent : Agent)
    (transcript : string) (info : VideoInfo) : ST Sys string :=
  r <- call_model agent (SummaryPrompt transcript info) ;;
  ret (strip r).

(** [for i in range(start, stop, step)] with [step > 0]: the values the
    loop variable takes.  The loop runs at most [stop] times. *)
Fixpoint range_fuel (fuel i stop step : nat) : list nat :=
  match fuel with
  | O => []
  | S fuel' =>
      if (i <? stop)%nat then i :: range_fuel fuel' (i + step) stop step else []
  end.

Definition range (start stop step : nat) : list nat :=
  range_fuel stop start stop step.

Definition max_chunk_length : nat := 30000.

(** The list [transcript_chunks]. *)
Definition split_transcript (T : nat) (transcript : string) : list string :=
  if (T <? String.length transcript)%nat
  then map (fun i => slice transcript i (i + T))
           (range 0 (String.length transcript) T)
  else [transcript].

(** [for i, chunk in enumerate(transcript_chunks)]: one call per chunk,
    the first failure aborts. *)
Fixpoint summarize_chunks (n : nat) (info : VideoInfo) (i : nat)
    (chunks : list string) (summaries : list string) : ST Sys (list string) :=
  match chunks with
  | [] => ret summaries
  | chunk :: rest =>
      r <- call_model GoogleAIAgent (ChunkPrompt (i + 1) n chunk info) ;;
      summarize_chunks n info (i + 1) rest (summaries ++ [strip r])
  end.

(** [GoogleAIAgent.generate_summary], its chunk length a parameter. *)
Definition GoogleAIAgent_generate_summary_at (T : nat)
    (transcript : string) (info : VideoInfo) : ST Sys string :=
  if ((T =? 0) && (0 <? String.length transcript))%nat
  then raise (ValueError "range() arg 3 must not be zero")
  else
    let transcript_chunks := split_transcript T transcript in
    summaries <- summarize_chunks (length transcript_chunks) info 0
                   transcript_chunks [] ;;
    if (1 <? length summaries)%nat
    then
      r <- call_model GoogleAIAgent (FinalPrompt summaries) ;;
      ret (strip r)
    else
      match summaries with
      | s0 :: _ => ret s0
      | [] => raise (IndexError "list index out of range")
      end.

Definition generate_summary (agent : Agent)
    (transcript : string) (info : VideoInfo) : ST Sys string :=
  match agent with
  | OpenAIAgent | AnthropicAgent => single_call_summary agent transcript info
  | GoogleAIAgent => GoogleAIAgent_generate_summary_at max_chunk_length transcript info
  end.

Definition transcribe_audio (agent : Agent) (audio_file_path : string)
  : ST Sys string :=
  match agent with
  | OpenAIAgent | AnthropicAgent => answer (client_transcribe w agent audio_file_path)
  | GoogleAIAgent =>
      AudioProcessor_init ;;;
      transcribe_with_whisper audio_file_path
  end.

(** [GoogleAIAgent.__init__]: a failed probe of the configured model only
    selects the fallback model. *)
Definition GoogleAIAgent_init : ST Sys unit :=
  match GOOGLE_API_KEY (config w) with
  | None | Some EmptyString =>
      raise (ValueError "GOOGLE_API_KEY es requerida para usar Google AI")
  | Some _ =>
      try_except
        (check (client_init w GoogleAIAgent) ;;;
         _ <- call_model GoogleAIAgent TestPrompt ;;
         ret tt)
        (fun _ => ret tt)
  end.

(** [AIAgentFactory.create_agent]. *)
Definition create_agent : ST Sys Agent :=
  let provider := AI_PROVIDER (config w) in
  if bool_decide (provider = "openai")
  then check (client_init w OpenAIAgent) ;;; ret OpenAIAgent
  else if bool_decide (provider = "anthropic")
  then check (client_init w AnthropicAgent) ;;; ret AnthropicAgent
  else if bool_decide (provider = "google")
  then GoogleAIAgent_init ;;; ret GoogleAIAgent
  else raise (ValueError ("Proveedor de IA no soportado: " +:+ provider)).

(** *** video_processor.py *)

(** [VideoProcessor.__init__]: the audio processor, the agent of the
    configured provider, and an empty list of temporary files. *)
Definition VideoProcessor_init : ST Sys Agent :=
  AudioProcessor_init ;;;
  agent <- create_agent ;;
  modify (set_temp_files (fun _ => [])) ;;;
  ret agent.

Definition _transcribe_audio (agent : Agent) (audio_path : string)
  : ST Sys string :=
  if bool_decide (TRANSCRIPTION_MODEL (config w) = "whisper")
  then transcribe_with_whisper audio_path
  else transcribe_audio agent audio_path.

Definition _format_summary_content (result : Result) : string :=
  let info := video_info result in
  let content :=
    nl +:+
    "RESUMEN DE VIDEO" +:+ nl +:+
    replicate_char 50 "=" +:+ nl +:+
    nl +:+
    "INFORMACIÓN DEL VIDEO:" +:+ nl +:+
    "- Archivo: " +:+ upper (format info) +:+ nl +:+
    "- Duración: " +:+ format_2f w (duration info) +:+ " segundos" +:+ nl +:+
    "- Tamaño: " +:+ format_2f w (size_mb info) +:+ " MB" +:+ nl +:+
    "- Resolución: " +:+ str_Z (fst (size info)) +:+ "x"
                     +:+ str_Z (snd (size info)) +:+ nl +:+
    "- FPS: " +:+ str_float w (fps info) +:+ nl +:+
    nl +:+
    "CONFIGURACIÓN:" +:+ nl +:+
    "- Proveedor de IA: " +:+ upper (ai_provider result) +:+ nl +:+
    "- Modelo de transcripción: " +:+ upper (transcription_model result) +:+ nl +:+
    "- Procesado el: " +:+ processed_at result +:+ nl +:+
    nl +:+
    "TRANSCRIPCIÓN COMPLETA:" +:+ nl +:+
    replicate_char 30 "-" +:+ nl +:+
    transcript result +:+ nl +:+
    nl +:+
    "RESUMEN GENERADO:" +:+ nl +:+
    replicate_char 30 "-" +:+ nl +:+
    summary result +:+ nl +:+
    nl +:+
    replicate_char 50 "=" +:+ nl +:+
    "        " in
  strip content.

Definition _save_result (result : Result) (video_path : string)
  : ST Sys string :=
  let video_name := Path.stem video_path in
  now <- datetime_now ;;
  let timestamp := strftime_seconds now in
  let output_filename := video_name +:+ "_resumen_" +:+ timestamp +:+ ".txt" in
  let output_path := Path.join (VIDEO_OUTPUT_FOLDER (config w)) output_filename in
  let content := _format_summary_content result in
  check (open_text w output_path) ;;;
  modify (set_files (fun f => {[output_path]} ∪ f)) ;;;
  check (write_text w output_path content) ;;;
  modify (set_written (fun l => l ++ [(output_path, content)])) ;;;
  ret output_path.

Definition _cleanup_temp_files : ST Sys unit :=
  l <- gets temp_files ;;
  match l with
  | [] => ret tt
  | _ :: _ =>
      cleanup_temp_files l ;;;
      modify (set_temp_files (fun _ => []))
  end.

(** [size_mb > MAX_VIDEO_SIZE_MB]. *)
Definition too_large (info : VideoInfo) : bool :=
  negb (Qle_bool (size_mb info) (inject_Z (MAX_VIDEO_SIZE_MB (config w)))).

(** [format.lower() in [fmt.lower() for fmt in SUPPORTED_FORMATS]]. *)
Definition supported (info : VideoInfo) : bool :=
  str_in (lower (format info)) (map lower (SUPPORTED_FORMATS (config w))).

(** The [try] block of [process_video]. *)
Definition process_video_body (agent : Agent) (video_path : string)
  : ST Sys Result :=
  enter ExistenceCheck ;;;
  ex <- path_exists video_path ;;
  if negb ex
  then raise (FileNotFoundError ("Video no encontrado: " +:+ video_path))
  else
    enter Metadata ;;;
    video_info <- get_video_info video_path ;;
    enter SizePolicy ;;;
    if too_large video_info
    then raise (ValueError ("Video demasiado grande: "
                  +:+ format_2f w (size_mb video_info) +:+ "MB > "
                  +:+ str_Z (MAX_VIDEO_SIZE_MB (config w)) +:+ "MB"))
    else
      enter FormatPolicy ;;;
      if negb (supported video_info)
      then raise (ValueError ("Formato no soportado: " +:+ format video_info))
      else
        enter AudioExtraction ;;;
        audio_path <- extract_audio_from_video video_path None ;;
        modify (set_temp_files (fun l => l ++ [audio_path])) ;;;
        enter Transcription ;;;
        transcript <- _transcribe_audio agent audio_path ;;
        enter Summarization ;;;
        summary <- generate_summary agent transcript video_info ;;
        now <- datetime_now ;;
        let result :=
          {| video_path := video_path;
             video_info := video_info;
             transcript := transcript;
             summary := summary;
             processed_at := isoformat now;
             ai_provider := AI_PROVIDER (config w);
             transcription_model := TRANSCRIPTION_MODEL (config w) |} in
        enter Persistence ;;;
        output_file <- _save_result result video_path ;;
        ret result.

(** [process_video]: the body, an [except] clause that logs and re-raises,
    and the [finally] clause that cleans up. *)
Definition process_video (agent : Agent) (video_path : string)
  : ST Sys Result :=
  try_finally (process_video_body agent video_path) _cleanup_temp_files.

(** The first loop of [process_folder]: the files of the folder whose
    extension is in the allow-list. *)
Fixpoint collect_video_files (folder_path : string) (supported_formats : list string)
    (names : list string) : ST Sys (list string) :=
  match names with
  | [] => ret []
  | file :: rest =>
      let file_path := Path.join folder_path file in
      isfile <- path_isfile file_path ;;
      tail <- collect_video_files folder_path supported_formats rest ;;
      let file_ext := Path.drop_first (lower (Path.suffix file)) in
      if isfile && str_in file_ext supported_formats
      then ret (file_path :: tail)
      else ret tail
  end.

(** The second loop: a failure of one video is logged and the loop
    continues with the next one. *)
Fixpoint process_each (agent : Agent) (video_files : list string)
    (results : list Result) : ST Sys (list Result) :=
  match video_files with
  | [] => ret results
  | video_path :: rest =>
      results' <- try_except
                    (result <- process_video agent video_path ;;
                     ret (results ++ [result]))
                    (fun _ => ret results) ;;
      process_each agent rest results'
  end.

Definition process_folder (agent : Agent) (folder_path : option string)
  : ST Sys (list Result) :=
  let folder_path :=
    match folder_path with
    | Some p => if bool_decide (p = "") then VIDEO_INPUT_FOLDER (config w) else p
    | None => VIDEO_INPUT_FOLDER (config w)
    end in
  let supported_formats := map lower (SUPPORTED_FORMATS (config w)) in
  names <- answer (listdir w folder_path) ;;
  video_files <- collect_video_files folder_path supported_formats names ;;
  match video_files with
  | [] => ret []
  | _ :: _ => process_each agent video_files []
  end.

End Pipeline.

(** ** main.py: the task registry and the background tasks *)

(** A call handed to [background_tasks.add_task]. *)
Inductive Job : Type :=
  | VideoJob (task_id video_path : string) (callback_url : option string)
  | FolderJob (task_id folder_path : string) (callback_url : option string).

(** The payload of [send_callback]. *)
Record Callback := mk_Callback {
  cb_url : string;
  cb_task_id : string;
  cb_status : string;
  cb_results : list Result;
  cb_errors : list string;
  cb_timestamp : string
}.

Record State := mk_State {
  processing_tasks : gmap string Task;   (* the global dictionary *)
  scheduled : list Job;                  (* background tasks not yet run *)
  callbacks : list Callback;             (* notifications attempted *)
  sys : Sys
}.

Definition set_tasks (f : gmap string Task -> gmap string Task) (s : State) : State :=
  mk_State (f (processing_tasks s)) (scheduled s) (callbacks s) (sys s).
Definition set_scheduled (f : list Job -> list Job) (s : State) : State :=
  mk_State (processing_tasks s) (f (scheduled s)) (callbacks s) (sys s).
Definition set_callbacks (f : list Callback -> list Callback) (s : State) : State :=
  mk_State (processing_tasks s) (scheduled s) (f (callbacks s)) (sys s).
Definition set_sys (y : Sys) (s : State) : State :=
  mk_State (processing_tasks s) (scheduled s) (callbacks s) y.

Definition set_status (v : Status) (t : Task) : Task :=
  mk_Task v (results t) (errors t) (started_at t) (completed_at t).
Definition set_results (v : list Result) (t : Task) : Task :=
  mk_Task (status t) v (errors t) (started_at t) (completed_at t).
Definition set_errors (v : list string) (t : Task) : Task :=
  mk_Task (status t) (results t) v (started_at t) (completed_at t).
Definition set_completed_at (v : option string) (t : Task) : Task :=
  mk_Task (status t) (results t) (errors t) (started_at t) v.

(** The record a submission stores. *)
Definition new_task (started : string) : Task :=
  {| status := processing; results := []; errors := [];
     started_at := started; completed_at := None |}.

Record ProcessingResponse := mk_ProcessingResponse {
  resp_task_id : string;
  resp_status : string;
  resp_message : string;
  resp_timestamp : string
}.

Record ProcessingResult := mk_ProcessingResult {
  pr_task_id : string;
  pr_status : string;
  pr_results : list Result;
  pr_errors : list string;
  pr_completed_at : string
}.

Inductive Response : Type :=
  | Accepted (r : ProcessingResponse)
  | TaskStatus (r : ProcessingResult)
  | TaskList (tasks : gmap string Task) (total : nat)
  | HTTPException (status_code : nat) (detail : string).

Inductive Request : Type :=
  | PostProcessVideo (video_path callback_url : option string)
  | PostProcessFolder (folder_path callback_url : option string)
  | PostWebhook (video_path folder_path callback_url : option string)
  | GetTask (task_id : string)
  | GetTasks.

(** Python's truth value of an optional string. *)
Definition truthy (o : option string) : option string :=
  match o with
  | Some EmptyString | None => None
  | Some s => Some s
  end.

Section Service.

Variable w : World.

(** A pipeline computation run on the service's state. *)
Definition lift {A} (m : ST Sys A) : ST State A :=
  fun s => let '(r, y) := m (sys s) in (r, set_sys y s).

Definition now_ : ST State datetime := lift (datetime_now w).

(** [processing_tasks[task_id][key] = value]: a [KeyError] when the
    identifier is unknown. *)
Definition update_task (task_id : string) (f : Task -> Task) : ST State unit :=
  fun s =>
    match processing_tasks s !! task_id with
    | None => (Raises (KeyError task_id), s)
    | Some t => (Returns tt, set_tasks (insert task_id (f t)) s)
    end.

(** The part the four submission paths share: the identifier from the
    clock, the fresh record, the background task, the response. *)
Definition submit (prefix : string) (job : string -> Job) (message : string)
  : ST State Response :=
  stamp <- now_ ;;
  let task_id := prefix +:+ strftime_micro stamp in
  started <- now_ ;;
  modify (set_tasks (insert task_id (new_task (isoformat started)))) ;;;
  modify (set_scheduled (fun l => l ++ [job task_id])) ;;;
  answered <- now_ ;;
  ret (Accepted {| resp_task_id := task_id;
                   resp_status := "processing";
                   resp_message := message;
                   resp_timestamp := isoformat answered |}).

(** [POST /process-video]. *)
Definition process_video_endpoint (video_path callback_url : option string)
  : ST State Response :=
  match truthy video_path with
  | None => ret (HTTPException 500 "400: video_path es requerido")
  | Some path =>
      submit "video_" (fun task_id => VideoJob task_id path callback_url)
             "Procesamiento iniciado"
  end.

(** [POST /process-folder]. *)
Definition process_folder_endpoint (folder_path callback_url : option string)
  : ST State Response :=
  let folder_path :=
    match truthy folder_path with
    | Some p => p
    | None => VIDEO_INPUT_FOLDER (config w)
    end in
  submit "folder_" (fun task_id => FolderJob task_id folder_path callback_url)
         "Procesamiento de carpeta iniciado".

(** [POST /webhook/process]. *)
Definition webhook_process (video_path folder_path callback_url : option string)
  : ST State Response :=
  match truthy video_path, truthy folder_path with
  | Some path, _ =>
      submit "webhook_video_" (fun task_id => VideoJob task_id path callback_url)
             "Procesamiento iniciado via webhook"
  | None, Some path =>
      submit "webhook_folder_" (fun task_id => FolderJob task_id path callback_url)
             "Procesamiento iniciado via webhook"
  | None, None => ret (HTTPException 500 "400: video_path o folder_path es requerido")
  end.

(** [GET /task/{task_id}]. *)
Definition get_task_status (task_id : string) : ST State Response :=
  tasks <- gets processing_tasks ;;
  match tasks !! task_id with
  | None => ret (HTTPException 404 "Tarea no encontrada")
  | Some task =>
      completed <- match truthy (completed_at task) with
                   | Some stamp => ret stamp
                   | None => now <- now_ ;; ret (isoformat now)
                   end ;;
      ret (TaskStatus {| pr_task_id := task_id;
                         pr_status := status_str (status task);
                         pr_results := results task;
                         pr_errors := errors task;
                         pr_completed_at := completed |})
  end.

(** [GET /tasks]. *)
Definition list_tasks : ST State Response :=
  tasks <- gets processing_tasks ;;
  ret (TaskList tasks (base.size tasks)).

(** [send_callback]: an error of the delivery is logged only. *)
Definition send_callback (url task_id status : string)
    (results : list Result) (errors : list string) : ST State unit :=
  now <- now_ ;;
  modify (set_callbacks (fun l =>
    l ++ [mk_Callback url task_id status results errors (isoformat now)])).

Definition notify (callback_url : option string) (task_id status : string)
    (results : list Result) (errors : list string) : ST State unit :=
  match truthy callback_url with
  | Some url => send_callback url task_id status results errors
  | None => ret tt
  end.

(** The [except] clause of both background tasks. *)
Definition record_error (task_id : string) (callback_url : option string)
    (e : exn) : ST State unit :=
  update_task task_id (set_status error) ;;;
  update_task task_id (set_errors [str_exn e]) ;;;
  now <- now_ ;;
  update_task task_id (set_completed_at (Some (isoformat now))) ;;;
  notify callback_url task_id "error" [] [str_exn e].

(** The updates of the [try] block once the processor has returned. *)
Definition record_results (task_id : string) (callback_url : option string)
    (results : list Result) : ST State unit :=
  update_task task_id (set_status completed) ;;;
  update_task task_id (set_results results) ;;;
  now <- now_ ;;
  update_task task_id (set_completed_at (Some (isoformat now))) ;;;
  notify callback_url task_id "completed" results [].

Definition process_video_task (task_id video_path : string)
    (callback_url : option string) : ST State unit :=
  try_except
    (processor <- lift (VideoProcessor_init w) ;;
     result <- lift (process_video w processor video_path) ;;
     record_results task_id callback_url [result])
    (record_error task_id callback_url).

Definition process_folder_task (task_id folder_path : string)
    (callback_url : option string) : ST State unit :=
  try_except
    (processor <- lift (VideoProcessor_init w) ;;
     results <- lift (process_folder w processor (Some folder_path)) ;;
     record_results task_id callback_url results)
    (record_error task_id callback_url).

Definition handle (req : Request) : ST State Response :=
  match req with
  | PostProcessVideo v c => process_video_endpoint v c
  | PostProcessFolder f c => process_folder_endpoint f c
  | PostWebhook v f c => webhook_process v f c
  | GetTask task_id => get_task_status task_id
  | GetTasks => list_tasks
  end.

Definition run_job (j : Job) : ST State unit :=
  match j with
  | VideoJob task_id video_path callback_url =>
      process_video_task task_id video_path callback_url
  | FolderJob task_id folder_path callback_url =>
      process_folder_task task_id folder_path callback_url
  end.

(** One step of the service: a request is answered, or one of the
    scheduled background tasks runs to its end. *)
Inductive step : State -> State -> Prop :=
  | step_request (req : Request) (s : State) :
      step s (snd (handle req s))
  | step_job (j : Job) (before after : list Job) (s : State) :
      scheduled s = before ++ j :: after ->
      step s (snd (run_job j (set_scheduled (fun _ => before ++ after) s))).

Definition initial (s : State) : Prop :=
  processing_tasks s = ∅ /\ scheduled s = [].

Inductive reachable : State -> Prop :=
  | reachable_initial (s : State) : initial s -> reachable s
  | reachable_step (s s' : State) : reachable s -> step s s' -> reachable s'.

End Service.

(** ** A concrete world

    The default configuration of [config.py]; a folder with a video, a
    video without an audio track and a text file; collaborators that
    answer.  The clock and the answer of [os.remove] are parameters. *)

(** [f'{x:.2f}'] on the exact value: two decimals, ties to even. *)
Definition fixed2 (q : Q) : string :=
  let a := (Z.abs (Qnum q) * 100)%Z in
  let d := Zpos (Qden q) in
  let k := (a / d)%Z in
  let r := (a mod d)%Z in
  let k' := if (d <? 2 * r)%Z then (k + 1)%Z
            else if (2 * r =? d)%Z then (if Z.even k then k else k + 1)%Z
            else k in
  (if (Qnum q <? 0)%Z then "-" else "")
    +:+ str_Z (k' / 100) +:+ "." +:+ pad 2 (Z.to_N (k' mod 100)) "".

Definition demo_config : Config :=
  {| VIDEO_INPUT_FOLDER := "./videos";
     VIDEO_OUTPUT_FOLDER := "./processed";
     AI_PROVIDER := "openai";
     GOOGLE_API_KEY := None;
     TRANSCRIPTION_MODEL := "whisper";
     MAX_VIDEO_SIZE_MB := 1000;
     SUPPORTED_FORMATS := ["mp4"; "avi"; "mov"; "mkv"; "webm"] |}.

Definition demo_world_of (readings : nat -> datetime)
    (remove : string -> option exn) : World :=
  {| config := demo_config;
     clock := readings;
     gettempdir := "/tmp";
     VideoFileClip := fun p =>
       if bool_decide (p = "./videos/demo.mp4") || bool_decide (p = "./videos/huge.mp4")
       then inr (mk_Clip 30 24 (640, 480)%Z true)
       else if bool_decide (p = "./videos/silent.mp4")
       then inr (mk_Clip 30 24 (640, 480)%Z false)
       else inl (ExternalError "could not be opened");
     getsize := fun p =>
       if bool_decide (p = "./videos/huge.mp4") then inr 2147483648%Z
       else inr 5242880%Z;
     write_audiofile := fun _ _ => None;
     load_model := None;
     whisper_transcribe := fun _ => inr "hola mundo";
     client_init := fun _ => None;
     client_transcribe := fun _ _ => inr "hola mundo";
     generate := fun _ _ => inr "OK";
     os_remove := remove;
     isdir := fun p =>
       bool_decide (p = "./videos") || bool_decide (p = "./processed")
       || bool_decide (p = "/tmp");
     open_text := fun _ => None;
     write_text := fun _ _ => None;
     listdir := fun _ => inr ["demo.mp4"; "silent.mp4"; "notes.txt"];
     format_2f := fixed2;
     str_float := fun q => str_Z (Qnum q / Zpos (Qden q)) +:+ ".0" |}.

(** A clock that advances by one microsecond per reading. *)
Definition ticking (n : nat) : datetime :=
  mk_datetime 2025 1 15 10 30 0 (N.of_nat n).

(** A clock whose readings do not advance. *)
Definition stalled (n : nat) : datetime :=
  mk_datetime 2025 1 15 10 30 0 0.

Definition demo_world : World := demo_world_of ticking (fun _ => None).

Definition demo_sys : Sys :=
  mk_Sys {[ "./videos/demo.mp4"; "./videos/silent.mp4"; "./videos/notes.txt" ]}
         [] [] [] [] [] 0.

Definition demo_state : State := mk_State ∅ [] [] demo_sys.

(** * Properties *)

(** ** Running computations *)

Lemma bind_returns {S A B} (m : ST S A) (k : A -> ST S B) s a s' :
  m s = (Returns a, s') -> bind m k s = k a s'.
Proof. intros H. unfold bind. now rewrite H. Qed.

Lemma bind_raises {S A B} (m : ST S A) (k : A -> ST S B) s e s' :
  m s = (Raises e, s') -> bind m k s = (Raises e, s').
Proof. intros H. unfold bind. now rewrite H. Qed.

(** A computation leaves a component of the state as it found it. *)
Definition preserves {S A X} (f : S -> X) (m : ST S A) : Prop :=
  forall s, f (snd (m s)) = f s.

Lemma preserves_ret {S A X} (f : S -> X) (a : A) : preserves f (ret a).
Proof. now intros s. Qed.

Lemma preserves_raise {S A X} (f : S -> X) e : preserves f (@raise S A e).
Proof. now intros s. Qed.

Lemma preserves_gets {S A X} (f : S -> X) (g : S -> A) : preserves f (gets g).
Proof. now intros s. Qed.

Lemma preserves_answer {S A X} (f : S -> X) (r : exn + A) : preserves f (answer r).
Proof. now destruct r; intros s. Qed.

Lemma preserves_check {S X} (f : S -> X) (r : option exn) : preserves f (check r).
Proof. now destruct r; intros s. Qed.

Lemma preserves_modify {S X} (f : S -> X) (g : S -> S) :
  (forall s, f (g s) = f s) -> preserves f (modify g).
Proof. intros H s. apply H. Qed.

Lemma preserves_bind {S A B X} (f : S -> X) (m : ST S A) (k : A -> ST S B) :
  preserves f m -> (forall a, preserves f (k a)) -> preserves f (bind m k).
Proof.
  intros Hm Hk s. unfold bind. specialize (Hm s).
  destruct (m s) as [[a|e] s1]; simpl in *.
  - now rewrite Hk.
  - exact Hm.
Qed.

Lemma preserves_try_except {S A X} (f : S -> X) (m : ST S A) h :
  preserves f m -> (forall e, preserves f (h e)) -> preserves f (try_except m h).
Proof.
  intros Hm Hh s. unfold try_except. specialize (Hm s).
  destruct (m s) as [[a|e] s1]; simpl in *.
  - exact Hm.
  - now rewrite Hh.
Qed.

Lemma preserves_try_finally {S A X} (f : S -> X) (m : ST S A) fin :
  preserves f m -> preserves f fin -> preserves f (try_finally m fin).
Proof.
  intros Hm Hf s. unfold try_finally. specialize (Hm s).
  destruct (m s) as [r s1]. specialize (Hf s1).
  destruct (fin s1) as [[u|e] s2]; simpl in *; congruence.
Qed.

Create HintDb frame.

#[export] Hint Resolve preserves_ret preserves_raise preserves_gets
  preserves_answer preserves_check : frame.

(** ** C2: the chunking law of the long-context provider *)

(** [ceil(L / T)]. *)
Definition ceil_div (L T : nat) : nat := (L + T - 1) / T.

Definition is_chunk_call (p : Prompt) : bool :=
  match p with ChunkPrompt _ _ _ _ => true | _ => false end.

Definition is_final_call (p : Prompt) : bool :=
  match p with FinalPrompt _ => true | _ => false end.

Definition count_calls (f : Prompt -> bool) (l : list Prompt) : nat :=
  length (List.filter f l).

(** The prompts of the chunk loop, in the order they are sent. *)
Fixpoint chunk_prompts (n : nat) (info : VideoInfo) (i : nat)
    (chunks : list string) : list Prompt :=
  match chunks with
  | [] => []
  | chunk :: rest => ChunkPrompt (i + 1) n chunk info :: chunk_prompts n info (i + 1) rest
  end.

(** The provider answers whatever it is asked. *)
Definition responsive (w : World) (agent : Agent) : Prop :=
  forall p, exists r, generate w agent p = inr r.

(** [ceil_div L T] is the least number of pieces of size [T] that cover
    [L]. *)
Lemma ceil_div_least (L T : nat) :
  (0 < T)%nat ->
  (L <= ceil_div L T * T)%nat /\ (forall k, (L <= k * T)%nat -> (ceil_div L T <= k)%nat).
Proof.
  intros HT. unfold ceil_div. split.
  - pose proof (Nat.div_mod_eq (L + T - 1) T) as E.
    pose proof (Nat.mod_upper_bound (L + T - 1) T ltac:(lia)) as Hr.
    rewrite (Nat.mul_comm _ T). lia.
  - intros k Hk. apply Nat.lt_succ_r, Nat.Div0.div_lt_upper_bound.
    rewrite Nat.mul_succ_r, (Nat.mul_comm T k). lia.
Qed.

Lemma range_fuel_length (fuel i stop step : nat) :
  (0 < step)%nat -> (stop - i <= fuel)%nat ->
  length (range_fuel fuel i stop step) = ceil_div (stop - i) step.
Proof.
  unfold ceil_div. intros Hstep. revert i.
  induction fuel as [|fuel IH]; intros i Hfuel; simpl.
  - replace (stop - i)%nat with 0%nat by lia.
    symmetry. apply Nat.div_small. lia.
  - destruct (Nat.ltb_spec i stop) as [Hlt|Hge]; simpl.
    + rewrite IH by lia.
      destruct (Nat.le_gt_cases step (stop - i)) as [Hbig|Hsmall].
      * replace (stop - i + step - 1)%nat
          with ((stop - (i + step) + step - 1) + 1 * step)%nat by lia.
        rewrite Nat.div_add by lia. lia.
      * replace (stop - (i + step))%nat with 0%nat by lia.
        replace (stop - i + step - 1)%nat
          with ((stop - i - 1) + 1 * step)%nat by lia.
        rewrite Nat.div_add by lia.
        rewrite !Nat.div_small by lia. lia.
    + replace (stop - i)%nat with 0%nat by lia.
      symmetry. apply Nat.div_small. lia.
Qed.

Lemma range_length (stop step : nat) :
  (0 < step)%nat -> length (range 0 stop step) = ceil_div stop step.
Proof.
  intros H. unfold range. rewrite range_fuel_length by lia.
  now rewrite Nat.sub_0_r.
Qed.

Lemma split_transcript_length (T : nat) (transcript : string) :
  (0 < T)%nat -> (0 < String.length transcript)%nat ->
  length (split_transcript T transcript) = ceil_div (String.length transcript) T.
Proof.
  intros HT HL. unfold split_transcript.
  destruct (Nat.ltb_spec T (String.length transcript)) as [Hlong|Hshort].
  - rewrite length_map. now apply range_length.
  - simpl. unfold ceil_div.
    replace (String.length transcript + T - 1)%nat
      with ((String.length transcript - 1) + 1 * T)%nat by lia.
    rewrite Nat.div_add by lia. rewrite Nat.div_small by lia. reflexivity.
Qed.

Lemma split_transcript_single (T : nat) (transcript : string) :
  (0 < T)%nat -> ceil_div (String.length transcript) T = 1%nat ->
  split_transcript T transcript = [transcript].
Proof.
  intros HT H1. unfold split_transcript.
  destruct (Nat.ltb_spec T (String.length transcript)) as [Hlong|Hshort]; [|reflexivity].
  exfalso. destruct (ceil_div_least (String.length transcript) T HT) as [Hcover _].
  rewrite H1 in Hcover. lia.
Qed.

Lemma chunk_prompts_length n info i chunks :
  length (chunk_prompts n info i chunks) = length chunks.
Proof. revert i. induction chunks; intros; simpl; auto. Qed.

Lemma chunk_prompts_chunk n info i chunks :
  count_calls is_chunk_call (chunk_prompts n info i chunks) = length chunks.
Proof.
  unfold count_calls. revert i.
  induction chunks; intros; simpl; auto.
Qed.

Lemma chunk_prompts_final n info i chunks :
  count_calls is_final_call (chunk_prompts n info i chunks) = 0%nat.
Proof.
  unfold count_calls. revert i.
  induction chunks; intros; simpl; auto.
Qed.

Lemma count_calls_app f l1 l2 :
  count_calls f (l1 ++ l2) = (count_calls f l1 + count_calls f l2)%nat.
Proof. unfold count_calls. now rewrite List.filter_app, length_app. Qed.

Lemma call_model_responsive w agent p s :
  responsive w agent ->
  exists r, generate w agent p = inr r /\
    call_model w agent p s = (Returns r, set_calls (fun l => l ++ [p]) s).
Proof.
  intros Hw. destruct (Hw p) as [r Hr]. exists r. split; [exact Hr|].
  unfold call_model, bind, modify. simpl. now rewrite Hr.
Qed.

Lemma summarize_chunks_responsive w n info chunks :
  responsive w GoogleAIAgent ->
  forall i acc s,
  exists sums s',
    summarize_chunks w n info i chunks acc s = (Returns (acc ++ sums), s') /\
    length sums = length chunks /\
    calls s' = calls s ++ chunk_prompts n info i chunks.
Proof.
  intros Hw. induction chunks as [|chunk rest IH]; intros i acc s; simpl.
  - exists [], s. rewrite !app_nil_r. auto.
  - destruct (call_model_responsive w GoogleAIAgent
                (ChunkPrompt (i + 1) n chunk info) s Hw) as (r & _ & Hcall).
    rewrite (bind_returns _ _ _ _ _ Hcall).
    destruct (IH (i + 1)%nat (acc ++ [strip r])
                (set_calls (fun l => l ++ [ChunkPrompt (i + 1) n chunk info]) s))
      as (sums & s' & Hrun & Hlen & Hcalls).
    exists (strip r :: sums), s'. rewrite Hrun. simpl in Hcalls.
    rewrite <- !app_assoc in *. simpl. repeat split; auto.
Qed.

(** C2. For a transcript of length L > 0 and chunk length T > 0, with a
    provider that answers, the summarisation of the long-context provider
    returns after exactly ceil(L/T) per-chunk calls, followed by one
    combining call if and only if ceil(L/T) > 1, and by no other call;
    with one chunk the summary is that chunk's (stripped) answer. *)
Theorem chunking_law (w : World) (T : nat) (transcript : string)
    (info : VideoInfo) (s : Sys) :
  (0 < T)%nat -> (0 < String.length transcript)%nat ->
  responsive w GoogleAIAgent ->
  let n := ceil_div (String.length transcript) T in
  exists summary new_calls s',
    GoogleAIAgent_generate_summary_at w T transcript info s = (Returns summary, s') /\
    calls s' = calls s ++ new_calls /\
    count_calls is_chunk_call new_calls = n /\
    count_calls is_final_call new_calls = (if (1 <? n)%nat then 1 else 0)%nat /\
    length new_calls = (n + if (1 <? n)%nat then 1 else 0)%nat /\
    (n = 1%nat -> exists r,
        generate w GoogleAIAgent (ChunkPrompt 1 1 transcript info) = inr r /\
        summary = strip r).
Proof.
  intros HT HL Hw n.
  unfold GoogleAIAgent_generate_summary_at.
  destruct (Nat.eqb_spec T 0) as [->|_]; [lia|]. cbn [andb]. cbv beta iota zeta.
  pose proof (split_transcript_length T transcript HT HL) as Hlen. fold n in Hlen.
  destruct (summarize_chunks_responsive w (length (split_transcript T transcript))
              info (split_transcript T transcript) Hw 0%nat [] s)
    as (sums & s1 & Hrun & Hsums & Hcalls).
  rewrite (bind_returns _ _ _ _ _ Hrun).
  change ([] ++ sums) with sums in *. cbv beta.
  rewrite Hlen in Hsums. rewrite Hsums.
  destruct (Nat.ltb_spec 1 n) as [Hmany|Hone].
  - destruct (call_model_responsive w GoogleAIAgent (FinalPrompt sums) s1 Hw)
      as (r & _ & Hfinal).
    rewrite (bind_returns _ _ _ _ _ Hfinal).
    eexists (strip r), (chunk_prompts _ info 0 _ ++ [FinalPrompt sums]), _.
    split; [reflexivity|]. simpl calls. rewrite Hcalls, <- app_assoc.
    split; [reflexivity|].
    rewrite !count_calls_app, chunk_prompts_chunk, chunk_prompts_final.
    rewrite length_app, chunk_prompts_length, Hlen. cbn.
    repeat split; try lia.
  - assert (Hn : n = 1%nat).
    { destruct (ceil_div_least (String.length transcript) T HT) as [Hcover _].
      fold n in Hcover. destruct n; [simpl in Hcover|]; lia. }
    pose proof (split_transcript_single T transcript HT Hn) as Hsingle.
    rewrite Hsingle in Hrun, Hcalls. simpl in Hrun, Hcalls.
    destruct (generate w GoogleAIAgent (ChunkPrompt 1 1 transcript info))
      as [e|r] eqn:Hr.
    { destruct (Hw (ChunkPrompt 1 1 transcript info)) as [r' Hr']. congruence. }
    unfold bind, call_model, bind, modify in Hrun. simpl in Hrun.
    rewrite Hr in Hrun. simpl in Hrun. injection Hrun as Hs1 Hs1'. subst sums.
    eexists (strip r), [ChunkPrompt 1 1 transcript info], s1.
    split; [reflexivity|]. rewrite Hcalls, Hn. cbn.
    repeat split; auto. intros _. exists r. auto.
Qed.

(** C2 at a seven-character transcript cut in pieces of three. *)
Lemma chunking_law_witness :
  exists summary new_calls s',
    GoogleAIAgent_generate_summary_at demo_world 3 "abcdefg"
      (mk_VideoInfo 30 24 (640, 480)%Z "mp4" 5 true) demo_sys = (Returns summary, s') /\
    calls s' = calls demo_sys ++ new_calls /\
    count_calls is_chunk_call new_calls = 3%nat /\
    count_calls is_final_call new_calls = 1%nat /\
    length new_calls = 4%nat /\
    (3%nat = 1%nat -> exists r,
        generate demo_world GoogleAIAgent
          (ChunkPrompt 1 1 "abcdefg" (mk_VideoInfo 30 24 (640, 480)%Z "mp4" 5 true)) = inr r /\
        summary = strip r).
Proof.
  apply (chunking_law demo_world 3 "abcdefg"
           (mk_VideoInfo 30 24 (640, 480)%Z "mp4" 5 true) demo_sys).
  - simpl; lia.
  - simpl; lia.
  - intros p. exists "OK". reflexivity.
Defined.

(** The configured provider's [generate_summary] is the chunked one, at
    30000 characters, for the long-context provider only; the two others
    send the whole transcript in one call. *)
Lemma generate_summary_google w transcript info :
  generate_summary w GoogleAIAgent transcript info
  = GoogleAIAgent_generate_summary_at w 30000 transcript info.
Proof. reflexivity. Qed.

Lemma single_call_providers w agent transcript info s :
  agent <> GoogleAIAgent ->
  calls (snd (generate_summary w agent transcript info s))
  = calls s ++ [SummaryPrompt transcript info].
Proof.
  intros Hagent. destruct agent; [| |contradiction].
  all: unfold generate_summary, single_call_summary, call_model, bind, modify, answer.
  all: simpl; destruct (generate w _ _); reflexivity.
Qed.

(** ** Footprints of the pipeline's operations *)

(** An observation of the state that does not depend on one component. *)
Definition keeps_files {X} (f : Sys -> X) : Prop :=
  forall g s, f (set_files g s) = f s.
Definition keeps_open_clips {X} (f : Sys -> X) : Prop :=
  forall g s, f (set_open_clips g s) = f s.
Definition keeps_temp_files {X} (f : Sys -> X) : Prop :=
  forall g s, f (set_temp_files g s) = f s.
Definition keeps_written {X} (f : Sys -> X) : Prop :=
  forall g s, f (set_written g s) = f s.
Definition keeps_calls {X} (f : Sys -> X) : Prop :=
  forall g s, f (set_calls g s) = f s.
Definition keeps_ticks {X} (f : Sys -> X) : Prop :=
  forall g s, f (set_ticks g s) = f s.

(** Discharges [keeps_x f] for a projection [f] other than [x]. *)
Ltac other_field := solve [ intros ? []; reflexivity ].

Ltac footprint :=
  unfold keeps_files, keeps_open_clips, keeps_temp_files, keeps_written,
    keeps_calls, keeps_ticks in *;
  repeat first
    [ progress intros
    | apply preserves_bind
    | apply preserves_try_except
    | apply preserves_try_finally
    | solve [ auto with frame ]
    | solve [ apply preserves_modify; auto ]
    | match goal with
      | |- preserves _ (if ?b then _ else _) => destruct b
      | |- preserves _ (match ?x with _ => _ end) => destruct x
      end ].

Section Footprints.

Context {X : Type} (f : Sys -> X) (w : World).

Lemma datetime_now_footprint : keeps_ticks f -> preserves f (datetime_now w).
Proof. intros H s. apply H. Qed.

Lemma get_video_info_footprint p :
  keeps_open_clips f -> preserves f (get_video_info w p).
Proof. unfold get_video_info, open_clip, close_clip. footprint. Qed.

Lemma extract_audio_footprint p o :
  keeps_open_clips f -> keeps_files f ->
  preserves f (extract_audio_from_video w p o).
Proof. unfold extract_audio_from_video, open_clip, close_clip. footprint. Qed.

Lemma transcribe_footprint agent p : preserves f (_transcribe_audio w agent p).
Proof.
  unfold _transcribe_audio, transcribe_audio, transcribe_with_whisper,
    AudioProcessor_init.
  footprint.
Qed.

Lemma call_model_footprint agent p :
  keeps_calls f -> preserves f (call_model w agent p).
Proof. unfold call_model. footprint. Qed.

Lemma summarize_chunks_footprint n info chunks :
  keeps_calls f -> forall i acc, preserves f (summarize_chunks w n info i chunks acc).
Proof.
  intros H. induction chunks as [|c rest IH]; intros i acc; simpl.
  - apply preserves_ret.
  - apply preserves_bind; [now apply call_model_footprint|]. intros r. apply IH.
Qed.

Lemma generate_summary_footprint agent t info :
  keeps_calls f -> preserves f (generate_summary w agent t info).
Proof.
  intros H. pose proof (call_model_footprint) as Hc.
  pose proof (summarize_chunks_footprint) as Hs.
  unfold generate_summary, single_call_summary, GoogleAIAgent_generate_summary_at.
  destruct agent; footprint.
Qed.

Lemma save_result_footprint r p :
  keeps_ticks f -> keeps_files f -> keeps_written f ->
  preserves f (_save_result w r p).
Proof.
  intros. pose proof datetime_now_footprint.
  unfold _save_result. footprint.
Qed.

Lemma cleanup_temp_files_footprint l :
  keeps_files f -> preserves f (cleanup_temp_files w l).
Proof.
  intros H. induction l as [|p rest IH]; simpl.
  - apply preserves_ret.
  - unfold path_exists, remove_file. footprint.
Qed.

Lemma cleanup_footprint :
  keeps_files f -> keeps_temp_files f -> preserves f (_cleanup_temp_files w).
Proof.
  intros Hf Ht s. unfold _cleanup_temp_files, bind, gets. simpl.
  destruct (temp_files s) as [|p l] eqn:E; [reflexivity|].
  pose proof (cleanup_temp_files_footprint (p :: l) Hf s) as Hc.
  destruct (cleanup_temp_files w (p :: l) s) as [[[]|e] s1]; simpl in *; [|exact Hc].
  now rewrite Ht.
Qed.

End Footprints.

(** ** The cleanup loop *)

(** The registered paths whose removal the operating system accepts. *)
Definition removable (w : World) (l : list string) : gset string :=
  list_to_set (List.filter (fun p => bool_decide (os_remove w p = None)) l).

Lemma elem_of_removable w l p :
  p ∈ removable w l <-> p ∈ l /\ os_remove w p = None.
Proof.
  unfold removable. rewrite elem_of_list_to_set, list_elem_of_In, List.filter_In.
  rewrite <- list_elem_of_In, bool_decide_eq_true. reflexivity.
Qed.

Lemma set_files_twice g h s : set_files g (set_files h s) = set_files (fun f => g (h f)) s.
Proof. now destruct s. Qed.

Lemma set_files_ext g h s : g (files s) = h (files s) -> set_files g s = set_files h s.
Proof. destruct s; unfold set_files; simpl. now intros ->. Qed.

(** The loop of [cleanup_temp_files] never raises; it removes exactly the
    listed files whose removal is accepted. *)
Lemma cleanup_temp_files_spec w l s :
  cleanup_temp_files w l s = (Returns tt, set_files (fun f => f ∖ removable w l) s).
Proof.
  revert s. induction l as [|p rest IH]; intros s; simpl.
  - unfold ret. f_equal. destruct s; unfold set_files; simpl. f_equal.
    unfold removable; simpl. set_solver.
  - assert (Hstep : try_except
              (ex <- path_exists w p ;; if ex then remove_file w p else ret tt)
              (fun _ => ret tt) s
            = (Returns tt, set_files (fun f => f ∖ removable w [p]) s)).
    { unfold try_except, bind, path_exists, gets, remove_file, bind, check, modify.
      unfold removable. simpl.
      destruct (bool_decide (p ∈ files s)) eqn:Hex;
        [|apply bool_decide_eq_false in Hex; destruct (isdir w p)]; cbn [orb].
      1-2: destruct (os_remove w p) as [e|] eqn:Hrm; simpl.
      1,3: unfold ret; f_equal; destruct s; unfold set_files; simpl in *; f_equal;
        set_solver.
      1-2: f_equal; apply set_files_ext; set_solver.
      unfold ret. f_equal.
      destruct s; unfold set_files; simpl in *. f_equal.
      destruct (bool_decide (os_remove w p = None)); simpl; set_solver. }
    rewrite (bind_returns _ _ _ _ _ Hstep), IH, set_files_twice.
    f_equal. apply set_files_ext. unfold removable. simpl.
    destruct (bool_decide (os_remove w p = None)); simpl; set_solver.
Qed.

Lemma cleanup_spec w s :
  _cleanup_temp_files w s
  = (Returns tt,
     set_temp_files (fun _ => [])
       (set_files (fun f => f ∖ removable w (temp_files s)) s)).
Proof.
  unfold _cleanup_temp_files, bind, gets. simpl.
  destruct (temp_files s) as [|p l] eqn:E.
  - unfold ret. f_equal. destruct s; unfold set_temp_files, set_files; simpl in *.
    subst. f_equal. unfold removable. simpl. set_solver.
  - rewrite cleanup_temp_files_spec. reflexivity.
Qed.

(** [process_video] is its [try] block followed by the cleanup, on
    every exit path. *)
Lemma process_video_unfold w agent p s :
  process_video w agent p s
  = (fst (process_video_body w agent p s),
     set_temp_files (fun _ => [])
       (set_files (fun f => f ∖ removable w (temp_files (snd (process_video_body w agent p s))))
          (snd (process_video_body w agent p s)))).
Proof.
  unfold process_video, try_finally.
  destruct (process_video_body w agent p s) as [r s1]. simpl.
  now rewrite cleanup_spec.
Qed.

(** ** C7: decoder handles in [extract_audio_from_video] *)

(** On a normal return the decoder opened for the video is closed again. *)
Lemma extract_audio_returns_closed w p o s out s' :
  extract_audio_from_video w p o s = (Returns out, s') ->
  open_clips s' = open_clips s.
Proof.
  unfold extract_audio_from_video, open_clip, close_clip, bind, answer, check,
    modify, ret, raise.
  destruct (VideoFileClip w p) as [e|clip]; simpl; [discriminate|].
  destruct (clip_audio clip); simpl; [|discriminate].
  destruct (write_audiofile w p _); simpl; [discriminate|].
  intros [= _ <-]. simpl. now rewrite bool_decide_eq_true_2.
Qed.

(** A video without an audio stream: the error is raised with the
    decoder still open. *)
Lemma extract_audio_no_audio w p o s clip :
  VideoFileClip w p = inr clip -> clip_audio clip = false ->
  extract_audio_from_video w p o s
  = (Raises (ValueError "El video no contiene audio"), set_open_clips (cons p) s).
Proof.
  intros Hclip Haudio.
  unfold extract_audio_from_video, open_clip, bind, answer, modify, ret, raise.
  rewrite Hclip. simpl. now rewrite Haudio.
Qed.

(** A failed write of the audio file: the same. *)
Lemma extract_audio_write_failure w p s clip e :
  VideoFileClip w p = inr clip -> clip_audio clip = true ->
  write_audiofile w p (default_audio_path w p) = Some e ->
  extract_audio_from_video w p None s = (Raises e, set_open_clips (cons p) s).
Proof.
  intros Hclip Haudio Hwrite.
  unfold extract_audio_from_video, open_clip, bind, answer, check, modify, ret, raise.
  rewrite Hclip. simpl. rewrite Haudio. simpl. now rewrite Hwrite.
Qed.

(** C7 at a video without an audio track: [extract_audio_from_video]
    raises the no-audio error and the decoder handle of the video is
    still open when it does. *)
Theorem no_audio_leaves_decoder_open :
  fst (extract_audio_from_video demo_world "./videos/silent.mp4" None demo_sys)
    = Raises (ValueError "El video no contiene audio") /\
  open_clips (snd (extract_audio_from_video demo_world "./videos/silent.mp4" None demo_sys))
    = ["./videos/silent.mp4"].
Proof. split; vm_compute; reflexivity. Qed.

(** ** C6: the order of the stages and the two policies *)

(** The dictionary [get_video_info] builds from what the decoder and the
    filesystem answer. *)
Definition video_info_of (p : string) (clip : Clip) (bytes : Z) : VideoInfo :=
  {| duration := clip_duration clip;
     fps := clip_fps clip;
     size := clip_size clip;
     format := Path.drop_first (snd (Path.splitext p));
     size_mb := (bytes # 1048576)%Q;
     has_audio := clip_audio clip |}.

Definition size_error (w : World) (info : VideoInfo) : exn :=
  ValueError ("Video demasiado grande: " +:+ format_2f w (size_mb info) +:+ "MB > "
              +:+ str_Z (MAX_VIDEO_SIZE_MB (config w)) +:+ "MB").

Definition format_error (info : VideoInfo) : exn :=
  ValueError ("Formato no soportado: " +:+ format info).

Lemma bind_modify {S B} (g : S -> S) (k : unit -> ST S B) s :
  bind (modify g) k s = k tt (g s).
Proof. reflexivity. Qed.

Lemma bind_gets {S A B} (g : S -> A) (k : A -> ST S B) s :
  bind (gets g) k s = k (g s) s.
Proof. reflexivity. Qed.

Lemma get_video_info_returns w p s clip bytes :
  VideoFileClip w p = inr clip -> getsize w p = inr bytes ->
  get_video_info w p s
  = (Returns (video_info_of p clip bytes),
     set_open_clips (remove_first p) (set_open_clips (cons p) s)).
Proof.
  intros Hclip Hsize.
  unfold get_video_info, open_clip, close_clip, bind, answer, modify, ret.
  rewrite Hclip. simpl. rewrite Hsize. reflexivity.
Qed.

Lemma open_close_clip p s :
  set_open_clips (remove_first p) (set_open_clips (cons p) s) = s.
Proof. destruct s; unfold set_open_clips; simpl. now rewrite bool_decide_eq_true_2. Qed.

(** One step of a run: an operation that leaves the stage log alone
    either raises or returns, and the log is what it was. *)
Ltac run_op Hfoot :=
  match goal with
  | |- context [bind ?m ?k ?s] =>
      let Hst := fresh "Hst" in
      let E := fresh "E" in
      pose proof (Hfoot s) as Hst;
      destruct (m s) as [[?|?] ?] eqn:E; simpl in Hst;
      [ rewrite (bind_returns m k s _ _ E) | rewrite (bind_raises m k s _ _ E) ]
  end.

Lemma body_stage_order w agent p s :
  exists n,
    stages (snd (process_video_body w agent p s)) = stages s ++ firstn n pipeline_order /\
    (forall res, fst (process_video_body w agent p s) = Returns res -> n = 8%nat).
Proof.
  unfold process_video_body, enter, path_exists.
  rewrite bind_modify, bind_gets. cbv beta.
  destruct (bool_decide (p ∈ files _) || isdir w p); cbn [negb]; cbv iota.
  2: { exists 1%nat. simpl. split; [reflexivity|discriminate]. }
  rewrite bind_modify.
  run_op (get_video_info_footprint stages w p ltac:(other_field)).
  2: { exists 2%nat. simpl. rewrite Hst, <- app_assoc. split; [reflexivity|discriminate]. }
  rewrite bind_modify.
  destruct (too_large w _); cbv iota.
  { exists 3%nat. simpl. rewrite Hst, <- !app_assoc. split; [reflexivity|discriminate]. }
  rewrite bind_modify.
  destruct (supported w _); cbn [negb]; cbv iota.
  2: { exists 4%nat. simpl. rewrite Hst, <- !app_assoc. split; [reflexivity|discriminate]. }
  rewrite bind_modify.
  run_op (extract_audio_footprint stages w p None ltac:(other_field) ltac:(other_field)).
  2: { exists 5%nat. simpl. rewrite Hst0. simpl. rewrite Hst, <- !app_assoc.
       split; [reflexivity|discriminate]. }
  rewrite !bind_modify.
  match goal with |- context [_transcribe_audio w agent ?a] =>
    run_op (transcribe_footprint stages w agent a) end.
  2: { exists 6%nat. simpl. rewrite Hst1. simpl. rewrite Hst0. simpl.
       rewrite Hst, <- !app_assoc. split; [reflexivity|discriminate]. }
  rewrite bind_modify.
  match goal with |- context [generate_summary w agent ?t ?i] =>
    run_op (generate_summary_footprint stages w agent t i ltac:(other_field)) end.
  2: { exists 7%nat. simpl. rewrite Hst2. simpl. rewrite Hst1. simpl. rewrite Hst0.
       simpl. rewrite Hst, <- !app_assoc. split; [reflexivity|discriminate]. }
  unfold bind at 1. unfold datetime_now at 1. rewrite bind_modify.
  match goal with |- context [_save_result w ?r p] =>
    run_op (save_result_footprint stages w r p
              ltac:(other_field) ltac:(other_field) ltac:(other_field)) end.
  all: exists 8%nat; simpl; rewrite Hst3; simpl; rewrite Hst2; simpl; rewrite Hst1;
    simpl; rewrite Hst0; simpl; rewrite Hst, <- !app_assoc; split; [reflexivity|auto].
Qed.

Lemma set_stages_twice g h s :
  set_stages g (set_stages h s) = set_stages (fun l => g (h l)) s.
Proof. now destruct s. Qed.

Lemma set_stages_ext g h s : g (stages s) = h (stages s) -> set_stages g s = set_stages h s.
Proof. destruct s; unfold set_stages; simpl. now intros ->. Qed.

Lemma bind_datetime_now {B} w (k : datetime -> ST Sys B) s :
  bind (datetime_now w) k s = k (clock w (ticks s)) (set_ticks S s).
Proof. reflexivity. Qed.

(** The name of the summary file of a video saved at the reading [now]. *)
Definition summary_path (w : World) (video_path : string) (now : datetime) : string :=
  Path.join (VIDEO_OUTPUT_FOLDER (config w))
    (Path.stem video_path +:+ "_resumen_" +:+ strftime_seconds now +:+ ".txt").

(** [_save_result], outcome by outcome: [open] raises and nothing is
    created; [open] creates the file and [write] raises; both succeed. *)
Lemma save_result_run w result p s :
  _save_result w result p s
  = match open_text w (summary_path w p (clock w (ticks s))) with
    | Some e => (Raises e, set_ticks S s)
    | None =>
        match write_text w (summary_path w p (clock w (ticks s)))
                (_format_summary_content w result) with
        | Some e =>
            (Raises e,
             set_files (fun f => {[summary_path w p (clock w (ticks s))]} ∪ f)
               (set_ticks S s))
        | None =>
            (Returns (summary_path w p (clock w (ticks s))),
             set_written (fun l => l ++ [(summary_path w p (clock w (ticks s)),
                                          _format_summary_content w result)])
               (set_files (fun f => {[summary_path w p (clock w (ticks s))]} ∪ f)
                  (set_ticks S s)))
        end
    end.
Proof.
  unfold _save_result. rewrite bind_datetime_now. fold (summary_path w p (clock w (ticks s))).
  unfold bind, check, modify, ret, raise.
  destruct (open_text w _); [reflexivity|].
  now destruct (write_text w _ _).
Qed.

(** *** The outcome of a stage does not depend on the state *)

Definition oblivious {S A} (m : ST S A) : Prop :=
  forall s1 s2, fst (m s1) = fst (m s2).

Lemma oblivious_ret {S A} (a : A) : oblivious (@ret S A a).
Proof. now intros s1 s2. Qed.

Lemma oblivious_raise {S A} e : oblivious (@raise S A e).
Proof. now intros s1 s2. Qed.

Lemma oblivious_answer {S A} (r : exn + A) : oblivious (@answer S A r).
Proof. now destruct r; intros s1 s2. Qed.

Lemma oblivious_check {S} (r : option exn) : oblivious (@check S r).
Proof. now destruct r; intros s1 s2. Qed.

Lemma oblivious_modify {S} (g : S -> S) : oblivious (modify g).
Proof. now intros s1 s2. Qed.

Lemma oblivious_bind {S A B} (m : ST S A) (k : A -> ST S B) :
  oblivious m -> (forall a, oblivious (k a)) -> oblivious (bind m k).
Proof.
  intros Hm Hk s1 s2. unfold bind. specialize (Hm s1 s2).
  destruct (m s1) as [[a1|e1] t1], (m s2) as [[a2|e2] t2]; simpl in Hm;
    try discriminate; injection Hm as ->; [apply Hk|reflexivity].
Qed.

#[export] Hint Resolve oblivious_ret oblivious_raise oblivious_answer
  oblivious_check oblivious_modify : frame.

Ltac outcome :=
  repeat first
    [ progress intros
    | solve [ auto with frame ]
    | apply oblivious_bind
    | match goal with
      | |- oblivious (if ?b then _ else _) => destruct b
      | |- oblivious (match ?x with _ => _ end) => destruct x
      end ].

Lemma get_video_info_oblivious w p : oblivious (get_video_info w p).
Proof. unfold get_video_info, open_clip, close_clip. outcome. Qed.

Lemma extract_audio_oblivious w p o : oblivious (extract_audio_from_video w p o).
Proof. unfold extract_audio_from_video, open_clip, close_clip. outcome. Qed.

Lemma transcribe_oblivious w agent a : oblivious (_transcribe_audio w agent a).
Proof.
  unfold _transcribe_audio, transcribe_audio, transcribe_with_whisper, AudioProcessor_init.
  outcome.
Qed.

Lemma call_model_oblivious w agent p : oblivious (call_model w agent p).
Proof. unfold call_model. outcome. Qed.

Lemma summarize_chunks_oblivious w n info chunks :
  forall i acc, oblivious (summarize_chunks w n info i chunks acc).
Proof.
  induction chunks as [|c rest IH]; intros i acc; simpl.
  - apply oblivious_ret.
  - apply oblivious_bind; [apply call_model_oblivious|]. intros r. apply IH.
Qed.

Lemma generate_summary_oblivious w agent t info : oblivious (generate_summary w agent t info).
Proof.
  pose proof (call_model_oblivious w) as Hc.
  pose proof (summarize_chunks_oblivious w) as Hs.
  unfold generate_summary, single_call_summary, GoogleAIAgent_generate_summary_at.
  destruct agent; outcome.
Qed.

(** *** The state a stage leaves *)

Lemma get_video_info_state w p s info s' :
  get_video_info w p s = (Returns info, s') -> s' = s.
Proof.
  unfold get_video_info, open_clip, close_clip, bind, answer, modify, ret, raise.
  destruct (VideoFileClip w p) as [e|clip]; simpl; [discriminate|].
  destruct (getsize w p) as [e|bytes]; simpl; [discriminate|].
  intros [= _ <-]. apply open_close_clip.
Qed.

Lemma extract_audio_state w p s out s' :
  extract_audio_from_video w p None s = (Returns out, s') ->
  s' = set_files (fun f => {[out]} ∪ f) s.
Proof.
  unfold extract_audio_from_video, open_clip, close_clip, bind, answer, check,
    modify, ret, raise.
  destruct (VideoFileClip w p) as [e|clip]; simpl; [discriminate|].
  destruct (clip_audio clip); simpl; [|discriminate].
  destruct (write_audiofile w p _); simpl; [discriminate|].
  intros [= <- <-]. destruct s; unfold set_files, set_open_clips; simpl.
  now rewrite bool_decide_eq_true_2.
Qed.

Lemma transcribe_state w agent a s : snd (_transcribe_audio w agent a s) = s.
Proof.
  unfold _transcribe_audio, transcribe_audio, transcribe_with_whisper,
    AudioProcessor_init, bind, check, answer, ret, raise.
  destruct (bool_decide _); [now destruct (whisper_transcribe w a)|].
  destruct agent.
  - now destruct (client_transcribe w OpenAIAgent a).
  - now destruct (client_transcribe w AnthropicAgent a).
  - destruct (load_model w); [reflexivity|]. now destruct (whisper_transcribe w a).
Qed.

(** *** The run, stage by stage *)

(** What a run is seen to do: its outcome, the number of stages it
    entered, and the summary files it wrote. *)
Record Report := mk_Report {
  rp_outcome : Outcome Result;
  rp_entered : nat;
  rp_wrote : list (string * string)
}.

(** The stages in the order of the specification, each run on its own on
    what the stages before it returned; the first that raises ends the
    run. *)
Definition staged (w : World) (agent : Agent) (p : string) (s : Sys) : Report :=
  if negb (bool_decide (p ∈ files s) || isdir w p)
  then mk_Report (Raises (FileNotFoundError ("Video no encontrado: " +:+ p))) 1 []
  else
    match fst (get_video_info w p s) with
    | Raises e => mk_Report (Raises e) 2 []
    | Returns info =>
        if too_large w info then mk_Report (Raises (size_error w info)) 3 []
        else if negb (supported w info) then mk_Report (Raises (format_error info)) 4 []
        else
          match fst (extract_audio_from_video w p None s) with
          | Raises e => mk_Report (Raises e) 5 []
          | Returns audio =>
              match fst (_transcribe_audio w agent audio s) with
              | Raises e => mk_Report (Raises e) 6 []
              | Returns text =>
                  match fst (generate_summary w agent text info s) with
                  | Raises e => mk_Report (Raises e) 7 []
                  | Returns digest =>
                      let result :=
                        {| video_path := p;
                           video_info := info;
                           transcript := text;
                           summary := digest;
                           processed_at := isoformat (clock w (ticks s));
                           ai_provider := AI_PROVIDER (config w);
                           transcription_model := TRANSCRIPTION_MODEL (config w) |} in
                      let path := summary_path w p (clock w (S (ticks s))) in
                      match open_text w path with
                      | Some e => mk_Report (Raises e) 8 []
                      | None =>
                          match write_text w path (_format_summary_content w result) with
                          | Some e => mk_Report (Raises e) 8 []
                          | None =>
                              mk_Report (Returns result) 8
                                [(path, _format_summary_content w result)]
                          end
                      end
                  end
              end
          end
    end.

Ltac fields :=
  cbn [files open_clips temp_files written stages calls ticks
       set_files set_open_clips set_temp_files set_written set_stages set_calls
       set_ticks fst snd rp_outcome rp_entered rp_wrote] in *.

Ltac report :=
  unfold ret, raise; fields; cbn [firstn pipeline_order];
  rewrite ?app_nil_r, <- ?app_assoc;
  repeat split; intros; first [ reflexivity | lia | simpl; reflexivity ].

(** The [try] block of [process_video] does what the stages say. *)
Lemma body_report w agent p s :
  let body := process_video_body w agent p s in
  let r := staged w agent p s in
  fst body = rp_outcome r /\
  stages (snd body) = stages s ++ firstn (rp_entered r) pipeline_order /\
  written (snd body) = written s ++ rp_wrote r /\
  ((rp_entered r <= 6)%nat -> calls (snd body) = calls s) /\
  ((rp_entered r <= 4)%nat ->
     files (snd body) = files s /\ temp_files (snd body) = temp_files s) /\
  ((rp_entered r <= 4)%nat -> rp_entered r <> 2%nat ->
     open_clips (snd body) = open_clips s).
Proof.
  cbv zeta. unfold staged, process_video_body, enter, path_exists.
  rewrite bind_modify, bind_gets. cbv beta.
  replace (files (set_stages (fun l => l ++ [ExistenceCheck]) s)) with (files s)
    by now destruct s.
  destruct (bool_decide (p ∈ files s) || isdir w p); cbn [negb]; cbv iota.
  2: { destruct s. report. }
  rewrite bind_modify.
  (* metadata *)
  match goal with |- context [bind (get_video_info w p) ?k ?s1] =>
    rewrite (get_video_info_oblivious w p s s1);
    pose proof (get_video_info_footprint stages w p ltac:(other_field) s1) as F1;
    pose proof (get_video_info_footprint written w p ltac:(other_field) s1) as F2;
    pose proof (get_video_info_footprint calls w p ltac:(other_field) s1) as F3;
    pose proof (get_video_info_footprint files w p ltac:(other_field) s1) as F4;
    pose proof (get_video_info_footprint temp_files w p ltac:(other_field) s1) as F5;
    destruct (get_video_info w p s1) as [[info|e] s2] eqn:E1;
    [ rewrite (bind_returns _ k s1 _ _ E1) | rewrite (bind_raises _ k s1 _ _ E1) ]
  end.
  2: { clear E1. destruct s, s2. fields. subst. report. }
  apply get_video_info_state in E1. subst s2. clear F1 F2 F3 F4 F5.
  cbv beta. cbn [fst]. rewrite bind_modify.
  destruct (too_large w info); cbv iota.
  { destruct s. report. }
  rewrite bind_modify.
  destruct (supported w info); cbn [negb]; cbv iota.
  2: { destruct s. report. }
  rewrite bind_modify.
  (* audio extraction *)
  match goal with |- context [bind (extract_audio_from_video w p None) ?k ?s1] =>
    rewrite (extract_audio_oblivious w p None s s1);
    pose proof (extract_audio_footprint stages w p None
                  ltac:(other_field) ltac:(other_field) s1) as F1;
    pose proof (extract_audio_footprint written w p None
                  ltac:(other_field) ltac:(other_field) s1) as F2;
    pose proof (extract_audio_footprint calls w p None
                  ltac:(other_field) ltac:(other_field) s1) as F3;
    destruct (extract_audio_from_video w p None s1) as [[audio|e] s2] eqn:E2;
    [ rewrite (bind_returns _ k s1 _ _ E2) | rewrite (bind_raises _ k s1 _ _ E2) ]
  end.
  2: { clear E2. destruct s, s2. fields. subst. report. }
  apply extract_audio_state in E2. subst s2. clear F1 F2 F3.
  cbv beta. cbn [fst]. rewrite !bind_modify.
  (* transcription *)
  match goal with |- context [bind (_transcribe_audio w agent audio) ?k ?s1] =>
    rewrite (transcribe_oblivious w agent audio s s1);
    pose proof (transcribe_state w agent audio s1) as F1;
    destruct (_transcribe_audio w agent audio s1) as [[text|e] s2] eqn:E3;
    [ rewrite (bind_returns _ k s1 _ _ E3) | rewrite (bind_raises _ k s1 _ _ E3) ]
  end.
  all: cbn [snd] in F1; subst s2.
  2: { clear E3. destruct s. report. }
  cbv beta. cbn [fst]. rewrite bind_modify.
  (* summarisation *)
  match goal with |- context [bind (generate_summary w agent text info) ?k ?s1] =>
    rewrite (generate_summary_oblivious w agent text info s s1);
    pose proof (generate_summary_footprint stages w agent text info
                  ltac:(other_field) s1) as F1;
    pose proof (generate_summary_footprint written w agent text info
                  ltac:(other_field) s1) as F2;
    pose proof (generate_summary_footprint ticks w agent text info
                  ltac:(other_field) s1) as F3;
    destruct (generate_summary w agent text info s1) as [[digest|e] s2] eqn:E4;
    [ rewrite (bind_returns _ k s1 _ _ E4) | rewrite (bind_raises _ k s1 _ _ E4) ]
  end.
  2: { clear E3 E4. destruct s, s2. fields. subst. report. }
  cbv beta. cbn [fst]. rewrite bind_datetime_now, bind_modify.
  (* persistence *)
  unfold bind. rewrite save_result_run. clear E3 E4.
  destruct s, s2. fields. subst.
  destruct (open_text w _); [|destruct (write_text w _ _)]; report.
Qed.

(** Reads the facts of a report whose shape is known. *)
Ltac report_of H :=
  let Ho := fresh in let Hs := fresh in let Hw := fresh in
  let Hc := fresh in let Hf := fresh in let Hoc := fresh in
  cbn [orb negb] in H; destruct H as (Ho & Hs & Hw & Hc & Hf & Hoc); fields;
  cbn [firstn pipeline_order] in *; rewrite ?app_nil_r in Hw;
  repeat split;
    first [ assumption | apply Hc; lia | apply Hf; lia | apply Hoc; lia ].

(** [process_video] does what the stages say; its cleanup removes files
    and nothing else. *)
Lemma run_report w agent p s :
  let run := process_video w agent p s in
  let r := staged w agent p s in
  fst run = rp_outcome r /\
  stages (snd run) = stages s ++ firstn (rp_entered r) pipeline_order /\
  written (snd run) = written s ++ rp_wrote r /\
  ((rp_entered r <= 6)%nat -> calls (snd run) = calls s) /\
  ((rp_entered r <= 4)%nat -> files (snd run) ⊆ files s) /\
  ((rp_entered r <= 4)%nat -> rp_entered r <> 2%nat ->
     open_clips (snd run) = open_clips s).
Proof.
  cbv zeta. rewrite process_video_unfold. cbn [fst snd].
  destruct (body_report w agent p s) as (Ho & Hs & Hw & Hc & Hf & Hoc).
  destruct (snd (process_video_body w agent p s)) as [fs oc tf wr st cl tk].
  fields. repeat split; auto.
  intros Hn. destruct (Hf Hn) as [-> _]. set_solver.
Qed.

(** C6. The stages of [process_video] run in the order existence check,
    metadata, size policy, format policy, audio extraction,
    transcription, summarisation, persistence, and each is an abort
    point.  The log of a run is an initial segment of that list, and all
    of it when the run returns.  A path that does not exist, as a file or
    as a folder, raises the not-found error at the existence check.  For
    a path that exists: an error of the metadata is the error of the run;
    with the metadata read, a size above the configured maximum raises
    the size error at the size policy, and an extension outside the
    allow-list (compared in lower case) raises the format error at the
    format policy, in both cases before any audio extraction: no decoder
    stays open, no model is called, nothing is written.  A video that
    passes the checks goes through the four working stages, each fed
    with what the one before it returned: an error of the audio
    extraction ends the run before any transcription or model call; an
    error of the transcription (of the extracted audio) ends it before
    any model call; an error of the summarisation (of that transcript
    and that metadata) ends it before anything is written; and when the
    summarisation returns, the run returns the result made of that
    metadata, transcript and summary, having written its formatted
    content, unless saving raises. *)
Theorem stage_order (w : World) (agent : Agent) (p : string) (s : Sys) :
  let run := process_video w agent p s in
  let entered n := stages (snd run) = stages s ++ firstn n pipeline_order in
  let untouched :=
    open_clips (snd run) = open_clips s /\ written (snd run) = written s /\
    calls (snd run) = calls s /\ files (snd run) ⊆ files s in
  (exists n, entered n /\ (forall res, fst run = Returns res -> n = 8%nat)) /\
  (p ∉ files s -> isdir w p = false ->
     fst run = Raises (FileNotFoundError ("Video no encontrado: " +:+ p)) /\
     entered 1%nat /\ untouched) /\
  (p ∈ files s \/ isdir w p = true ->
   (forall e, fst (get_video_info w p s) = Raises e ->
      fst run = Raises e /\ entered 2%nat /\
      written (snd run) = written s /\ calls (snd run) = calls s /\
      files (snd run) ⊆ files s) /\
   (forall info, fst (get_video_info w p s) = Returns info ->
      (too_large w info = true ->
         fst run = Raises (size_error w info) /\ entered 3%nat /\ untouched) /\
      (too_large w info = false -> supported w info = false ->
         fst run = Raises (format_error info) /\ entered 4%nat /\ untouched) /\
      (too_large w info = false -> supported w info = true ->
         (forall e, fst (extract_audio_from_video w p None s) = Raises e ->
            fst run = Raises e /\ entered 5%nat /\
            written (snd run) = written s /\ calls (snd run) = calls s) /\
         (forall audio, fst (extract_audio_from_video w p None s) = Returns audio ->
            (forall e, fst (_transcribe_audio w agent audio s) = Raises e ->
               fst run = Raises e /\ entered 6%nat /\
               written (snd run) = written s /\ calls (snd run) = calls s) /\
            (forall text, fst (_transcribe_audio w agent audio s) = Returns text ->
               (forall e, fst (generate_summary w agent text info s) = Raises e ->
                  fst run = Raises e /\ entered 7%nat /\
                  written (snd run) = written s) /\
               (forall digest,
                  fst (generate_summary w agent text info s) = Returns digest ->
                  entered 8%nat /\
                  match fst run with
                  | Returns result =>
                      video_info result = info /\
                      transcript result = text /\
                      summary result = digest /\
                      exists path,
                        written (snd run)
                        = written s ++ [(path, _format_summary_content w result)]
                  | Raises e =>
                      written (snd run) = written s /\
                      exists path,
                        open_text w path = Some e \/
                        exists content, write_text w path content = Some e
                  end)))))).
Proof.
  cbv zeta. pose proof (run_report w agent p s) as Hrep. cbv zeta in Hrep.
  split; [|split].
  - rewrite process_video_unfold. cbn [fst snd].
    destruct (body_stage_order w agent p s) as (n & Hn & Hret).
    exists n. split; [|exact Hret].
    rewrite <- Hn. now destruct (snd (process_video_body w agent p s)).
  - intros Hmissing Hdir. unfold staged in Hrep.
    rewrite (bool_decide_eq_false_2 _ Hmissing), Hdir in Hrep. report_of Hrep.
  - intros Hpresent.
    assert (Hex : bool_decide (p ∈ files s) || isdir w p = true).
    { destruct Hpresent as [Hfile| ->]; [|apply orb_true_r].
      now rewrite (bool_decide_eq_true_2 _ Hfile). }
    unfold staged in Hrep. rewrite Hex in Hrep. cbn [negb] in Hrep. split.
    { intros e He. rewrite He in Hrep. report_of Hrep. }
    intros info Hinfo. rewrite Hinfo in Hrep. split; [|split].
    { intros Hlarge. rewrite Hlarge in Hrep. report_of Hrep. }
    { intros Hlarge Hsup. rewrite Hlarge, Hsup in Hrep. report_of Hrep. }
    intros Hlarge Hsup. rewrite Hlarge, Hsup in Hrep. cbn [negb] in Hrep. split.
    { intros e He. rewrite He in Hrep. report_of Hrep. }
    intros audio Haudio. rewrite Haudio in Hrep. split.
    { intros e He. rewrite He in Hrep. report_of Hrep. }
    intros text Htext. rewrite Htext in Hrep. split.
    { intros e He. rewrite He in Hrep. report_of Hrep. }
    intros digest Hdigest. rewrite Hdigest in Hrep. cbv zeta in Hrep.
    destruct (open_text w _) as [e|] eqn:Hopen;
      [|destruct (write_text w _ _) as [e|] eqn:Hwrite].
    + destruct Hrep as (-> & -> & -> & _). fields. rewrite app_nil_r.
      repeat split. eexists. left. exact Hopen.
    + destruct Hrep as (-> & -> & -> & _). fields. rewrite app_nil_r.
      repeat split. eexists. right. eexists. exact Hwrite.
    + destruct Hrep as (-> & -> & -> & _). fields.
      repeat split. now eexists.
Qed.

(** A video of 2 GiB against the default limit of 1000 MB. *)
Example oversized_demo :
  let s := set_files (fun f => {["./videos/huge.mp4"]} ∪ f) demo_sys in
  let run := process_video demo_world OpenAIAgent "./videos/huge.mp4" s in
  fst run = Raises (ValueError "Video demasiado grande: 2048.00MB > 1000MB") /\
  stages (snd run) = [ExistenceCheck; Metadata; SizePolicy].
Proof. split; vm_compute; reflexivity. Qed.

(** A folder passes the existence check, which is [os.path.exists]; the
    run ends at the metadata, where the decoder cannot open it. *)
Example directory_demo :
  let run := process_video demo_world OpenAIAgent "./videos" demo_sys in
  fst run = Raises (ExternalError "could not be opened") /\
  stages (snd run) = [ExistenceCheck; Metadata].
Proof. split; vm_compute; reflexivity. Qed.

(** The allow-list is compared in lower case. *)
Example format_case_demo :
  supported demo_world (video_info_of "./videos/CLIP.MP4" (mk_Clip 30 24 (640, 480)%Z true) 1) = true /\
  supported demo_world (video_info_of "./videos/clip.flv" (mk_Clip 30 24 (640, 480)%Z true) 1) = false.
Proof. split; vm_compute; reflexivity. Qed.

(** ** C4: what a run registers and what the cleanup leaves *)
Lemma extract_audio_returns_path w p s out s' :
  extract_audio_from_video w p None s = (Returns out, s') ->
  out = default_audio_path w p /\ out ∈ files s'.
Proof.
  unfold extract_audio_from_video, open_clip, close_clip, bind, answer, check,
    modify, ret, raise.
  destruct (VideoFileClip w p) as [e|clip]; simpl; [discriminate|].
  destruct (clip_audio clip); simpl; [|discriminate].
  destruct (write_audiofile w p _); simpl; [discriminate|].
  intros [= <- <-]. split; [reflexivity|]. destruct s; simpl. set_solver.
Qed.

(** What the [try] block registers: nothing when it stops before the
    audio extraction has returned, and the audio file of the video, which
    then exists, from there on; a run that returns has registered it. *)
Lemma body_registers_audio w agent p s :
  let body := process_video_body w agent p s in
  (temp_files (snd body) = temp_files s \/
   temp_files (snd body) = temp_files s ++ [default_audio_path w p]) /\
  (forall res, fst body = Returns res ->
     temp_files (snd body) = temp_files s ++ [default_audio_path w p]).
Proof.
  cbv zeta. unfold process_video_body, enter, path_exists.
  rewrite bind_modify, bind_gets. cbv beta.
  destruct (bool_decide (p ∈ files _) || isdir w p); cbn [negb]; cbv iota.
  2: { split; [left; now destruct s|discriminate]. }
  rewrite bind_modify.
  run_op (get_video_info_footprint temp_files w p ltac:(other_field)).
  2: { split; [left; simpl; rewrite Hst; now destruct s|discriminate]. }
  rewrite bind_modify.
  destruct (too_large w _); cbv iota.
  { split; [left; simpl; rewrite Hst; now destruct s|discriminate]. }
  rewrite bind_modify.
  destruct (supported w _); cbn [negb]; cbv iota.
  2: { split; [left; simpl; rewrite Hst; now destruct s|discriminate]. }
  rewrite bind_modify.
  run_op (extract_audio_footprint temp_files w p None ltac:(other_field) ltac:(other_field)).
  2: { split; [left; simpl; rewrite Hst0; simpl; rewrite Hst; now destruct s|discriminate]. }
  apply extract_audio_returns_path in E0 as [-> _].
  rewrite !bind_modify.
  match goal with |- context [_transcribe_audio w agent ?a] =>
    run_op (transcribe_footprint temp_files w agent a) end.
  2: { split; [right; simpl; now rewrite Hst1, Hst0, Hst|discriminate]. }
  rewrite bind_modify.
  match goal with |- context [generate_summary w agent ?t ?i] =>
    run_op (generate_summary_footprint temp_files w agent t i ltac:(other_field)) end.
  2: { split; [right; simpl; now rewrite Hst2, Hst1, Hst0, Hst|discriminate]. }
  rewrite bind_datetime_now, bind_modify.
  match goal with |- context [_save_result w ?r p] =>
    run_op (save_result_footprint temp_files w r p
              ltac:(other_field) ltac:(other_field) ltac:(other_field)) end.
  all: simpl; rewrite Hst3, Hst2, Hst1, Hst0, Hst.
  all: split; [right; reflexivity|reflexivity || discriminate].
Qed.




(** In the world where removals succeed the same run leaves no file. *)
Example cleanup_demo :
  "/tmp/demo_audio.wav"
    ∉ files (snd (process_video demo_world OpenAIAgent "./videos/demo.mp4" demo_sys)).
Proof. apply (bool_decide_unpack _). vm_compute. exact I. Qed.

(** ** The background tasks and the registry *)

(** What a background task runs before it touches the registry: the
    constructor of the processor and the pipeline of one video. *)
Definition run_pipeline (w : World) (video_path : string) : ST Sys Result :=
  agent <- VideoProcessor_init w ;;
  process_video w agent video_path.

Lemma update_task_present task_id f s t :
  processing_tasks s !! task_id = Some t ->
  update_task task_id f s = (Returns tt, set_tasks (insert task_id (f t)) s).
Proof. intros H. unfold update_task. now rewrite H. Qed.

Lemma update_task_absent task_id f s :
  processing_tasks s !! task_id = None ->
  update_task task_id f s = (Raises (KeyError task_id), s).
Proof. intros H. unfold update_task. now rewrite H. Qed.

Lemma now_spec w s :
  now_ w s = (Returns (clock w (ticks (sys s))), set_sys (set_ticks S (sys s)) s).
Proof. reflexivity. Qed.

(** A notification never raises and leaves the registry alone. *)
Lemma notify_spec w cb task_id st rs es s :
  exists s',
    notify w cb task_id st rs es s = (Returns tt, s') /\
    processing_tasks s' = processing_tasks s /\
    scheduled s' = scheduled s.
Proof.
  unfold notify. destruct (truthy cb) as [url|].
  - unfold send_callback. rewrite (bind_returns _ _ _ _ _ (now_spec w s)).
    eexists. split; [reflexivity|]. split; reflexivity.
  - exists s. repeat split.
Qed.

(** The three updates of a registered task, in one step. *)
Lemma record_spec w task_id cb st (g : Task -> Task) rs es s t :
  processing_tasks s !! task_id = Some t ->
  exists s',
    (update_task task_id (set_status st) ;;;
     update_task task_id g ;;;
     now <- now_ w ;;
     update_task task_id (set_completed_at (Some (isoformat now))) ;;;
     notify w cb task_id (status_str st) rs es) s = (Returns tt, s') /\
    processing_tasks s'
      = <[task_id := set_completed_at (Some (isoformat (clock w (ticks (sys s)))))
                       (g (set_status st t))]> (processing_tasks s) /\
    scheduled s' = scheduled s.
Proof.
  intros Ht.
  rewrite (bind_returns _ _ _ _ _ (update_task_present task_id _ s t Ht)).
  set (s1 := set_tasks _ s).
  assert (H1 : processing_tasks s1 !! task_id = Some (set_status st t))
    by (subst s1; simpl; apply lookup_insert_eq).
  rewrite (bind_returns _ _ _ _ _ (update_task_present task_id _ s1 _ H1)).
  set (s2 := set_tasks _ s1).
  rewrite (bind_returns _ _ _ _ _ (now_spec w s2)).
  set (s3 := set_sys _ s2).
  assert (H3 : processing_tasks s3 !! task_id = Some (g (set_status st t)))
    by (subst s3 s2; simpl; apply lookup_insert_eq).
  rewrite (bind_returns _ _ _ _ _ (update_task_present task_id _ s3 _ H3)).
  set (s4 := set_tasks _ s3).
  destruct (notify_spec w cb task_id (status_str st) rs es s4) as (s' & Hn & Htasks & Hsched).
  exists s'. split; [exact Hn|]. rewrite Htasks, Hsched. split; [|reflexivity].
  subst s4 s3 s2 s1. simpl. now rewrite !insert_insert_eq.
Qed.

Lemma record_results_spec w task_id cb rs s t :
  processing_tasks s !! task_id = Some t ->
  exists s',
    record_results w task_id cb rs s = (Returns tt, s') /\
    processing_tasks s'
      = <[task_id := mk_Task completed rs (errors t) (started_at t)
                       (Some (isoformat (clock w (ticks (sys s)))))]>
          (processing_tasks s) /\
    scheduled s' = scheduled s.
Proof.
  intros Ht. exact (record_spec w task_id cb completed (set_results rs) rs [] s t Ht).
Qed.

Lemma record_error_spec w task_id cb e s t :
  processing_tasks s !! task_id = Some t ->
  exists s',
    record_error w task_id cb e s = (Returns tt, s') /\
    processing_tasks s'
      = <[task_id := mk_Task error (results t) [str_exn e] (started_at t)
                       (Some (isoformat (clock w (ticks (sys s)))))]>
          (processing_tasks s) /\
    scheduled s' = scheduled s.
Proof.
  intros Ht.
  exact (record_spec w task_id cb error (set_errors [str_exn e]) [] [str_exn e] s t Ht).
Qed.

(** A background task is its pipeline, run on the system part of the
    state, followed by the updates of the registry. *)
Lemma process_video_task_unfold w task_id p cb s :
  process_video_task w task_id p cb s
  = match run_pipeline w p (sys s) with
    | (Returns result, y) =>
        try_except (record_results w task_id cb [result])
                   (record_error w task_id cb) (set_sys y s)
    | (Raises e, y) => record_error w task_id cb e (set_sys y s)
    end.
Proof.
  unfold process_video_task, run_pipeline, try_except, bind, lift.
  destruct (VideoProcessor_init w (sys s)) as [[agent|e] y1]; simpl; [|reflexivity].
  destruct (process_video w agent p y1) as [[result|e] y2]; reflexivity.
Qed.

(** The state after [POST /process-video] for a path that does not exist. *)
Definition missing_submitted : State :=
  snd (process_video_endpoint demo_world (Some "./videos/missing.mp4") None demo_state).

(** ** The folder loop *)

(** The files of a listing that [process_folder] keeps. *)
Definition matching_files (folder_path : string) (supported_formats : list string)
    (existing : gset string) (names : list string) : list string :=
  List.filter (fun file_path => bool_decide (file_path ∈ existing))
    (map (Path.join folder_path)
       (List.filter
          (fun file => str_in (Path.drop_first (lower (Path.suffix file))) supported_formats)
          names)).

(** The outcome of [process_video] on each file in turn, and the state
    after the last one. *)
Fixpoint video_outcomes (w : World) (agent : Agent) (video_files : list string)
    (y : Sys) : list (Outcome Result) * Sys :=
  match video_files with
  | [] => ([], y)
  | p :: rest =>
      let '(r, y1) := process_video w agent p y in
      let '(rs, y2) := video_outcomes w agent rest y1 in
      (r :: rs, y2)
  end.

Fixpoint successes (outcomes : list (Outcome Result)) : list Result :=
  match outcomes with
  | [] => []
  | Returns r :: rest => r :: successes rest
  | Raises _ :: rest => successes rest
  end.

Fixpoint failures (outcomes : list (Outcome Result)) : list exn :=
  match outcomes with
  | [] => []
  | Returns _ :: rest => failures rest
  | Raises e :: rest => e :: failures rest
  end.

Lemma successes_failures_length outcomes :
  (length (successes outcomes) + length (failures outcomes) = length outcomes)%nat.
Proof. induction outcomes as [|[r|e] rest IH]; simpl; lia. Qed.

Lemma video_outcomes_length w agent video_files y :
  length (fst (video_outcomes w agent video_files y)) = length video_files.
Proof.
  revert y. induction video_files as [|p rest IH]; intros y; simpl; [reflexivity|].
  destruct (process_video w agent p y) as [r y1]. specialize (IH y1).
  destruct (video_outcomes w agent rest y1) as [rs y2]. simpl in *. now rewrite IH.
Qed.

Lemma collect_video_files_spec folder fmts names y :
  collect_video_files folder fmts names y
  = (Returns (matching_files folder fmts (files y) names), y).
Proof.
  unfold matching_files. induction names as [|file rest IH]; simpl; [reflexivity|].
  unfold path_isfile. rewrite bind_gets. cbv beta.
  rewrite (bind_returns _ _ _ _ _ IH).
  destruct (str_in _ fmts); simpl.
  - destruct (bool_decide _); reflexivity.
  - rewrite andb_false_r. reflexivity.
Qed.

(** The loop over the videos never raises: it returns the results of the
    videos that succeeded, in order. *)
Lemma process_each_spec w agent video_files :
  forall acc y,
    process_each w agent video_files acc y
    = (Returns (acc ++ successes (fst (video_outcomes w agent video_files y))),
       snd (video_outcomes w agent video_files y)).
Proof.
  induction video_files as [|p rest IH]; intros acc y; simpl.
  - now rewrite app_nil_r.
  - unfold bind at 1. unfold try_except, bind.
    destruct (process_video w agent p y) as [[r|e] y1]; simpl.
    + rewrite IH. destruct (video_outcomes w agent rest y1) as [rs y2]. simpl.
      now rewrite <- app_assoc.
    + rewrite IH. destruct (video_outcomes w agent rest y1) as [rs y2]. reflexivity.
Qed.

(** The folder [process_folder] works on. *)
Definition resolved_folder (w : World) (folder_path : option string) : string :=
  match folder_path with
  | Some p => if bool_decide (p = "") then VIDEO_INPUT_FOLDER (config w) else p
  | None => VIDEO_INPUT_FOLDER (config w)
  end.

Lemma process_folder_run w agent folder_path y :
  process_folder w agent folder_path y
  = match listdir w (resolved_folder w folder_path) with
    | inl e => (Raises e, y)
    | inr names =>
        let video_files :=
          matching_files (resolved_folder w folder_path)
            (map lower (SUPPORTED_FORMATS (config w))) (files y) names in
        (Returns (successes (fst (video_outcomes w agent video_files y))),
         snd (video_outcomes w agent video_files y))
    end.
Proof.
  unfold process_folder. fold (resolved_folder w folder_path).
  destruct (listdir w (resolved_folder w folder_path)) as [e|names]; [reflexivity|].
  unfold answer. unfold bind at 1. unfold ret at 1.
  rewrite (bind_returns _ _ _ _ _ (collect_video_files_spec _ _ _ _)).
  cbv zeta.
  destruct (matching_files _ _ _ _) as [|p rest] eqn:E; [reflexivity|].
  now rewrite process_each_spec.
Qed.

Lemma process_folder_task_unfold w task_id folder cb s :
  process_folder_task w task_id folder cb s
  = match VideoProcessor_init w (sys s) with
    | (Returns agent, y0) =>
        match process_folder w agent (Some folder) y0 with
        | (Returns rs, y) =>
            try_except (record_results w task_id cb rs)
                       (record_error w task_id cb) (set_sys y s)
        | (Raises e, y) => record_error w task_id cb e (set_sys y s)
        end
    | (Raises e, y0) => record_error w task_id cb e (set_sys y0 s)
    end.
Proof.
  unfold process_folder_task, try_except, bind, lift.
  destruct (VideoProcessor_init w (sys s)) as [[agent|e] y1]; simpl; [|reflexivity].
  destruct (process_folder w agent (Some folder) y1) as [[rs|e] y2]; reflexivity.
Qed.

(** The state after [POST /process-folder] for the input folder. *)
Definition folder_submitted : State :=
  snd (process_folder_endpoint demo_world None None demo_state).

(** The folder of the example holds N = 1 video that succeeds and M = 1
    that fails. *)
Example folder_demo_counts :
  let outcomes :=
    fst (video_outcomes demo_world OpenAIAgent
           ["./videos/demo.mp4"; "./videos/silent.mp4"] (sys folder_submitted)) in
  matching_files "./videos" (map lower (SUPPORTED_FORMATS (config demo_world)))
      (files (sys folder_submitted)) ["demo.mp4"; "silent.mp4"; "notes.txt"]
    = ["./videos/demo.mp4"; "./videos/silent.mp4"] /\
  length (successes outcomes) = 1%nat /\ length (failures outcomes) = 1%nat.
Proof. repeat split; vm_compute; reflexivity. Qed.

(** ** Printing clock readings *)

Lemma digit_inj (n m : N) : digit n = digit m -> (n mod 10 = m mod 10)%N.
Proof.
  unfold digit. intros H.
  assert (Hn : (n mod 10 < 10)%N) by (apply N.mod_lt; discriminate).
  assert (Hm : (m mod 10 < 10)%N) by (apply N.mod_lt; discriminate).
  apply (f_equal N_of_ascii) in H.
  rewrite !N_ascii_embedding in H by lia. lia.
Qed.

(** Zero-padded printing over a tail: numbers below [10 ^ w] that print
    alike are equal, and so are the tails. *)
Lemma pad_inj (w : nat) :
  forall (n m : N) (acc acc' : string),
    (n < 10 ^ N.of_nat w)%N -> (m < 10 ^ N.of_nat w)%N ->
    pad w n acc = pad w m acc' -> n = m /\ acc = acc'.
Proof.
  induction w as [|w IH]; intros n m acc acc' Hn Hm H.
  - simpl in *. split; [lia|exact H].
  - rewrite Nat2N.inj_succ, N.pow_succ_r' in Hn, Hm. simpl in H.
    apply IH in H; try (apply N.Div0.div_lt_upper_bound; lia).
    destruct H as [Hdiv Hacc]. injection Hacc as Hdigit ->. split; [|reflexivity].
    apply digit_inj in Hdigit.
    rewrite (N.div_mod n 10), (N.div_mod m 10) by discriminate. congruence.
Qed.

Lemma string_tail_eq c a c' b : String c a = String c' b -> a = b.
Proof. now intros [= _ ->]. Qed.

Ltac pad_step H :=
  apply pad_inj in H; [|simpl; lia|simpl; lia];
  let E := fresh "E" in destruct H as [E H].

Lemma datetime_eq d1 d2 :
  year d1 = year d2 -> month d1 = month d2 -> day d1 = day d2 ->
  hour d1 = hour d2 -> minute d1 = minute d2 -> second d1 = second d2 ->
  microsecond d1 = microsecond d2 -> d1 = d2.
Proof. destruct d1, d2; simpl; congruence. Qed.

(** The stamp of a task identifier determines the reading, down to the
    microsecond. *)
Lemma strftime_micro_inj d1 d2 :
  valid_datetime d1 -> valid_datetime d2 ->
  strftime_micro d1 = strftime_micro d2 -> d1 = d2.
Proof.
  unfold valid_datetime, strftime_micro. intros V1 V2 H.
  pad_step H. pad_step H. pad_step H. apply string_tail_eq in H.
  pad_step H. pad_step H. pad_step H. apply string_tail_eq in H.
  pad_step H. now apply datetime_eq.
Qed.

Lemma isoformat_inj d1 d2 :
  valid_datetime d1 -> valid_datetime d2 ->
  isoformat d1 = isoformat d2 -> d1 = d2.
Proof.
  unfold valid_datetime, isoformat. intros V1 V2 H.
  pad_step H. apply string_tail_eq in H. pad_step H. apply string_tail_eq in H. pad_step H.
  apply string_tail_eq in H. pad_step H. apply string_tail_eq in H. pad_step H. apply string_tail_eq in H.
  pad_step H.
  apply datetime_eq; auto.
  destruct (N.eqb_spec (microsecond d1) 0) as [Z1|N1],
           (N.eqb_spec (microsecond d2) 0) as [Z2|N2]; try discriminate.
  - congruence.
  - apply string_tail_eq in H. pad_step H. assumption.
Qed.

(** ** C8: task identifiers *)

(** The identifier a request is answered with, when it is accepted. *)
Definition accepted_id (w : World) (req : Request) (s : State) : option string :=
  match fst (handle w req s) with
  | Returns (Accepted r) => Some (resp_task_id r)
  | _ => None
  end.

(** The prefix of the identifiers a request gets. *)
Definition id_prefix (req : Request) : option string :=
  match req with
  | PostProcessVideo v _ => match truthy v with Some _ => Some "video_" | None => None end
  | PostProcessFolder _ _ => Some "folder_"
  | PostWebhook v f _ =>
      match truthy v, truthy f with
      | Some _, _ => Some "webhook_video_"
      | None, Some _ => Some "webhook_folder_"
      | None, None => None
      end
  | GetTask _ | GetTasks => None
  end.

(** A submission stores a fresh record under the identifier made of its
    prefix and the first reading of the clock, and schedules its job. *)
Lemma submit_spec w prefix job message s :
  let task_id := prefix +:+ strftime_micro (clock w (ticks (sys s))) in
  exists r s',
    submit w prefix job message s = (Returns (Accepted r), s') /\
    resp_task_id r = task_id /\
    processing_tasks s'
      = <[task_id := new_task (isoformat (clock w (S (ticks (sys s)))))]>
          (processing_tasks s) /\
    scheduled s' = scheduled s ++ [job task_id].
Proof.
  intros task_id. unfold submit.
  rewrite (bind_returns _ _ _ _ _ (now_spec w s)).
  rewrite (bind_returns _ _ _ _ _ (now_spec w _)).
  rewrite !bind_modify.
  rewrite (bind_returns _ _ _ _ _ (now_spec w _)).
  do 2 eexists. split; [reflexivity|]. split; [reflexivity|]. split; reflexivity.
Qed.

Lemma accepted_id_spec w req s task_id :
  accepted_id w req s = Some task_id ->
  exists prefix,
    id_prefix req = Some prefix /\
    task_id = prefix +:+ strftime_micro (clock w (ticks (sys s))).
Proof.
  unfold accepted_id.
  destruct req as [v c|f c|v f c|t|]; simpl.
  - unfold process_video_endpoint. destruct (truthy v); [|discriminate].
    intros [= <-]. now eexists.
  - intros [= <-]. now eexists.
  - unfold webhook_process. destruct (truthy v); [|destruct (truthy f)];
      try discriminate; intros [= <-]; now eexists.
  - unfold get_task_status, bind, gets. simpl.
    destruct (processing_tasks s !! t) as [task|]; [|discriminate].
    destruct (truthy (completed_at task)); discriminate.
  - discriminate.
Qed.

Lemma id_prefix_cases req prefix :
  id_prefix req = Some prefix ->
  prefix = "video_" \/ prefix = "folder_" \/
  prefix = "webhook_video_" \/ prefix = "webhook_folder_".
Proof.
  destruct req as [v c|f c|v f c|t|]; simpl; try discriminate.
  - destruct (truthy v); intros [= <-]; auto.
  - intros [= <-]; auto.
  - destruct (truthy v); [|destruct (truthy f)]; intros [= <-]; auto.
Qed.

Lemma append_inj_l (p a b : string) : p +:+ a = p +:+ b -> a = b.
Proof. induction p as [|c p IH]; simpl; [auto|]. intros [= H]. auto. Qed.

(** C8 (amended). Two accepted submissions that got the same identifier
    came through endpoints with the same prefix and read the same value
    from the clock; so two submissions whose readings differ, be it by one
    microsecond within the same millisecond, get distinct identifiers. *)
Theorem task_id_determines_reading (w : World) (req1 req2 : Request)
    (s1 s2 : State) (task_id : string) :
  valid_datetime (clock w (ticks (sys s1))) ->
  valid_datetime (clock w (ticks (sys s2))) ->
  accepted_id w req1 s1 = Some task_id ->
  accepted_id w req2 s2 = Some task_id ->
  id_prefix req1 = id_prefix req2 /\
  clock w (ticks (sys s1)) = clock w (ticks (sys s2)).
Proof.
  intros V1 V2 H1 H2.
  apply accepted_id_spec in H1 as (p1 & Hp1 & E1).
  apply accepted_id_spec in H2 as (p2 & Hp2 & E2).
  rewrite Hp1, Hp2. rewrite E1 in E2. clear E1.
  destruct (id_prefix_cases _ _ Hp1) as [-> | [-> | [-> | ->]]],
           (id_prefix_cases _ _ Hp2) as [-> | [-> | [-> | ->]]];
    try (cbn [String.append] in E2; discriminate).
  all: split; [reflexivity|].
  all: apply append_inj_l in E2; now apply strftime_micro_inj.
Qed.

(** Two submissions one microsecond apart, within the same millisecond. *)
Example one_microsecond_apart :
  accepted_id demo_world (PostProcessVideo (Some "./videos/demo.mp4") None) demo_state
    = Some "video_20250115_103000_000000" /\
  accepted_id demo_world (PostProcessVideo (Some "./videos/silent.mp4") None)
    (set_sys (set_ticks (fun _ => 1%nat) demo_sys) demo_state)
    = Some "video_20250115_103000_000001".
Proof. split; reflexivity. Qed.

(** A world whose clock does not advance between two submissions. *)
Definition stalled_world : World := demo_world_of stalled (fun _ => None).

(** C8 as stated fails: two submissions of different videos that read the
    same value from the clock get the same identifier, and the record of
    the second replaces the record of the first. *)
Lemma same_reading_same_task_id :
  let first := process_video_endpoint stalled_world (Some "./videos/demo.mp4") None demo_state in
  let second := process_video_endpoint stalled_world (Some "./videos/silent.mp4") None (snd first) in
  accepted_id stalled_world (PostProcessVideo (Some "./videos/demo.mp4") None) demo_state
    = Some "video_20250115_103000_000000" /\
  accepted_id stalled_world (PostProcessVideo (Some "./videos/silent.mp4") None) (snd first)
    = Some "video_20250115_103000_000000" /\
  base.size (processing_tasks (snd second)) = 1%nat /\
  length (scheduled (snd second)) = 2%nat.
Proof. repeat split; vm_compute; reflexivity. Qed.

(** C8 (amended) at two submissions of different videos that read the
    same value from a clock that does not advance. *)
Lemma task_id_determines_reading_witness :
  id_prefix (PostProcessVideo (Some "./videos/demo.mp4") None)
    = id_prefix (PostProcessVideo (Some "./videos/silent.mp4") None) /\
  clock stalled_world (ticks (sys demo_state))
    = clock stalled_world
        (ticks (sys (snd (process_video_endpoint stalled_world
                            (Some "./videos/demo.mp4") None demo_state)))).
Proof.
  apply (task_id_determines_reading stalled_world
           (PostProcessVideo (Some "./videos/demo.mp4") None)
           (PostProcessVideo (Some "./videos/silent.mp4") None)
           demo_state
           (snd (process_video_endpoint stalled_world
                   (Some "./videos/demo.mp4") None demo_state))
           "video_20250115_103000_000000").
  - unfold valid_datetime; simpl; lia.
  - unfold valid_datetime; simpl; lia.
  - reflexivity.
  - reflexivity.
Defined.

(** ** The records of reachable states *)

(** A record is in its initial state with no completion time, or in a
    terminal state with the completion time a clock reading printed. *)
Definition well_formed (t : Task) : Prop :=
  match status t with
  | processing => completed_at t = None
  | completed | error => exists d, completed_at t = Some (isoformat d)
  end.

Definition registry_ok (s : State) : Prop :=
  map_Forall (fun _ t => well_formed t) (processing_tasks s).

Lemma record_absent w task_id cb st (g : Task -> Task) rs es s :
  processing_tasks s !! task_id = None ->
  (update_task task_id (set_status st) ;;;
   update_task task_id g ;;;
   now <- now_ w ;;
   update_task task_id (set_completed_at (Some (isoformat now))) ;;;
   notify w cb task_id (status_str st) rs es) s = (Raises (KeyError task_id), s).
Proof.
  intros H. apply bind_raises. now apply update_task_absent.
Qed.

Lemma record_error_ok w task_id cb e s :
  registry_ok s -> registry_ok (snd (record_error w task_id cb e s)).
Proof.
  intros Hok. destruct (processing_tasks s !! task_id) as [t|] eqn:Ht.
  - destruct (record_error_spec w task_id cb e s t Ht) as (s' & Hrun & Htasks & _).
    rewrite Hrun. unfold registry_ok. simpl. rewrite Htasks.
    apply map_Forall_insert_2; [|exact Hok]. now eexists.
  - unfold record_error.
    now rewrite (record_absent w task_id cb error _ [] [str_exn e] s Ht).
Qed.

Lemma record_results_ok w task_id cb rs s :
  registry_ok s ->
  registry_ok (snd (try_except (record_results w task_id cb rs)
                               (record_error w task_id cb) s)).
Proof.
  intros Hok. unfold try_except.
  destruct (processing_tasks s !! task_id) as [t|] eqn:Ht.
  - destruct (record_results_spec w task_id cb rs s t Ht) as (s' & Hrun & Htasks & _).
    rewrite Hrun. unfold registry_ok. simpl. rewrite Htasks.
    apply map_Forall_insert_2; [|exact Hok]. now eexists.
  - unfold record_results.
    rewrite (record_absent w task_id cb completed _ rs [] s Ht).
    now apply record_error_ok.
Qed.

Lemma run_job_ok w j s : registry_ok s -> registry_ok (snd (run_job w j s)).
Proof.
  intros Hok. destruct j as [task_id p cb|task_id folder cb]; simpl.
  - rewrite process_video_task_unfold.
    destruct (run_pipeline w p (sys s)) as [[result|e] y].
    + now apply record_results_ok.
    + now apply record_error_ok.
  - rewrite process_folder_task_unfold.
    destruct (VideoProcessor_init w (sys s)) as [[agent|e] y0].
    + destruct (process_folder w agent (Some folder) y0) as [[rs|e] y].
      * now apply record_results_ok.
      * now apply record_error_ok.
    + now apply record_error_ok.
Qed.

Lemma submit_ok w prefix job message s :
  registry_ok s -> registry_ok (snd (submit w prefix job message s)).
Proof.
  intros Hok. destruct (submit_spec w prefix job message s) as (r & s' & Hrun & _ & Htasks & _).
  rewrite Hrun. unfold registry_ok. simpl. rewrite Htasks.
  apply map_Forall_insert_2; [reflexivity|exact Hok].
Qed.

(** A poll leaves the registry and the scheduled jobs as they are. *)
Lemma get_task_status_frame w task_id s :
  processing_tasks (snd (get_task_status w task_id s)) = processing_tasks s /\
  scheduled (snd (get_task_status w task_id s)) = scheduled s.
Proof.
  unfold get_task_status. rewrite bind_gets.
  destruct (processing_tasks s !! task_id) as [t|]; [|split; reflexivity].
  destruct (truthy (completed_at t)); split; reflexivity.
Qed.

Lemma handle_ok w req s : registry_ok s -> registry_ok (snd (handle w req s)).
Proof.
  intros Hok. destruct req as [v c|f c|v f c|t|]; unfold handle.
  - unfold process_video_endpoint. destruct (truthy v); [|exact Hok].
    apply submit_ok; exact Hok.
  - unfold process_folder_endpoint. apply submit_ok; exact Hok.
  - unfold webhook_process. destruct (truthy v); [|destruct (truthy f)];
      try exact Hok; apply submit_ok; exact Hok.
  - unfold registry_ok. now rewrite (proj1 (get_task_status_frame w t s)).
  - exact Hok.
Qed.

(** Every record of a reachable state is well formed. *)
Lemma reachable_ok w s : reachable w s -> registry_ok s.
Proof.
  induction 1 as [s [Hempty _]|s s' _ IH Hstep].
  - unfold registry_ok. rewrite Hempty. apply map_Forall_empty.
  - destruct Hstep as [req s|j before after s Hsched].
    + now apply handle_ok.
    + apply run_job_ok. exact IH.
Qed.

(** ** Polls, and the steps that leave a record as it is *)

(** The response built from a stored record and a completion time. *)
Definition stored_status (task_id : string) (t : Task) (stamp : string)
  : ProcessingResult :=
  {| pr_task_id := task_id;
     pr_status := status_str (status t);
     pr_results := results t;
     pr_errors := errors t;
     pr_completed_at := stamp |}.

(** [n] successive calls of [GET /task/{task_id}]: the responses and the
    state after the last one. *)
Fixpoint poll (w : World) (task_id : string) (n : nat) (s : State)
  : list (Outcome Response) * State :=
  match n with
  | O => ([], s)
  | S n' =>
      let '(r, s1) := get_task_status w task_id s in
      let '(rs, s2) := poll w task_id n' s1 in
      (r :: rs, s2)
  end.

Definition job_id (j : Job) : string :=
  match j with
  | VideoJob task_id _ _ | FolderJob task_id _ _ => task_id
  end.

Lemma get_task_status_terminal w s task_id t d :
  processing_tasks s !! task_id = Some t ->
  completed_at t = Some (isoformat d) ->
  get_task_status w task_id s
  = (Returns (TaskStatus (stored_status task_id t (isoformat d))), s).
Proof.
  intros Ht Hc. unfold get_task_status. rewrite bind_gets, Ht, Hc.
  reflexivity.
Qed.

(** A request that is not answered with this identifier leaves its record
    as it is. *)
Lemma handle_frame w req s task_id :
  accepted_id w req s <> Some task_id ->
  processing_tasks (snd (handle w req s)) !! task_id = processing_tasks s !! task_id.
Proof.
  assert (Hsub : forall prefix job message,
    match fst (submit w prefix job message s) with
    | Returns (Accepted r) => Some (resp_task_id r)
    | _ => None
    end <> Some task_id ->
    processing_tasks (snd (submit w prefix job message s)) !! task_id
    = processing_tasks s !! task_id).
  { intros prefix job message Hne.
    destruct (submit_spec w prefix job message s) as (r & s' & Hrun & Hid & Htasks & _).
    rewrite Hrun in *. simpl in *. rewrite Htasks.
    apply lookup_insert_ne. congruence. }
  unfold accepted_id. destruct req as [v c|f c|v f c|t|]; unfold handle.
  - unfold process_video_endpoint. destruct (truthy v); [apply Hsub|reflexivity].
  - unfold process_folder_endpoint. apply Hsub.
  - unfold webhook_process. destruct (truthy v); [|destruct (truthy f)];
      try apply Hsub; reflexivity.
  - intros _. now rewrite (proj1 (get_task_status_frame w t s)).
  - reflexivity.
Qed.

Lemma record_frame w task_id cb st (g : Task -> Task) rs es s other :
  task_id <> other ->
  processing_tasks (snd
    ((update_task task_id (set_status st) ;;;
      update_task task_id g ;;;
      now <- now_ w ;;
      update_task task_id (set_completed_at (Some (isoformat now))) ;;;
      notify w cb task_id (status_str st) rs es) s)) !! other
  = processing_tasks s !! other.
Proof.
  intros Hne. destruct (processing_tasks s !! task_id) as [t|] eqn:Ht.
  - destruct (record_spec w task_id cb st g rs es s t Ht) as (s' & Hrun & Htasks & _).
    rewrite Hrun. simpl. rewrite Htasks. now apply lookup_insert_ne.
  - now rewrite (record_absent w task_id cb st g rs es s Ht).
Qed.

Lemma finish_frame w task_id cb rs s other :
  task_id <> other ->
  processing_tasks (snd (try_except (record_results w task_id cb rs)
                                    (record_error w task_id cb) s)) !! other
  = processing_tasks s !! other.
Proof.
  intros Hne. unfold try_except.
  assert (Hr : processing_tasks (snd (record_results w task_id cb rs s)) !! other
               = processing_tasks s !! other)
    by exact (record_frame w task_id cb completed (set_results rs) rs [] s other Hne).
  destruct (record_results w task_id cb rs s) as [[[]|e] s1]; simpl in *; [exact Hr|].
  rewrite <- Hr.
  exact (record_frame w task_id cb error (set_errors [str_exn e]) [] [str_exn e] s1 other Hne).
Qed.

(** A background task touches no record but its own. *)
Lemma run_job_frame w j s task_id :
  job_id j <> task_id ->
  processing_tasks (snd (run_job w j s)) !! task_id = processing_tasks s !! task_id.
Proof.
  intros Hne.
  assert (Herr : forall cb e y,
    processing_tasks (snd (record_error w (job_id j) cb e (set_sys y s))) !! task_id
    = processing_tasks s !! task_id).
  { intros cb e y.
    exact (record_frame w (job_id j) cb error (set_errors [str_exn e]) []
             [str_exn e] (set_sys y s) task_id Hne). }
  assert (Hres : forall cb rs y,
    processing_tasks (snd (try_except (record_results w (job_id j) cb rs)
                             (record_error w (job_id j) cb) (set_sys y s))) !! task_id
    = processing_tasks s !! task_id).
  { intros cb rs y. exact (finish_frame w (job_id j) cb rs (set_sys y s) task_id Hne). }
  destruct j as [id p cb|id folder cb]; unfold run_job; simpl job_id in *.
  - rewrite process_video_task_unfold.
    destruct (run_pipeline w p (sys s)) as [[result|e] y]; auto.
  - rewrite process_folder_task_unfold.
    destruct (VideoProcessor_init w (sys s)) as [[agent|e] y0]; auto.
    destruct (process_folder w agent (Some folder) y0) as [[rs|e] y]; auto.
Qed.

(** A step of the service taken by something other than the task
    [task_id]: a request that is not answered with that identifier, or a
    background task of another identifier. *)
Inductive bystander (w : World) (task_id : string) : State -> State -> Prop :=
  | bystander_request (req : Request) (s : State) :
      accepted_id w req s <> Some task_id ->
      bystander w task_id s (snd (handle w req s))
  | bystander_job (j : Job) (before after : list Job) (s : State) :
      scheduled s = before ++ j :: after ->
      job_id j <> task_id ->
      bystander w task_id s
        (snd (run_job w j (set_scheduled (fun _ => before ++ after) s))).

Lemma bystander_keeps w task_id s s' :
  bystander w task_id s s' ->
  processing_tasks s' !! task_id = processing_tasks s !! task_id.
Proof.
  intros [req s0 Hreq|j before after s0 _ Hj].
  - now apply handle_frame.
  - now rewrite (run_job_frame w j _ task_id Hj).
Qed.

Lemma bystanders_keep w task_id s s' :
  rtc (bystander w task_id) s s' ->
  processing_tasks s' !! task_id = processing_tasks s !! task_id.
Proof.
  induction 1 as [s|s s1 s' Hstep _ IH]; [reflexivity|].
  rewrite IH. eapply bystander_keeps; eassumption.
Qed.

(** The state after the background task of that submission has failed. *)
Definition missing_failed : State :=
  snd (run_job demo_world
         (VideoJob "video_20250115_103000_000000" "./videos/missing.mp4" None)
         (set_scheduled (fun _ => []) missing_submitted)).

Lemma missing_failed_reachable : reachable demo_world missing_failed.
Proof.
  eapply reachable_step.
  - eapply reachable_step.
    + apply (reachable_initial demo_world demo_state). split; reflexivity.
    + apply (step_request demo_world
               (PostProcessVideo (Some "./videos/missing.mp4") None) demo_state).
  - apply (step_job demo_world
             (VideoJob "video_20250115_103000_000000" "./videos/missing.mp4" None)
             [] [] missing_submitted).
    reflexivity.
Qed.

(** Three polls of that task. *)
Example three_polls :
  fst (poll demo_world "video_20250115_103000_000000" 3 missing_failed)
  = replicate 3
      (Returns (TaskStatus
         {| pr_task_id := "video_20250115_103000_000000";
            pr_status := "error";
            pr_results := [];
            pr_errors := ["Video no encontrado: ./videos/missing.mp4"];
            pr_completed_at := "2025-01-15T10:30:00.000003" |})).
Proof. vm_compute. reflexivity. Qed.

(** *** Executions without identifier collisions

    When every submission is given an identifier that is not yet in the
    registry, each scheduled background task is the only one of its
    identifier and its record is still [processing]; so every step of the
    service is a bystander to a task that is already terminal. *)

(** The request is not answered with an identifier already in use. *)
Definition fresh (w : World) (req : Request) (s : State) : Prop :=
  forall task_id, accepted_id w req s = Some task_id ->
                  processing_tasks s !! task_id = None.

Inductive quiet_step (w : World) : State -> State -> Prop :=
  | quiet_request (req : Request) (s : State) :
      fresh w req s -> quiet_step w s (snd (handle w req s))
  | quiet_job (j : Job) (before after : list Job) (s : State) :
      scheduled s = before ++ j :: after ->
      quiet_step w s (snd (run_job w j (set_scheduled (fun _ => before ++ after) s))).

Definition pending (s : State) : Prop :=
  NoDup (job_id <$> scheduled s) /\
  forall j, j ∈ scheduled s ->
    exists t, processing_tasks s !! job_id j = Some t /\ status t = processing.

Lemma submit_scheduled w prefix job message s :
  (forall task_id, job_id (job task_id) = task_id) ->
  exists r j started,
    fst (submit w prefix job message s) = Returns (Accepted r) /\
    job_id j = resp_task_id r /\
    processing_tasks (snd (submit w prefix job message s))
      = <[resp_task_id r := new_task started]> (processing_tasks s) /\
    scheduled (snd (submit w prefix job message s)) = scheduled s ++ [j].
Proof.
  intros Hjob.
  destruct (submit_spec w prefix job message s) as (r & s' & Hrun & Hid & Htasks & Hsched).
  rewrite Hrun. simpl. exists r. eexists. eexists.
  split; [reflexivity|]. rewrite Hid. split; [apply Hjob|]. split; [exact Htasks|exact Hsched].
Qed.

(** A request either is accepted, and then stores a fresh record and
    schedules the job of its identifier, or changes neither the registry
    nor the schedule. *)
Lemma handle_cases w req s :
  (exists task_id j started,
     accepted_id w req s = Some task_id /\ job_id j = task_id /\
     processing_tasks (snd (handle w req s))
       = <[task_id := new_task started]> (processing_tasks s) /\
     scheduled (snd (handle w req s)) = scheduled s ++ [j]) \/
  (accepted_id w req s = None /\
   processing_tasks (snd (handle w req s)) = processing_tasks s /\
   scheduled (snd (handle w req s)) = scheduled s).
Proof.
  assert (Hsub : forall prefix job message,
    (forall task_id, job_id (job task_id) = task_id) ->
    exists task_id j started,
      match fst (submit w prefix job message s) with
      | Returns (Accepted r) => Some (resp_task_id r)
      | _ => None
      end = Some task_id /\ job_id j = task_id /\
      processing_tasks (snd (submit w prefix job message s))
        = <[task_id := new_task started]> (processing_tasks s) /\
      scheduled (snd (submit w prefix job message s)) = scheduled s ++ [j]).
  { intros prefix job message Hjob.
    destruct (submit_scheduled w prefix job message s Hjob)
      as (r & j & started & Hrun & Hj & Htasks & Hsched).
    exists (resp_task_id r), j, started. now rewrite Hrun. }
  unfold accepted_id. destruct req as [v c|f c|v f c|t|]; unfold handle.
  - unfold process_video_endpoint. destruct (truthy v).
    + left. now apply Hsub.
    + right. repeat split.
  - left. unfold process_folder_endpoint. now apply Hsub.
  - unfold webhook_process. destruct (truthy v); [|destruct (truthy f)].
    + left. now apply Hsub.
    + left. now apply Hsub.
    + right. repeat split.
  - right. destruct (get_task_status_frame w t s) as [-> ->].
    split; [|split; reflexivity].
    unfold get_task_status. rewrite bind_gets.
    destruct (processing_tasks s !! t) as [task|]; [|reflexivity].
    destruct (truthy (completed_at task)); reflexivity.
  - right. repeat split.
Qed.

Lemma record_scheduled w task_id cb st (g : Task -> Task) rs es s :
  scheduled (snd
    ((update_task task_id (set_status st) ;;;
      update_task task_id g ;;;
      now <- now_ w ;;
      update_task task_id (set_completed_at (Some (isoformat now))) ;;;
      notify w cb task_id (status_str st) rs es) s))
  = scheduled s.
Proof.
  destruct (processing_tasks s !! task_id) as [t|] eqn:Ht.
  - destruct (record_spec w task_id cb st g rs es s t Ht) as (s' & Hrun & _ & Hsched).
    now rewrite Hrun.
  - now rewrite (record_absent w task_id cb st g rs es s Ht).
Qed.

Lemma finish_scheduled w task_id cb rs s :
  scheduled (snd (try_except (record_results w task_id cb rs)
                             (record_error w task_id cb) s))
  = scheduled s.
Proof.
  unfold try_except.
  assert (Hr : scheduled (snd (record_results w task_id cb rs s)) = scheduled s)
    by exact (record_scheduled w task_id cb completed (set_results rs) rs [] s).
  destruct (record_results w task_id cb rs s) as [[[]|e] s1]; simpl in *; [exact Hr|].
  rewrite <- Hr.
  exact (record_scheduled w task_id cb error (set_errors [str_exn e]) [] [str_exn e] s1).
Qed.

(** A background task schedules nothing. *)
Lemma run_job_scheduled w j s : scheduled (snd (run_job w j s)) = scheduled s.
Proof.
  assert (Herr : forall task_id cb e y,
    scheduled (snd (record_error w task_id cb e (set_sys y s))) = scheduled s).
  { intros task_id cb e y.
    exact (record_scheduled w task_id cb error (set_errors [str_exn e]) []
             [str_exn e] (set_sys y s)). }
  assert (Hres : forall task_id cb rs y,
    scheduled (snd (try_except (record_results w task_id cb rs)
                      (record_error w task_id cb) (set_sys y s))) = scheduled s).
  { intros task_id cb rs y. exact (finish_scheduled w task_id cb rs (set_sys y s)). }
  destruct j as [id p cb|id folder cb]; unfold run_job.
  - rewrite process_video_task_unfold.
    destruct (run_pipeline w p (sys s)) as [[result|e] y]; auto.
  - rewrite process_folder_task_unfold.
    destruct (VideoProcessor_init w (sys s)) as [[agent|e] y0]; auto.
    destruct (process_folder w agent (Some folder) y0) as [[rs|e] y]; auto.
Qed.

Lemma quiet_step_pending w s s' : pending s -> quiet_step w s s' -> pending s'.
Proof.
  intros Hp Hstep. destruct Hstep as [req s0 Hfresh|j before after s0 Hsched];
    destruct Hp as [Hnodup Hpend].
  - destruct (handle_cases w req s0)
      as [(task_id & j & started & Hacc & Hj & Htasks & Hsched)|(_ & Htasks & Hsched)].
    + specialize (Hfresh task_id Hacc). unfold pending. rewrite Htasks, Hsched. split.
      * rewrite fmap_app. apply NoDup_app. split; [exact Hnodup|]. split.
        -- intros x Hx Hx'. apply list_elem_of_singleton in Hx'. subst x.
           apply list_elem_of_fmap_1 in Hx as (j' & Hj' & Hin').
           destruct (Hpend j' Hin') as (t & Ht & _). congruence.
        -- apply NoDup_singleton.
      * intros j' Hin. apply elem_of_app in Hin as [Hin|Hin].
        -- destruct (Hpend j' Hin) as (t & Ht & Hst). exists t. split; [|exact Hst].
           rewrite lookup_insert_ne; [exact Ht|]. congruence.
        -- apply list_elem_of_singleton in Hin. subst j'.
           exists (new_task started). rewrite Hj.
           split; [apply lookup_insert_eq|reflexivity].
    + unfold pending. rewrite Htasks, Hsched. split; assumption.
  - unfold pending. rewrite run_job_scheduled. simpl scheduled.
    rewrite Hsched, fmap_app, fmap_cons in Hnodup.
    apply NoDup_app in Hnodup as (Hb & Hdisj & Ha).
    apply NoDup_cons in Ha as (Hj & Ha). split.
    + rewrite fmap_app. apply NoDup_app. split; [exact Hb|]. split; [|exact Ha].
      intros x Hx Hx'. apply (Hdisj x Hx). now right.
    + intros j' Hin.
      assert (Hin' : j' ∈ scheduled s0).
      { rewrite Hsched. apply elem_of_app in Hin as [Hin|Hin]; apply elem_of_app.
        - now left.
        - right. now right. }
      destruct (Hpend j' Hin') as (t & Ht & Hst). exists t. split; [|exact Hst].
      rewrite run_job_frame; [exact Ht|].
      intros E. apply elem_of_app in Hin as [Hin|Hin].
      * apply (Hdisj (job_id j')); [now apply list_elem_of_fmap_2|].
        rewrite <- E. now left.
      * apply Hj. rewrite E. now apply list_elem_of_fmap_2.
Qed.

(** Without collisions, every step is a bystander to a terminal task. *)
Lemma quiet_step_bystander w s s' task_id t :
  pending s -> quiet_step w s s' ->
  processing_tasks s !! task_id = Some t -> terminal (status t) ->
  bystander w task_id s s'.
Proof.
  intros Hp Hstep Ht Hterm.
  destruct Hstep as [req s0 Hfresh|j before after s0 Hsched]; destruct Hp as [_ Hpend].
  - apply bystander_request. intros Hacc. specialize (Hfresh _ Hacc). congruence.
  - apply bystander_job; [exact Hsched|]. intros E.
    assert (Hin : j ∈ scheduled s0)
      by (rewrite Hsched; apply elem_of_app; right; now left).
    destruct (Hpend j Hin) as (t' & Ht' & Hst). rewrite E, Ht in Ht'.
    injection Ht' as <-. destruct Hterm as [H|H]; congruence.
Qed.

(** In an execution without identifier collisions, everything that
    happens after a task became terminal is a bystander to it: its record
    is final. *)
Lemma terminal_record_is_final w s s' task_id t :
  pending s -> rtc (quiet_step w) s s' ->
  processing_tasks s !! task_id = Some t -> terminal (status t) ->
  rtc (bystander w task_id) s s'.
Proof.
  intros Hpend Hrun. revert Hpend.
  induction Hrun as [s|s s1 s' Hstep _ IH]; intros Hpend Ht Hterm; [constructor|].
  pose proof (quiet_step_bystander w s s1 task_id t Hpend Hstep Ht Hterm) as Hby.
  eapply rtc_l; [exact Hby|]. apply IH.
  - exact (quiet_step_pending w s s1 Hpend Hstep).
  - now rewrite (bystander_keeps w task_id s s1 Hby).
  - exact Hterm.
Qed.

Lemma initial_pending s : initial s -> pending s.
Proof.
  intros [_ Hsched]. unfold pending. rewrite Hsched. split; [constructor|].
  intros j Hj. inversion Hj.
Qed.

Lemma quiet_steps_pending w s s' : pending s -> rtc (quiet_step w) s s' -> pending s'.
Proof.
  intros Hpend Hrun. induction Hrun as [s|s s1 s' Hstep _ IH]; [exact Hpend|].
  apply IH. exact (quiet_step_pending w s s1 Hpend Hstep).
Qed.

(** From the start of the service on, as long as no submission is given
    an identifier already in use, the record of a terminal task is never
    written again. *)
Lemma collision_free_record_is_final w s0 s s' task_id t :
  initial s0 -> rtc (quiet_step w) s0 s -> rtc (quiet_step w) s s' ->
  processing_tasks s !! task_id = Some t -> terminal (status t) ->
  processing_tasks s' !! task_id = Some t.
Proof.
  intros Hinit Hpast Hfuture Ht Hterm.
  pose proof (quiet_steps_pending w s0 s (initial_pending s0 Hinit) Hpast) as Hpend.
  rewrite (bystanders_keep w task_id s s'); [exact Ht|].
  exact (terminal_record_is_final w s s' task_id t Hpend Hfuture Ht Hterm).
Qed.

(** ** main.py: a submission and the first poll *)

(** The state a submission leaves: the fresh record under the identifier
    made of the first reading of the clock, started at the second; the
    job scheduled last; three readings taken. *)
Definition submitted (w : World) (prefix : string) (job : string -> Job) (s : State)
  : State :=
  let task_id := prefix +:+ strftime_micro (clock w (ticks (sys s))) in
  {| processing_tasks :=
       <[task_id := new_task (isoformat (clock w (S (ticks (sys s)))))]>
         (processing_tasks s);
     scheduled := scheduled s ++ [job task_id];
     callbacks := callbacks s;
     sys := set_ticks (fun n => S (S (S n))) (sys s) |}.

Lemma submit_run w prefix job message s :
  submit w prefix job message s
  = (Returns (Accepted
       {| resp_task_id := prefix +:+ strftime_micro (clock w (ticks (sys s)));
          resp_status := "processing";
          resp_message := message;
          resp_timestamp := isoformat (clock w (S (S (ticks (sys s))))) |}),
     submitted w prefix job s).
Proof. destruct s as [tasks sched cbs []]. reflexivity. Qed.

(** An accepted request is a submission. *)
Lemma handle_accepted w req s task_id :
  accepted_id w req s = Some task_id ->
  exists prefix job message,
    (forall i, job_id (job i) = i) /\
    task_id = prefix +:+ strftime_micro (clock w (ticks (sys s))) /\
    handle w req s = submit w prefix job message s.
Proof.
  assert (Hsub : forall prefix job message,
    (forall i, job_id (job i) = i) ->
    match fst (submit w prefix job message s) with
    | Returns (Accepted r) => Some (resp_task_id r)
    | _ => None
    end = Some task_id ->
    exists prefix' job' message',
      (forall i, job_id (job' i) = i) /\
      task_id = prefix' +:+ strftime_micro (clock w (ticks (sys s))) /\
      submit w prefix job message s = submit w prefix' job' message' s).
  { intros prefix job message Hjob. rewrite submit_run. intros [= <-].
    exists prefix, job, message. rewrite submit_run. auto. }
  unfold accepted_id.
  destruct req as [v c|f c|v f c|t|]; unfold handle.
  - unfold process_video_endpoint. destruct (truthy v) as [path|]; [|discriminate].
    now apply Hsub.
  - unfold process_folder_endpoint. now apply Hsub.
  - unfold webhook_process. destruct (truthy v) as [path|]; [|destruct (truthy f) as [path|]];
      try discriminate; now apply Hsub.
  - unfold get_task_status. rewrite bind_gets.
    destruct (processing_tasks s !! t) as [task|]; [|discriminate].
    destruct (truthy (completed_at task)); discriminate.
  - discriminate.
Qed.

(** X4. A submission followed by a poll: when a request is accepted with
    an identifier, the response says [processing]; the record stored under
    the identifier is the fresh one, whatever was stored there before; and
    a poll of the identifier right after answers [processing] with no
    result, no error, and the next reading of the clock (the fourth since
    the request came in) as its completion time. *)
Theorem submission_then_poll (w : World) (req : Request) (s : State)
    (task_id : string) :
  accepted_id w req s = Some task_id ->
  let s1 := snd (handle w req s) in
  let n := ticks (sys s) in
  (exists r, fst (handle w req s) = Returns (Accepted r) /\
             resp_status r = "processing" /\
             resp_timestamp r = isoformat (clock w (S (S n)))) /\
  processing_tasks s1 !! task_id = Some (new_task (isoformat (clock w (S n)))) /\
  get_task_status w task_id s1
  = (Returns (TaskStatus {| pr_task_id := task_id;
                            pr_status := "processing";
                            pr_results := [];
                            pr_errors := [];
                            pr_completed_at := isoformat (clock w (S (S (S n)))) |}),
     set_sys (set_ticks S (sys s1)) s1).
Proof.
  intros Hacc s1 n.
  destruct (handle_accepted w req s task_id Hacc) as (prefix & job & message & _ & Hid & Hrun).
  subst s1. rewrite Hrun, submit_run. cbn [fst snd]. rewrite <- Hid.
  assert (Hrec : processing_tasks (submitted w prefix job s) !! task_id
                 = Some (new_task (isoformat (clock w (S n))))).
  { unfold submitted. cbn [processing_tasks]. rewrite <- Hid. apply lookup_insert_eq. }
  split; [eexists; split; [reflexivity|split; reflexivity]|]. split; [exact Hrec|].
  unfold get_task_status. rewrite bind_gets, Hrec. cbn [completed_at new_task truthy].
  unfold bind at 1 2. rewrite now_spec. unfold ret. cbn [status results errors new_task].
  reflexivity.
Qed.

(** X4 at the submission of a video. *)
Lemma submission_then_poll_witness :
  let req := PostProcessVideo (Some "./videos/demo.mp4") None in
  let task_id := "video_20250115_103000_000000" in
  let s1 := snd (handle demo_world req demo_state) in
  let n := ticks (sys demo_state) in
  (exists r, fst (handle demo_world req demo_state) = Returns (Accepted r) /\
             resp_status r = "processing" /\
             resp_timestamp r = isoformat (clock demo_world (S (S n)))) /\
  processing_tasks s1 !! task_id = Some (new_task (isoformat (clock demo_world (S n)))) /\
  get_task_status demo_world task_id s1
  = (Returns (TaskStatus {| pr_task_id := task_id;
                            pr_status := "processing";
                            pr_results := [];
                            pr_errors := [];
                            pr_completed_at := isoformat (clock demo_world (S (S (S n)))) |}),
     set_sys (set_ticks S (sys s1)) s1).
Proof.
  apply (submission_then_poll demo_world
           (PostProcessVideo (Some "./videos/demo.mp4") None) demo_state
           "video_20250115_103000_000000").
  reflexivity.
Defined.

(** ** main.py: how a background task ends *)

Definition job_callback (j : Job) : option string :=
  match j with
  | VideoJob _ _ callback_url | FolderJob _ _ callback_url => callback_url
  end.

(** What the [try] block of a background task computes before it touches
    the registry: the list of results to store, or an error. *)
Definition job_outcome (w : World) (j : Job) : ST Sys (list Result) :=
  match j with
  | VideoJob _ video_path _ =>
      result <- run_pipeline w video_path ;;
      ret [result]
  | FolderJob _ folder_path _ =>
      processor <- VideoProcessor_init w ;;
      process_folder w processor (Some folder_path)
  end.

(** The record a background task leaves in place of [t]. *)
Definition finished (t : Task) (o : Outcome (list Result)) (stamp : string) : Task :=
  match o with
  | Returns rs => mk_Task completed rs (errors t) (started_at t) (Some stamp)
  | Raises e => mk_Task error (results t) [str_exn e] (started_at t) (Some stamp)
  end.

(** The payloads it sends. *)
Definition notification (callback_url : option string) (task_id : string)
    (o : Outcome (list Result)) (stamp : string) : list Callback :=
  match truthy callback_url, o with
  | None, _ => []
  | Some url, Returns rs => [mk_Callback url task_id "completed" rs [] stamp]
  | Some url, Raises e => [mk_Callback url task_id "error" [] [str_exn e] stamp]
  end.

(** The updates of a registered task and the notification, in one step. *)
Lemma record_run w task_id cb st (g : Task -> Task) rs es s t :
  processing_tasks s !! task_id = Some t ->
  exists s',
    (update_task task_id (set_status st) ;;;
     update_task task_id g ;;;
     now <- now_ w ;;
     update_task task_id (set_completed_at (Some (isoformat now))) ;;;
     notify w cb task_id (status_str st) rs es) s = (Returns tt, s') /\
    processing_tasks s'
      = <[task_id := set_completed_at (Some (isoformat (clock w (ticks (sys s)))))
                       (g (set_status st t))]> (processing_tasks s) /\
    scheduled s' = scheduled s /\
    callbacks s'
      = callbacks s ++
        match truthy cb with
        | Some url => [mk_Callback url task_id (status_str st) rs es
                         (isoformat (clock w (S (ticks (sys s)))))]
        | None => []
        end.
Proof.
  intros Ht.
  rewrite (bind_returns _ _ _ _ _ (update_task_present task_id _ s t Ht)).
  set (s1 := set_tasks _ s).
  assert (H1 : processing_tasks s1 !! task_id = Some (set_status st t))
    by (subst s1; simpl; apply lookup_insert_eq).
  rewrite (bind_returns _ _ _ _ _ (update_task_present task_id _ s1 _ H1)).
  set (s2 := set_tasks _ s1).
  rewrite (bind_returns _ _ _ _ _ (now_spec w s2)).
  set (s3 := set_sys _ s2).
  assert (H3 : processing_tasks s3 !! task_id = Some (g (set_status st t)))
    by (subst s3 s2; simpl; apply lookup_insert_eq).
  rewrite (bind_returns _ _ _ _ _ (update_task_present task_id _ s3 _ H3)).
  set (s4 := set_tasks _ s3).
  assert (Htasks : processing_tasks s4
            = <[task_id := set_completed_at (Some (isoformat (clock w (ticks (sys s)))))
                             (g (set_status st t))]> (processing_tasks s))
    by (subst s4 s3 s2 s1; simpl; now rewrite !insert_insert_eq).
  unfold notify. destruct (truthy cb) as [url|].
  - unfold send_callback. rewrite (bind_returns _ _ _ _ _ (now_spec w s4)).
    eexists. split; [reflexivity|]. split; [exact Htasks|]. split; [reflexivity|].
    subst s4 s3 s2 s1. destruct s as [tasks sched cbs []]. reflexivity.
  - exists s4. split; [reflexivity|]. split; [exact Htasks|]. split; [reflexivity|].
    subst s4 s3 s2 s1. simpl. now rewrite app_nil_r.
Qed.

Lemma record_results_run w task_id cb rs s t :
  processing_tasks s !! task_id = Some t ->
  exists s',
    record_results w task_id cb rs s = (Returns tt, s') /\
    processing_tasks s'
      = <[task_id := finished t (Returns rs) (isoformat (clock w (ticks (sys s))))]>
          (processing_tasks s) /\
    scheduled s' = scheduled s /\
    callbacks s'
      = callbacks s ++ match truthy cb with
                       | Some url => [mk_Callback url task_id "completed" rs []
                                        (isoformat (clock w (S (ticks (sys s)))))]
                       | None => []
                       end.
Proof.
  intros Ht. exact (record_run w task_id cb completed (set_results rs) rs [] s t Ht).
Qed.

Lemma record_error_run w task_id cb e s t :
  processing_tasks s !! task_id = Some t ->
  exists s',
    record_error w task_id cb e s = (Returns tt, s') /\
    processing_tasks s'
      = <[task_id := finished t (Raises e) (isoformat (clock w (ticks (sys s))))]>
          (processing_tasks s) /\
    scheduled s' = scheduled s /\
    callbacks s'
      = callbacks s ++ match truthy cb with
                       | Some url => [mk_Callback url task_id "error" [] [str_exn e]
                                        (isoformat (clock w (S (ticks (sys s)))))]
                       | None => []
                       end.
Proof.
  intros Ht.
  exact (record_run w task_id cb error (set_errors [str_exn e]) [] [str_exn e] s t Ht).
Qed.

(** A background task whose record is in the registry: it returns, and
    leaves the record, the schedule and the notifications as follows. *)
Lemma run_job_recorded w j s t :
  processing_tasks s !! job_id j = Some t ->
  let o := fst (job_outcome w j (sys s)) in
  let n := ticks (snd (job_outcome w j (sys s))) in
  exists s',
    run_job w j s = (Returns tt, s') /\
    processing_tasks s'
      = <[job_id j := finished t o (isoformat (clock w n))]> (processing_tasks s) /\
    scheduled s' = scheduled s /\
    callbacks s'
      = callbacks s ++ notification (job_callback j) (job_id j) o (isoformat (clock w (S n))).
Proof.
  intros Ht.
  assert (Herr : forall cb e y,
    exists s',
      record_error w (job_id j) cb e (set_sys y s) = (Returns tt, s') /\
      processing_tasks s'
        = <[job_id j := finished t (Raises e) (isoformat (clock w (ticks y)))]>
            (processing_tasks s) /\
      scheduled s' = scheduled s /\
      callbacks s'
        = callbacks s ++ notification cb (job_id j) (Raises e) (isoformat (clock w (S (ticks y))))).
  { intros cb e y.
    destruct (record_error_run w (job_id j) cb e (set_sys y s) t Ht)
      as (s' & Hrun & Htasks & Hsched & Hcbs).
    exists s'. split; [exact Hrun|]. split; [exact Htasks|]. split; [exact Hsched|].
    rewrite Hcbs. unfold notification. now destruct (truthy cb). }
  assert (Hres : forall cb rs y,
    exists s',
      try_except (record_results w (job_id j) cb rs)
                 (record_error w (job_id j) cb) (set_sys y s) = (Returns tt, s') /\
      processing_tasks s'
        = <[job_id j := finished t (Returns rs) (isoformat (clock w (ticks y)))]>
            (processing_tasks s) /\
      scheduled s' = scheduled s /\
      callbacks s'
        = callbacks s ++ notification cb (job_id j) (Returns rs) (isoformat (clock w (S (ticks y))))).
  { intros cb rs y.
    destruct (record_results_run w (job_id j) cb rs (set_sys y s) t Ht)
      as (s' & Hrun & Htasks & Hsched & Hcbs).
    exists s'. unfold try_except. rewrite Hrun.
    split; [reflexivity|]. split; [exact Htasks|]. split; [exact Hsched|].
    rewrite Hcbs. unfold notification. now destruct (truthy cb). }
  destruct j as [id p cb|id folder cb]; unfold run_job, job_outcome;
    cbn [job_id job_callback] in *.
  - rewrite process_video_task_unfold. unfold bind.
    destruct (run_pipeline w p (sys s)) as [[result|e] y]; cbn [fst snd]; auto.
  - rewrite process_folder_task_unfold. unfold bind.
    destruct (VideoProcessor_init w (sys s)) as [[agent|e] y0]; cbn [fst snd]; auto.
    destruct (process_folder w agent (Some folder) y0) as [[rs|e] y]; cbn [fst snd]; auto.
Qed.

(** Without a record the error handler raises in its turn. *)
Lemma run_job_unrecorded w j s :
  processing_tasks s !! job_id j = None ->
  fst (run_job w j s) = Raises (KeyError (job_id j)).
Proof.
  intros Ht.
  assert (Herr : forall cb e y,
    fst (record_error w (job_id j) cb e (set_sys y s)) = Raises (KeyError (job_id j))).
  { intros cb e y. unfold record_error.
    now rewrite (record_absent w (job_id j) cb error _ [] [str_exn e] (set_sys y s) Ht). }
  assert (Hres : forall cb rs y,
    fst (try_except (record_results w (job_id j) cb rs)
           (record_error w (job_id j) cb) (set_sys y s)) = Raises (KeyError (job_id j))).
  { intros cb rs y. unfold try_except, record_results.
    rewrite (record_absent w (job_id j) cb completed _ rs [] (set_sys y s) Ht).
    apply Herr. }
  destruct j as [id p cb|id folder cb]; unfold run_job; cbn [job_id] in *.
  - rewrite process_video_task_unfold.
    destruct (run_pipeline w p (sys s)) as [[result|e] y]; auto.
  - rewrite process_folder_task_unfold.
    destruct (VideoProcessor_init w (sys s)) as [[agent|e] y0]; auto.
    destruct (process_folder w agent (Some folder) y0) as [[rs|e] y]; auto.
Qed.

(** *** Scheduled tasks have their record *)

Definition known (s : State) : Prop :=
  forall j, j ∈ scheduled s -> is_Some (processing_tasks s !! job_id j).

(** A background task removes no record. *)
Lemma run_job_keeps_records w j s task_id :
  is_Some (processing_tasks s !! task_id) ->
  is_Some (processing_tasks (snd (run_job w j s)) !! task_id).
Proof.
  intros Hk. destruct (decide (job_id j = task_id)) as [E|Hne].
  - subst task_id. destruct Hk as [t Ht].
    destruct (run_job_recorded w j s t Ht) as (s' & Hrun & Htasks & _).
    rewrite Hrun. cbn [snd]. rewrite Htasks, lookup_insert_eq. now eexists.
  - now rewrite run_job_frame.
Qed.

Lemma handle_keeps_records w req s task_id :
  is_Some (processing_tasks s !! task_id) ->
  is_Some (processing_tasks (snd (handle w req s)) !! task_id).
Proof.
  intros Hk.
  destruct (handle_cases w req s)
    as [(id & j & started & _ & _ & Htasks & _)|(_ & Htasks & _)]; rewrite Htasks.
  - apply lookup_insert_is_Some. destruct (decide (id = task_id)); auto.
  - exact Hk.
Qed.

Lemma step_keeps_records w s s' task_id :
  step w s s' ->
  is_Some (processing_tasks s !! task_id) -> is_Some (processing_tasks s' !! task_id).
Proof.
  intros [req s0|j before after s0 _] Hk.
  - now apply handle_keeps_records.
  - now apply run_job_keeps_records.
Qed.

Lemma step_known w s s' : known s -> step w s s' -> known s'.
Proof.
  intros Hk Hstep. destruct Hstep as [req s0|j before after s0 Hsched].
  - destruct (handle_cases w req s0)
      as [(id & j & started & _ & Hj & Htasks & Hsched)|(_ & Htasks & Hsched)];
      unfold known; rewrite Htasks, Hsched.
    + intros j' Hin. apply lookup_insert_is_Some.
      apply elem_of_app in Hin as [Hin|Hin].
      * destruct (decide (id = job_id j')); auto.
      * apply list_elem_of_singleton in Hin. subst j'. auto.
    + exact Hk.
  - unfold known. rewrite run_job_scheduled. cbn [scheduled set_scheduled].
    intros j' Hin. apply run_job_keeps_records. cbn [processing_tasks set_scheduled].
    apply Hk. rewrite Hsched.
    apply elem_of_app in Hin as [Hin|Hin]; apply elem_of_app; [now left|right; now right].
Qed.

Lemma reachable_known w s : reachable w s -> known s.
Proof.
  induction 1 as [s [_ Hsched]|s s' _ IH Hstep].
  - intros j Hj. rewrite Hsched in Hj. inversion Hj.
  - exact (step_known w s s' IH Hstep).
Qed.

(** X5. No exception escapes a background task: in every state the
    service can reach, also when identifiers have collided, each
    scheduled task finds a record under its identifier; when it runs it
    returns, and the record it leaves is terminal, with a completion
    time. *)
Theorem background_task_never_raises (w : World) (s : State) (j : Job)
    (before after : list Job) :
  reachable w s ->
  scheduled s = before ++ j :: after ->
  exists s' t',
    run_job w j (set_scheduled (fun _ => before ++ after) s) = (Returns tt, s') /\
    processing_tasks s' !! job_id j = Some t' /\
    terminal (status t') /\
    is_Some (completed_at t').
Proof.
  intros Hreach Hsched.
  destruct (reachable_known w s Hreach j) as [t Ht].
  { rewrite Hsched. apply elem_of_app. right. now left. }
  destruct (run_job_recorded w j (set_scheduled (fun _ => before ++ after) s) t Ht)
    as (s' & Hrun & Htasks & _).
  exists s'. eexists. split; [exact Hrun|]. split.
  - rewrite Htasks. apply lookup_insert_eq.
  - destruct (fst (job_outcome w j _)); simpl; split; eauto; [now left|now right].
Qed.

(** X5 at the task of a video that does not exist. *)
Lemma background_task_never_raises_witness :
  exists s' t',
    run_job demo_world (VideoJob "video_20250115_103000_000000" "./videos/missing.mp4" None)
      (set_scheduled (fun _ => [] ++ []) missing_submitted) = (Returns tt, s') /\
    processing_tasks s'
      !! job_id (VideoJob "video_20250115_103000_000000" "./videos/missing.mp4" None)
      = Some t' /\
    terminal (status t') /\
    is_Some (completed_at t').
Proof.
  apply (background_task_never_raises demo_world missing_submitted
           (VideoJob "video_20250115_103000_000000" "./videos/missing.mp4" None) [] []).
  - eapply reachable_step.
    + apply (reachable_initial demo_world demo_state). split; reflexivity.
    + apply (step_request demo_world
               (PostProcessVideo (Some "./videos/missing.mp4") None) demo_state).
  - reflexivity.
Defined.

(** X6. An identifier that is known stays known: no step of the service
    removes a record, so once an identifier has a record, a poll of it is
    never again answered with the not-found error. *)
Theorem known_task_stays_known (w : World) (s s' : State) (task_id : string) :
  rtc (step w) s s' ->
  is_Some (processing_tasks s !! task_id) ->
  is_Some (processing_tasks s' !! task_id) /\
  exists r, fst (get_task_status w task_id s') = Returns (TaskStatus r) /\
            pr_task_id r = task_id.
Proof.
  intros Hrun Hk.
  assert (Hk' : is_Some (processing_tasks s' !! task_id)).
  { induction Hrun as [s|s s1 s' Hstep _ IH]; [exact Hk|].
    apply IH. exact (step_keeps_records w s s1 task_id Hstep Hk). }
  split; [exact Hk'|]. destruct Hk' as [t Ht].
  unfold get_task_status. rewrite bind_gets, Ht.
  destruct (truthy (completed_at t)); eexists; split; reflexivity.
Qed.

(** X6 from the submission of a video to the end of its task. *)
Lemma known_task_stays_known_witness :
  is_Some (processing_tasks missing_failed !! "video_20250115_103000_000000") /\
  exists r, fst (get_task_status demo_world "video_20250115_103000_000000" missing_failed)
            = Returns (TaskStatus r) /\
            pr_task_id r = "video_20250115_103000_000000".
Proof.
  apply (known_task_stays_known demo_world missing_submitted missing_failed
           "video_20250115_103000_000000").
  - apply rtc_once.
    apply (step_job demo_world
             (VideoJob "video_20250115_103000_000000" "./videos/missing.mp4" None)
             [] [] missing_submitted).
    reflexivity.
  - eexists. vm_compute. reflexivity.
Defined.

(** X7. The notification of a background task mirrors its record.  For a
    task whose record is the one its submission stored: with no callback
    URL (absent or empty) nothing is sent; with one, exactly one payload
    is sent, to that URL, after the record is final, and it carries the
    identifier, status, results and errors that the record ends with,
    stamped with the reading of the clock that follows the one stored as
    completion time. *)
Theorem notification_mirrors_record (w : World) (s : State) (j : Job)
    (started : string) :
  processing_tasks s !! job_id j = Some (new_task started) ->
  exists s' t' n,
    run_job w j s = (Returns tt, s') /\
    processing_tasks s' !! job_id j = Some t' /\
    completed_at t' = Some (isoformat (clock w n)) /\
    callbacks s'
    = callbacks s ++
      match truthy (job_callback j) with
      | None => []
      | Some url =>
          [mk_Callback url (job_id j) (status_str (status t')) (results t') (errors t')
             (isoformat (clock w (S n)))]
      end.
Proof.
  intros Ht.
  destruct (run_job_recorded w j s _ Ht) as (s' & Hrun & Htasks & _ & Hcbs).
  exists s'. eexists. eexists. split; [exact Hrun|]. split.
  - rewrite Htasks. apply lookup_insert_eq.
  - rewrite Hcbs. unfold notification, finished.
    destruct (fst (job_outcome w j (sys s))) as [rs|e];
      (split; [reflexivity|]); now destruct (truthy (job_callback j)).
Qed.

(** X7 at the task of a video that does not exist, submitted with a
    callback URL. *)
Lemma notification_mirrors_record_witness :
  let s := snd (process_video_endpoint demo_world (Some "./videos/missing.mp4")
                  (Some "http://localhost/hook") demo_state) in
  let j := VideoJob "video_20250115_103000_000000" "./videos/missing.mp4"
             (Some "http://localhost/hook") in
  exists s' t' n,
    run_job demo_world j s = (Returns tt, s') /\
    processing_tasks s' !! job_id j = Some t' /\
    completed_at t' = Some (isoformat (clock demo_world n)) /\
    callbacks s'
    = callbacks s ++
      match truthy (job_callback j) with
      | None => []
      | Some url =>
          [mk_Callback url (job_id j) (status_str (status t')) (results t') (errors t')
             (isoformat (clock demo_world (S n)))]
      end.
Proof.
  apply (notification_mirrors_record demo_world
           (snd (process_video_endpoint demo_world (Some "./videos/missing.mp4")
                   (Some "http://localhost/hook") demo_state))
           (VideoJob "video_20250115_103000_000000" "./videos/missing.mp4"
              (Some "http://localhost/hook"))
           "2025-01-15T10:30:00.000001").
  vm_compute. reflexivity.
Defined.

Example callback_demo :
  callbacks (snd (run_job demo_world
     (VideoJob "video_20250115_103000_000000" "./videos/missing.mp4"
        (Some "http://localhost/hook"))
     (snd (process_video_endpoint demo_world (Some "./videos/missing.mp4")
             (Some "http://localhost/hook") demo_state))))
  = [mk_Callback "http://localhost/hook" "video_20250115_103000_000000" "error" []
       ["Video no encontrado: ./videos/missing.mp4"] "2025-01-15T10:30:00.000004"].
Proof. vm_compute. reflexivity. Qed.

(** X8. A single-video task that succeeds.  For a task whose record is
    the one its submission stored and whose pipeline returns a result:
    the background task returns, and the record ends [completed] with
    that result as its only result, no error, the start time it had, and
    as completion time the reading of the clock that follows the
    pipeline's. *)
Theorem single_video_success (w : World) (s : State) (task_id p : string)
    (cb : option string) (started : string) (result : Result) :
  processing_tasks s !! task_id = Some (new_task started) ->
  fst (run_pipeline w p (sys s)) = Returns result ->
  exists s',
    process_video_task w task_id p cb s = (Returns tt, s') /\
    processing_tasks s' !! task_id
      = Some {| status := completed; results := [result]; errors := [];
                started_at := started;
                completed_at :=
                  Some (isoformat (clock w (ticks (snd (run_pipeline w p (sys s)))))) |}.
Proof.
  intros Ht Hok.
  destruct (run_job_recorded w (VideoJob task_id p cb) s _ Ht) as (s' & Hrun & Htasks & _).
  exists s'. split; [exact Hrun|].
  rewrite Htasks. cbn [job_id job_outcome]. rewrite lookup_insert_eq. unfold bind.
  destruct (run_pipeline w p (sys s)) as [[r|e] y]; cbn [fst snd] in *; [|discriminate].
  now injection Hok as ->.
Qed.

(** The result of the video of the example, processed right after its
    submission. *)
Definition demo_video_result : Result :=
  {| video_path := "./videos/demo.mp4";
     video_info := video_info_of "./videos/demo.mp4" (mk_Clip 30 24 (640, 480)%Z true) 5242880;
     transcript := "hola mundo";
     summary := "OK";
     processed_at := "2025-01-15T10:30:00.000003";
     ai_provider := "openai";
     transcription_model := "whisper" |}.

Definition demo_submitted : State :=
  snd (process_video_endpoint demo_world (Some "./videos/demo.mp4") None demo_state).

(** X8 at the video of the example. *)
Lemma single_video_success_witness :
  exists s',
    process_video_task demo_world "video_20250115_103000_000000" "./videos/demo.mp4"
      None demo_submitted = (Returns tt, s') /\
    processing_tasks s' !! "video_20250115_103000_000000"
      = Some {| status := completed; results := [demo_video_result]; errors := [];
                started_at := "2025-01-15T10:30:00.000001";
                completed_at :=
                  Some (isoformat (clock demo_world
                          (ticks (snd (run_pipeline demo_world "./videos/demo.mp4"
                                         (sys demo_submitted)))))) |}.
Proof.
  apply (single_video_success demo_world demo_submitted
           "video_20250115_103000_000000" "./videos/demo.mp4" None
           "2025-01-15T10:30:00.000001" demo_video_result).
  - vm_compute. reflexivity.
  - vm_compute. reflexivity.
Defined.

(** *** The records of executions without identifier collisions *)

(** A record agrees with its status. *)
Definition consistent (t : Task) : Prop :=
  match status t with
  | processing => results t = [] /\ errors t = [] /\ completed_at t = None
  | completed => errors t = [] /\ is_Some (completed_at t)
  | error => results t = [] /\ (exists message, errors t = [message]) /\
             is_Some (completed_at t)
  end.

Lemma quiet_step_consistent w s s' :
  pending s -> map_Forall (fun _ t => consistent t) (processing_tasks s) ->
  quiet_step w s s' ->
  map_Forall (fun _ t => consistent t) (processing_tasks s').
Proof.
  intros Hp Hc Hstep. destruct Hstep as [req s0 _|j before after s0 Hsched].
  - destruct (handle_cases w req s0)
      as [(id & j & started & _ & _ & Htasks & _)|(_ & Htasks & _)]; rewrite Htasks.
    + apply map_Forall_insert_2; [|exact Hc]. repeat split.
    + exact Hc.
  - destruct Hp as [_ Hpend].
    destruct (Hpend j) as (t & Ht & Hst).
    { rewrite Hsched. apply elem_of_app. right. now left. }
    pose proof (map_Forall_lookup_1 _ _ _ _ Hc Ht) as Hcons.
    unfold consistent in Hcons. rewrite Hst in Hcons. destruct Hcons as (Hrs & Hes & _).
    destruct (run_job_recorded w j (set_scheduled (fun _ => before ++ after) s0) t Ht)
      as (s' & Hrun & Htasks & _).
    rewrite Hrun. cbn [snd]. rewrite Htasks.
    apply map_Forall_insert_2; [|exact Hc].
    destruct (fst (job_outcome w j _)) as [rs|e]; unfold consistent; simpl.
    + split; [exact Hes|now eexists].
    + split; [exact Hrs|]. split; now eexists.
Qed.

(** What holds of every state of an execution without collisions. *)
Lemma collision_free_invariant w s0 s :
  initial s0 -> rtc (quiet_step w) s0 s ->
  pending s /\ map_Forall (fun _ t => consistent t) (processing_tasks s).
Proof.
  intros Hinit Hrun.
  pose proof (initial_pending s0 Hinit) as Hp.
  assert (Hc : map_Forall (fun _ t => consistent t) (processing_tasks s0))
    by (destruct Hinit as [-> _]; apply map_Forall_empty).
  clear Hinit. induction Hrun as [s|s s1 s' Hstep _ IH]; [now split|].
  apply IH.
  - exact (quiet_step_pending w s s1 Hp Hstep).
  - exact (quiet_step_consistent w s s1 Hp Hc Hstep).
Qed.

(** Without collisions the record of a scheduled task is still the one
    its submission stored: no result, no error. *)
Lemma collision_free_scheduled w s0 s j t :
  initial s0 -> rtc (quiet_step w) s0 s ->
  j ∈ scheduled s -> processing_tasks s !! job_id j = Some t ->
  results t = [] /\ errors t = [].
Proof.
  intros Hinit Hrun Hin Ht.
  destruct (collision_free_invariant w s0 s Hinit Hrun) as [[_ Hpend] Hc].
  destruct (Hpend j Hin) as (t' & Ht' & Hst).
  rewrite Ht in Ht'. injection Ht' as <-.
  pose proof (map_Forall_lookup_1 _ _ _ _ Hc Ht) as Hcons.
  unfold consistent in Hcons. rewrite Hst in Hcons.
  destruct Hcons as (Hrs & Hes & _). now split.
Qed.

(** X9. From the start of the service on, as long as no submission is
    given an identifier already in use, every record agrees with its
    status: a [processing] record has no result, no error and no
    completion time; a [completed] record has no error and a completion
    time; an [error] record has no result, exactly one error message and
    a completion time. *)
Theorem collision_free_records_consistent (w : World) (s0 s : State)
    (task_id : string) (t : Task) :
  initial s0 ->
  rtc (quiet_step w) s0 s ->
  processing_tasks s !! task_id = Some t ->
  match status t with
  | processing => results t = [] /\ errors t = [] /\ completed_at t = None
  | completed => errors t = [] /\ is_Some (completed_at t)
  | error => results t = [] /\ (exists message, errors t = [message]) /\
             is_Some (completed_at t)
  end.
Proof.
  intros Hinit Hrun Ht.
  exact (map_Forall_lookup_1 _ _ _ _
           (proj2 (collision_free_invariant w s0 s Hinit Hrun)) Ht).
Qed.

(** X9 at the task of a video that does not exist, after it failed. *)
Lemma collision_free_records_consistent_witness :
  let t := mk_Task error [] ["Video no encontrado: ./videos/missing.mp4"]
             "2025-01-15T10:30:00.000001" (Some "2025-01-15T10:30:00.000003") in
  results t = [] /\
  (exists message, errors t = [message]) /\
  is_Some (completed_at t).
Proof.
  apply (collision_free_records_consistent demo_world demo_state missing_failed
           "video_20250115_103000_000000"
           (mk_Task error [] ["Video no encontrado: ./videos/missing.mp4"]
              "2025-01-15T10:30:00.000001" (Some "2025-01-15T10:30:00.000003"))).
  - split; reflexivity.
  - eapply rtc_l; [|apply rtc_once].
    + apply (quiet_request demo_world
               (PostProcessVideo (Some "./videos/missing.mp4") None) demo_state).
      intros task_id _. apply lookup_empty.
    + apply (quiet_job demo_world
               (VideoJob "video_20250115_103000_000000" "./videos/missing.mp4" None)
               [] [] missing_submitted).
      reflexivity.
  - vm_compute. reflexivity.
Defined.

(** With a collision the records of two tasks mix: under a clock that
    does not advance, the task of a video without audio and the task of
    a good video share one record, which ends [completed] and keeps the
    error of the first. *)
Example collision_mixes_records :
  let s1 := snd (process_video_endpoint stalled_world (Some "./videos/silent.mp4") None
                   demo_state) in
  let s2 := snd (process_video_endpoint stalled_world (Some "./videos/demo.mp4") None s1) in
  let s3 := snd (run_job stalled_world
                   (VideoJob "video_20250115_103000_000000" "./videos/silent.mp4" None) s2) in
  let s4 := snd (run_job stalled_world
                   (VideoJob "video_20250115_103000_000000" "./videos/demo.mp4" None) s3) in
  exists t, processing_tasks s4 !! "video_20250115_103000_000000" = Some t /\
            status t = completed /\
            errors t = ["El video no contiene audio"].
Proof. eexists. split; [vm_compute; reflexivity|]. split; reflexivity. Qed.

(** ** C3: a failing single video *)

(** C3 (amended). A single-video task that the service has scheduled
    (in any state it can reach, also after identifiers have collided)
    and whose pipeline (the constructor of the processor or any stage of
    [process_video]) raises [e]: the task finds a record under its
    identifier, the background task itself returns (no exception escapes
    it), and the record ends with status [error], the text of [e] as its
    only error, a completion time, the start time it had, and the result
    list it had: the error handler never writes the results.  That list
    is empty in every execution in which no submission was given an
    identifier already in use. *)
Theorem single_video_failure (w : World) (s : State) (task_id p : string)
    (cb : option string) (before after : list Job) (e : exn) :
  reachable w s ->
  scheduled s = before ++ VideoJob task_id p cb :: after ->
  fst (run_pipeline w p (sys s)) = Raises e ->
  exists t s' stamp,
    processing_tasks s !! task_id = Some t /\
    process_video_task w task_id p cb (set_scheduled (fun _ => before ++ after) s)
      = (Returns tt, s') /\
    processing_tasks s' !! task_id
      = Some {| status := error; results := results t; errors := [str_exn e];
                started_at := started_at t; completed_at := Some (isoformat stamp) |} /\
    (forall s0, initial s0 -> rtc (quiet_step w) s0 s -> results t = []).
Proof.
  intros Hreach Hsched Hfail.
  assert (Hin : VideoJob task_id p cb ∈ scheduled s)
    by (rewrite Hsched; apply elem_of_app; right; now left).
  destruct (reachable_known w s Hreach _ Hin) as [t Ht]. cbn [job_id] in Ht.
  destruct (run_job_recorded w (VideoJob task_id p cb)
              (set_scheduled (fun _ => before ++ after) s) t Ht)
    as (s' & Hrun & Htasks & _).
  exists t, s', (clock w (ticks (snd (run_pipeline w p (sys s))))).
  split; [exact Ht|]. split; [exact Hrun|]. split.
  - rewrite Htasks. cbn [job_id job_outcome sys set_scheduled].
    rewrite lookup_insert_eq. unfold bind.
    destruct (run_pipeline w p (sys s)) as [[r|e'] y]; cbn [fst snd] in *; [discriminate|].
    now injection Hfail as ->.
  - intros s0 Hinit Hpast.
    exact (proj1 (collision_free_scheduled w s0 s _ t Hinit Hpast Hin Ht)).
Qed.

Lemma missing_submitted_reachable : reachable demo_world missing_submitted.
Proof.
  eapply reachable_step.
  - apply (reachable_initial demo_world demo_state). split; reflexivity.
  - apply (step_request demo_world
             (PostProcessVideo (Some "./videos/missing.mp4") None) demo_state).
Qed.

(** C3 (amended) at the submission of a video that does not exist. *)
Lemma single_video_failure_witness :
  exists t s' stamp,
    processing_tasks missing_submitted !! "video_20250115_103000_000000" = Some t /\
    process_video_task demo_world "video_20250115_103000_000000"
      "./videos/missing.mp4" None
      (set_scheduled (fun _ => [] ++ []) missing_submitted) = (Returns tt, s') /\
    processing_tasks s' !! "video_20250115_103000_000000"
      = Some {| status := error; results := results t;
                errors := [str_exn (FileNotFoundError "Video no encontrado: ./videos/missing.mp4")];
                started_at := started_at t;
                completed_at := Some (isoformat stamp) |} /\
    (forall s0, initial s0 -> rtc (quiet_step demo_world) s0 missing_submitted ->
                results t = []).
Proof.
  apply (single_video_failure demo_world missing_submitted
           "video_20250115_103000_000000" "./videos/missing.mp4" None [] []
           (FileNotFoundError "Video no encontrado: ./videos/missing.mp4")).
  - exact missing_submitted_reachable.
  - vm_compute. reflexivity.
  - vm_compute. reflexivity.
Defined.

(** The record of that task when it has run. *)
Example missing_video_record :
  processing_tasks missing_failed !! "video_20250115_103000_000000"
  = Some {| status := error; results := [];
            errors := ["Video no encontrado: ./videos/missing.mp4"];
            started_at := "2025-01-15T10:30:00.000001";
            completed_at := Some "2025-01-15T10:30:00.000003" |}.
Proof. vm_compute. reflexivity. Qed.

(** C3 as stated fails: under a clock that does not advance, the
    submissions of a good video and of a video without an audio track
    get the same identifier and share one record.  The task of the good
    video stores its result; the pipeline of the other then raises, and
    the record ends [error] with that result still in its result list. *)
Lemma failure_keeps_foreign_result :
  let task_id := "video_20250115_103000_000000" in
  let s1 := snd (process_video_endpoint stalled_world (Some "./videos/demo.mp4") None
                   demo_state) in
  let s2 := snd (process_video_endpoint stalled_world (Some "./videos/silent.mp4") None s1) in
  let s3 := snd (run_job stalled_world (VideoJob task_id "./videos/demo.mp4" None)
                   (set_scheduled (fun _ => [VideoJob task_id "./videos/silent.mp4" None])
                      s2)) in
  let s4 := snd (run_job stalled_world (VideoJob task_id "./videos/silent.mp4" None)
                   (set_scheduled (fun _ => []) s3)) in
  scheduled s2 = [VideoJob task_id "./videos/demo.mp4" None;
                  VideoJob task_id "./videos/silent.mp4" None] /\
  fst (run_pipeline stalled_world "./videos/silent.mp4" (sys s3))
    = Raises (ValueError "El video no contiene audio") /\
  exists t, processing_tasks s4 !! task_id = Some t /\
            status t = error /\
            errors t = ["El video no contiene audio"] /\
            length (results t) = 1%nat.
Proof.
  split; [vm_compute; reflexivity|]. split; [vm_compute; reflexivity|].
  eexists. split; [vm_compute; reflexivity|]. repeat split.
Qed.

(** ** C1: a folder with videos that fail *)

(** C1 (amended). A folder task that the service has scheduled (in any
    state it can reach), whose processor can be built and whose folder
    can be listed.  With N the number of matching videos on which
    [process_video] returns and M the number on which it raises: the
    task finds a record under its identifier, the background task
    returns, and the record ends [completed] (whatever N is) with
    exactly the N results, in order, a completion time, the start time
    it had, and the error list it had: the errors of the M videos are
    never recorded.  That list is empty in every execution in which no
    submission was given an identifier already in use. *)
Theorem folder_partial_failure (w : World) (s : State) (task_id folder : string)
    (cb : option string) (before after : list Job) (agent : Agent) (y0 : Sys)
    (names : list string) :
  reachable w s ->
  scheduled s = before ++ FolderJob task_id folder cb :: after ->
  VideoProcessor_init w (sys s) = (Returns agent, y0) ->
  listdir w (resolved_folder w (Some folder)) = inr names ->
  let video_files :=
    matching_files (resolved_folder w (Some folder))
      (map lower (SUPPORTED_FORMATS (config w))) (files y0) names in
  let outcomes := fst (video_outcomes w agent video_files y0) in
  let N := length (successes outcomes) in
  let M := length (failures outcomes) in
  exists t s' stamp,
    processing_tasks s !! task_id = Some t /\
    process_folder_task w task_id folder cb (set_scheduled (fun _ => before ++ after) s)
      = (Returns tt, s') /\
    processing_tasks s' !! task_id
      = Some {| status := completed; results := successes outcomes; errors := errors t;
                started_at := started_at t; completed_at := Some (isoformat stamp) |} /\
    (N + M = length video_files)%nat /\
    (forall s0, initial s0 -> rtc (quiet_step w) s0 s -> errors t = []).
Proof.
  intros Hreach Hsched Hinit Hlist video_files outcomes N M.
  assert (Hin : FolderJob task_id folder cb ∈ scheduled s)
    by (rewrite Hsched; apply elem_of_app; right; now left).
  destruct (reachable_known w s Hreach _ Hin) as [t Ht]. cbn [job_id] in Ht.
  destruct (run_job_recorded w (FolderJob task_id folder cb)
              (set_scheduled (fun _ => before ++ after) s) t Ht)
    as (s' & Hrun & Htasks & _).
  exists t, s', (clock w (ticks (snd (video_outcomes w agent video_files y0)))).
  split; [exact Ht|]. split; [exact Hrun|]. split; [|split].
  - rewrite Htasks. cbn [job_id job_outcome sys set_scheduled].
    rewrite lookup_insert_eq. unfold bind. rewrite Hinit.
    rewrite process_folder_run, Hlist. reflexivity.
  - subst N M outcomes. rewrite successes_failures_length.
    apply video_outcomes_length.
  - intros s0 Hinit0 Hpast.
    exact (proj2 (collision_free_scheduled w s0 s _ t Hinit0 Hpast Hin Ht)).
Qed.

Lemma folder_submitted_reachable : reachable demo_world folder_submitted.
Proof.
  eapply reachable_step.
  - apply (reachable_initial demo_world demo_state). split; reflexivity.
  - apply (step_request demo_world (PostProcessFolder None None) demo_state).
Qed.

(** C1 (amended) at the folder with one good video, one video without an
    audio track and one text file. *)
Lemma folder_partial_failure_witness :
  let video_files :=
    matching_files (resolved_folder demo_world (Some "./videos"))
      (map lower (SUPPORTED_FORMATS (config demo_world)))
      (files (sys folder_submitted)) ["demo.mp4"; "silent.mp4"; "notes.txt"] in
  let outcomes :=
    fst (video_outcomes demo_world OpenAIAgent video_files (sys folder_submitted)) in
  exists t s' stamp,
    processing_tasks folder_submitted !! "folder_20250115_103000_000000" = Some t /\
    process_folder_task demo_world "folder_20250115_103000_000000" "./videos" None
      (set_scheduled (fun _ => [] ++ []) folder_submitted) = (Returns tt, s') /\
    processing_tasks s' !! "folder_20250115_103000_000000"
      = Some {| status := completed; results := successes outcomes; errors := errors t;
                started_at := started_at t;
                completed_at := Some (isoformat stamp) |} /\
    (length (successes outcomes) + length (failures outcomes) = length video_files)%nat /\
    (forall s0, initial s0 -> rtc (quiet_step demo_world) s0 folder_submitted ->
                errors t = []).
Proof.
  apply (folder_partial_failure demo_world folder_submitted
           "folder_20250115_103000_000000" "./videos" None [] []
           OpenAIAgent (sys folder_submitted)
           ["demo.mp4"; "silent.mp4"; "notes.txt"]).
  - exact folder_submitted_reachable.
  - vm_compute. reflexivity.
  - vm_compute. reflexivity.
  - reflexivity.
Defined.

(** C1 as stated fails: the video without an audio track makes
    [process_video] raise (M = 1), the loop of [process_folder] only logs
    that error, and the task ends [completed] with one result and an empty
    error list. *)
Lemma folder_errors_not_recorded :
  failures (fst (video_outcomes demo_world OpenAIAgent
                   ["./videos/demo.mp4"; "./videos/silent.mp4"] (sys folder_submitted)))
    = [ValueError "El video no contiene audio"] /\
  exists t,
    processing_tasks
      (snd (run_job demo_world
              (FolderJob "folder_20250115_103000_000000" "./videos" None)
              folder_submitted)) !! "folder_20250115_103000_000000" = Some t /\
    status t = completed /\
    length (results t) = 1%nat /\
    errors t = [].
Proof.
  split; [vm_compute; reflexivity|].
  eexists. split; [vm_compute; reflexivity|]. repeat split.
Qed.

(** A world as [w] with another answer of [os.listdir]. *)
Definition with_listdir (g : string -> exn + list string) (w : World) : World :=
  {| config := config w; clock := clock w; gettempdir := gettempdir w;
     VideoFileClip := VideoFileClip w; getsize := getsize w;
     write_audiofile := write_audiofile w; load_model := load_model w;
     whisper_transcribe := whisper_transcribe w; client_init := client_init w;
     client_transcribe := client_transcribe w; generate := generate w;
     os_remove := os_remove w; isdir := isdir w; open_text := open_text w;
     write_text := write_text w; listdir := g;
     format_2f := format_2f w; str_float := str_float w |}.

(** With a collision the error list that a folder task leaves need not
    be empty: under a clock that does not advance, the task of a folder
    that cannot be listed and the task of the input folder share one
    record; the first ends it [error] with the error of the listing, the
    second ends it [completed] with one result and that error still in
    its error list, which is not the error of the video that failed. *)
Example folder_collision_keeps_error :
  let w := with_listdir (fun folder =>
             if bool_decide (folder = "./videos")
             then inr ["demo.mp4"; "silent.mp4"; "notes.txt"]
             else inl (FileNotFoundError "no such folder")) stalled_world in
  let task_id := "folder_20250115_103000_000000" in
  let s1 := snd (process_folder_endpoint w (Some "./nowhere") None demo_state) in
  let s2 := snd (process_folder_endpoint w None None s1) in
  let s3 := snd (run_job w (FolderJob task_id "./nowhere" None)
                   (set_scheduled (fun _ => [FolderJob task_id "./videos" None]) s2)) in
  let s4 := snd (run_job w (FolderJob task_id "./videos" None)
                   (set_scheduled (fun _ => []) s3)) in
  scheduled s2 = [FolderJob task_id "./nowhere" None; FolderJob task_id "./videos" None] /\
  exists t, processing_tasks s4 !! task_id = Some t /\
            status t = completed /\
            length (results t) = 1%nat /\
            errors t = ["no such folder"].
Proof.
  split; [vm_compute; reflexivity|].
  eexists. split; [vm_compute; reflexivity|]. repeat split.
Qed.

(** ** C5: polling a terminal task *)

(** C5 (amended). In every reachable state, a task whose status is
    terminal has a stored completion time, and in any state that holds
    the same record any number of calls of the get-task-status operation
    return the same response, built from the stored status, results,
    errors and completion time, and leave the state exactly as it was.
    A step of the service leaves the record as it is unless it is a
    submission that is given this very identifier, which replaces the
    record with a fresh [processing] one, or the background task of an
    earlier submission of this identifier, still scheduled.  So the
    record stays as it is whatever else the service does in between
    (requests that are not answered with this identifier, background
    tasks of other identifiers), and for ever in an execution in which
    no submission is given an identifier already in use. *)
Theorem terminal_status_idempotent (w : World) (s : State) (task_id : string)
    (t : Task) :
  reachable w s ->
  processing_tasks s !! task_id = Some t ->
  terminal (status t) ->
  exists stamp,
    completed_at t = Some stamp /\
    (forall s',
       processing_tasks s' !! task_id = Some t ->
       forall n,
         poll w task_id n s'
         = (replicate n (Returns (TaskStatus (stored_status task_id t stamp))), s')) /\
    (forall s',
       step w s s' ->
       processing_tasks s' !! task_id = Some t \/
       (exists req started,
          accepted_id w req s = Some task_id /\ s' = snd (handle w req s) /\
          processing_tasks s' !! task_id = Some (new_task started)) \/
       (exists j, j ∈ scheduled s /\ job_id j = task_id)) /\
    (forall s',
       rtc (bystander w task_id) s s' ->
       processing_tasks s' !! task_id = Some t) /\
    (forall s0 s',
       initial s0 -> rtc (quiet_step w) s0 s -> rtc (quiet_step w) s s' ->
       processing_tasks s' !! task_id = Some t).
Proof.
  intros Hreach Ht Hterm.
  pose proof (map_Forall_lookup_1 _ _ _ _ (reachable_ok w s Hreach) Ht) as Hwf.
  unfold well_formed in Hwf.
  assert (Hd : exists d, completed_at t = Some (isoformat d))
    by (destruct Hterm as [E|E]; rewrite E in Hwf; exact Hwf).
  destruct Hd as [d Hd]. exists (isoformat d). split; [exact Hd|].
  split; [|split; [|split]].
  - intros s' Ht'. induction n as [|n IH]; simpl; [reflexivity|].
    rewrite (get_task_status_terminal w s' task_id t d Ht' Hd). now rewrite IH.
  - intros s' Hstep. destruct Hstep as [req s0|j before after s0 Hsched].
    + destruct (decide (accepted_id w req s0 = Some task_id)) as [Hacc|Hne].
      * right. left.
        destruct (handle_cases w req s0)
          as [(id & j & started & Hid & _ & Htasks & _)|(Hnone & _)]; [|congruence].
        exists req, started. split; [exact Hacc|]. split; [reflexivity|].
        rewrite Htasks. replace id with task_id by congruence.
        apply lookup_insert_eq.
      * left. now rewrite handle_frame.
    + destruct (decide (job_id j = task_id)) as [Hj|Hne].
      * right. right. exists j. split; [|exact Hj].
        rewrite Hsched. apply elem_of_app. right. now left.
      * left. now rewrite run_job_frame.
  - intros s' Hlater. rewrite (bystanders_keep w task_id s s' Hlater). exact Ht.
  - intros s0 s' Hinit Hpast Hfuture.
    exact (collision_free_record_is_final w s0 s s' task_id t Hinit Hpast Hfuture Ht Hterm).
Qed.

(** C5 (amended) at the task of a video that does not exist, after it
    failed. *)
Lemma terminal_status_idempotent_witness :
  let w := demo_world in
  let s := missing_failed in
  let task_id := "video_20250115_103000_000000" in
  let t := mk_Task error [] ["Video no encontrado: ./videos/missing.mp4"]
             "2025-01-15T10:30:00.000001" (Some "2025-01-15T10:30:00.000003") in
  exists stamp,
    completed_at t = Some stamp /\
    (forall s',
       processing_tasks s' !! task_id = Some t ->
       forall n,
         poll w task_id n s'
         = (replicate n (Returns (TaskStatus (stored_status task_id t stamp))), s')) /\
    (forall s',
       step w s s' ->
       processing_tasks s' !! task_id = Some t \/
       (exists req started,
          accepted_id w req s = Some task_id /\ s' = snd (handle w req s) /\
          processing_tasks s' !! task_id = Some (new_task started)) \/
       (exists j, j ∈ scheduled s /\ job_id j = task_id)) /\
    (forall s',
       rtc (bystander w task_id) s s' ->
       processing_tasks s' !! task_id = Some t) /\
    (forall s0 s',
       initial s0 -> rtc (quiet_step w) s0 s -> rtc (quiet_step w) s s' ->
       processing_tasks s' !! task_id = Some t).
Proof.
  apply (terminal_status_idempotent demo_world missing_failed).
  - exact missing_failed_reachable.
  - vm_compute. reflexivity.
  - right. reflexivity.
Defined.

(** C5 as stated fails: under a clock that does not advance, a video
    that does not exist is submitted and its task ends [error]; the same
    video is submitted again and is given the same identifier, and the
    terminal record is replaced by a fresh [processing] one: the polls
    before and after the second submission differ. *)
Lemma terminal_record_overwritten :
  let task_id := "video_20250115_103000_000000" in
  let s1 := snd (process_video_endpoint stalled_world (Some "./videos/missing.mp4") None
                   demo_state) in
  let s2 := snd (run_job stalled_world (VideoJob task_id "./videos/missing.mp4" None)
                   (set_scheduled (fun _ => []) s1)) in
  let s3 := snd (process_video_endpoint stalled_world (Some "./videos/missing.mp4") None
                   s2) in
  scheduled s1 = [VideoJob task_id "./videos/missing.mp4" None] /\
  (exists t, processing_tasks s2 !! task_id = Some t /\ status t = error) /\
  (exists t, processing_tasks s3 !! task_id = Some t /\ status t = processing) /\
  fst (get_task_status stalled_world task_id s2)
    <> fst (get_task_status stalled_world task_id s3).
Proof.
  split; [vm_compute; reflexivity|].
  split; [eexists; split; [vm_compute; reflexivity|reflexivity]|].
  split; [eexists; split; [vm_compute; reflexivity|reflexivity]|].
  vm_compute. discriminate.
Qed.

(** ** C10: polling a task that is still processing *)

(** C10. In every reachable state, a poll of a task whose status is
    [processing] answers with the current reading of the clock as its
    completion time, never with an absent one; the registry is left as it
    is, the next poll answers with the next reading, and the two answers
    differ whenever the two readings do. *)
Theorem processing_status_reads_clock (w : World) (s : State) (task_id : string)
    (t : Task) :
  reachable w s ->
  processing_tasks s !! task_id = Some t ->
  status t = processing ->
  let n := ticks (sys s) in
  let s1 := set_sys (set_ticks S (sys s)) s in
  let s2 := set_sys (set_ticks S (sys s1)) s1 in
  get_task_status w task_id s
    = (Returns (TaskStatus (stored_status task_id t (isoformat (clock w n)))), s1) /\
  get_task_status w task_id s1
    = (Returns (TaskStatus (stored_status task_id t (isoformat (clock w (S n))))), s2) /\
  processing_tasks s2 = processing_tasks s /\
  isoformat (clock w n) <> "" /\
  (valid_datetime (clock w n) -> valid_datetime (clock w (S n)) ->
   clock w n <> clock w (S n) ->
   isoformat (clock w n) <> isoformat (clock w (S n))).
Proof.
  intros Hreach Ht Hproc n s1 s2.
  pose proof (map_Forall_lookup_1 _ _ _ _ (reachable_ok w s Hreach) Ht) as Hwf.
  unfold well_formed in Hwf. rewrite Hproc in Hwf.
  assert (Hpoll : forall s0, processing_tasks s0 = processing_tasks s ->
            get_task_status w task_id s0
            = (Returns (TaskStatus (stored_status task_id t
                                      (isoformat (clock w (ticks (sys s0)))))),
               set_sys (set_ticks S (sys s0)) s0)).
  { intros s0 E. unfold get_task_status. rewrite bind_gets, E, Ht, Hwf. reflexivity. }
  split; [now apply Hpoll|]. split; [now apply Hpoll|]. split; [reflexivity|]. split.
  - discriminate.
  - intros V1 V2 Hne Heq. apply Hne. now apply isoformat_inj.
Qed.

(** C10 at a task just submitted. *)
Lemma processing_status_reads_clock_witness :
  let task_id := "video_20250115_103000_000000" in
  let t := new_task "2025-01-15T10:30:00.000001" in
  let n := ticks (sys missing_submitted) in
  let s1 := set_sys (set_ticks S (sys missing_submitted)) missing_submitted in
  let s2 := set_sys (set_ticks S (sys s1)) s1 in
  get_task_status demo_world task_id missing_submitted
    = (Returns (TaskStatus (stored_status task_id t (isoformat (clock demo_world n)))), s1) /\
  get_task_status demo_world task_id s1
    = (Returns (TaskStatus (stored_status task_id t (isoformat (clock demo_world (S n))))), s2) /\
  processing_tasks s2 = processing_tasks missing_submitted /\
  isoformat (clock demo_world n) <> "" /\
  (valid_datetime (clock demo_world n) -> valid_datetime (clock demo_world (S n)) ->
   clock demo_world n <> clock demo_world (S n) ->
   isoformat (clock demo_world n) <> isoformat (clock demo_world (S n))).
Proof.
  apply (processing_status_reads_clock demo_world missing_submitted).
  - eapply reachable_step.
    + apply (reachable_initial demo_world demo_state). split; reflexivity.
    + apply (step_request demo_world
               (PostProcessVideo (Some "./videos/missing.mp4") None) demo_state).
  - vm_compute. reflexivity.
  - reflexivity.
Defined.

(** Two polls of that task, one reading of the clock apart. *)
Example two_polls_differ :
  let r1 := get_task_status demo_world "video_20250115_103000_000000" missing_submitted in
  let r2 := get_task_status demo_world "video_20250115_103000_000000" (snd r1) in
  (exists a, fst r1 = Returns (TaskStatus a) /\
             pr_status a = "processing" /\
             pr_completed_at a = "2025-01-15T10:30:00.000003") /\
  (exists b, fst r2 = Returns (TaskStatus b) /\
             pr_completed_at b = "2025-01-15T10:30:00.000004").
Proof. split; eexists; (split; [vm_compute; reflexivity|]); repeat split. Qed.

(** ** C9: the persisted summary file *)

Lemma append_cons (c : ascii) (a b : string) : String c a +:+ b = String c (a +:+ b).
Proof. reflexivity. Qed.

Lemma append_assoc (a b c : string) : (a +:+ b) +:+ c = a +:+ (b +:+ c).
Proof.
  induction a as [|x a IH]; [reflexivity|].
  rewrite !append_cons. f_equal. exact IH.
Qed.

Lemma append_length (a b : string) :
  String.length (a +:+ b) = (String.length a + String.length b)%nat.
Proof.
  induction a as [|x a IH]; [reflexivity|].
  rewrite append_cons. cbn [String.length plus]. f_equal. exact IH.
Qed.

Lemma rstrip_app_nonempty (a b : string) : rstrip b <> "" -> rstrip (a +:+ b) <> "".
Proof.
  intros Hb. induction a as [|x a IH]; [exact Hb|].
  rewrite append_cons. cbn [rstrip].
  destruct (rstrip (a +:+ b)); [contradiction|discriminate].
Qed.

(** Trailing white space is stripped from the end only: a prefix before
    text that is kept is kept whole. *)
Lemma rstrip_app_keep (a b : string) :
  rstrip b <> "" -> rstrip (a +:+ b) = a +:+ rstrip b.
Proof.
  intros Hb. induction a as [|x a IH]; [reflexivity|].
  rewrite !append_cons. cbn [rstrip]. rewrite IH.
  destruct (a +:+ rstrip b) eqn:E; [|reflexivity].
  exfalso. apply (rstrip_app_nonempty a b Hb). now rewrite IH.
Qed.

(** [rstrip b] is [r], and something is left. *)
Definition strips_to (b r : string) : Prop := rstrip b = r /\ r <> "".

Lemma strips_to_app (a b r : string) : strips_to b r -> strips_to (a +:+ b) (a +:+ r).
Proof.
  intros [E N]. split.
  - rewrite rstrip_app_keep by congruence. now rewrite E.
  - destruct a as [|x a]; [exact N|]. rewrite append_cons. discriminate.
Qed.

Lemma strips_to_rule :
  strips_to (replicate_char 50 "=" +:+ nl +:+ "        ") (replicate_char 50 "=").
Proof. split; [vm_compute; reflexivity|vm_compute; discriminate]. Qed.

Lemma strips_to_eq (c r x : string) : strips_to c r -> r = x -> rstrip c = x.
Proof. intros [E _] <-. exact E. Qed.

(** The sections of the file. *)
Definition summary_head (w : World) (result : Result) : string :=
  let info := video_info result in
  "RESUMEN DE VIDEO" +:+ nl +:+
  replicate_char 50 "=" +:+ nl +:+
  nl +:+
  "INFORMACIÓN DEL VIDEO:" +:+ nl +:+
  "- Archivo: " +:+ upper (format info) +:+ nl +:+
  "- Duración: " +:+ format_2f w (duration info) +:+ " segundos" +:+ nl +:+
  "- Tamaño: " +:+ format_2f w (size_mb info) +:+ " MB" +:+ nl +:+
  "- Resolución: " +:+ str_Z (fst (size info)) +:+ "x"
                   +:+ str_Z (snd (size info)) +:+ nl +:+
  "- FPS: " +:+ str_float w (fps info) +:+ nl +:+
  nl +:+
  "CONFIGURACIÓN:" +:+ nl +:+
  "- Proveedor de IA: " +:+ upper (ai_provider result) +:+ nl +:+
  "- Modelo de transcripción: " +:+ upper (transcription_model result) +:+ nl +:+
  "- Procesado el: " +:+ processed_at result.

Definition transcript_heading : string :=
  nl +:+ nl +:+ "TRANSCRIPCIÓN COMPLETA:" +:+ nl +:+ replicate_char 30 "-" +:+ nl.

Definition summary_heading : string :=
  nl +:+ nl +:+ "RESUMEN GENERADO:" +:+ nl +:+ replicate_char 30 "-" +:+ nl.

Definition footer : string := nl +:+ nl +:+ replicate_char 50 "=".

(** The file is its head, the transcript and the summary, each under its
    heading, and the closing rule: [strip] removes the first line break
    and the blanks after the rule, and nothing of the two texts. *)
Lemma format_shape (w : World) (r : Result) :
  _format_summary_content w r
  = summary_head w r +:+ transcript_heading +:+ transcript r
      +:+ summary_heading +:+ summary r +:+ footer.
Proof.
  unfold _format_summary_content, strip. cbv zeta.
  match goal with
  | |- rstrip (lstrip (nl +:+ "RESUMEN DE VIDEO" +:+ ?rest)) = _ =>
      change (lstrip (nl +:+ "RESUMEN DE VIDEO" +:+ rest))
        with ("RESUMEN DE VIDEO" +:+ rest)
  end.
  eapply strips_to_eq;
    [ repeat first [ apply strips_to_rule | apply strips_to_app ] | ].
  unfold summary_head, transcript_heading, summary_heading, footer. cbv zeta.
  rewrite !append_assoc. reflexivity.
Qed.

(** Reading the file back. *)

(** [Some rest] when [s] is [pat] followed by [rest]. *)
Fixpoint strip_prefix (pat s : string) : option string :=
  match pat, s with
  | EmptyString, _ => Some s
  | String c p, String d t => if Ascii.eqb c d then strip_prefix p t else None
  | String _ _, EmptyString => None
  end.

(** The text before and the text after the first occurrence of [pat]. *)
Fixpoint split_first (pat s : string) : option (string * string) :=
  match strip_prefix pat s with
  | Some rest => Some ("", rest)
  | None =>
      match s with
      | EmptyString => None
      | String c s' =>
          match split_first pat s' with
          | Some (a, b) => Some (String c a, b)
          | None => None
          end
      end
  end.

(** [Some a] when [s] is [a] followed by [suf]. *)
Fixpoint strip_suffix (suf s : string) : option string :=
  if String.eqb s suf then Some ""
  else
    match s with
    | EmptyString => None
    | String c s' =>
        match strip_suffix suf s' with
        | Some a => Some (String c a)
        | None => None
        end
    end.

(** The transcript and the summary of a file, by its fixed layout: the
    text between the end of the first transcript heading and the first
    summary heading after it, and the text from there to the closing
    rule. *)
Definition parse_summary_file (content : string) : option (string * string) :=
  match split_first transcript_heading content with
  | None => None
  | Some (_, after) =>
      match split_first summary_heading after with
      | None => None
      | Some (transcript, rest) =>
          match strip_suffix footer rest with
          | Some summary => Some (transcript, summary)
          | None => None
          end
      end
  end.

Lemma strip_prefix_app (pat s : string) : strip_prefix pat (pat +:+ s) = Some s.
Proof.
  induction pat as [|c p IH]; [reflexivity|].
  rewrite append_cons. cbn [strip_prefix]. now rewrite Ascii.eqb_refl.
Qed.

Lemma strip_prefix_none_app (pat x s : string) :
  strip_prefix pat x = None -> (String.length pat <= String.length x)%nat ->
  strip_prefix pat (x +:+ s) = None.
Proof.
  revert x. induction pat as [|c p IH]; intros x H Hlen.
  - discriminate.
  - destruct x as [|d t]; cbn [String.length] in Hlen; [lia|].
    rewrite append_cons. cbn [strip_prefix] in *.
    destruct (Ascii.eqb c d); [|reflexivity]. apply IH; [exact H|lia].
Qed.

Lemma split_first_unfold (pat s : string) :
  split_first pat s
  = match strip_prefix pat s with
    | Some rest => Some ("", rest)
    | None =>
        match s with
        | EmptyString => None
        | String c s' =>
            match split_first pat s' with
            | Some (a, b) => Some (String c a, b)
            | None => None
            end
        end
    end.
Proof. destruct s; reflexivity. Qed.

(** A heading whose first occurrence in [a] followed by the heading is at
    the end of [a] is found there whatever follows. *)
Lemma split_first_extend (pat a : string) :
  split_first pat (a +:+ pat) = Some (a, "") ->
  forall s, split_first pat (a +:+ pat +:+ s) = Some (a, s).
Proof.
  induction a as [|c a IH]; intros H s.
  - change ("" +:+ pat +:+ s) with (pat +:+ s).
    now rewrite split_first_unfold, strip_prefix_app.
  - rewrite append_cons in *. rewrite split_first_unfold in H.
    rewrite split_first_unfold.
    destruct (strip_prefix pat (String c (a +:+ pat))) as [rest|] eqn:Hp; [discriminate|].
    assert (Hn : strip_prefix pat (String c (a +:+ pat +:+ s)) = None).
    { rewrite <- append_assoc, <- append_cons. apply strip_prefix_none_app.
      - exact Hp.
      - cbn [String.length]. rewrite append_length. lia. }
    rewrite Hn.
    destruct (split_first pat (a +:+ pat)) as [[a0 b0]|] eqn:Hs; [|discriminate].
    injection H as -> ->. now rewrite (IH eq_refl s).
Qed.

Lemma strip_suffix_unfold (suf s : string) :
  strip_suffix suf s
  = if String.eqb s suf then Some ""
    else
      match s with
      | EmptyString => None
      | String c s' =>
          match strip_suffix suf s' with
          | Some a => Some (String c a)
          | None => None
          end
      end.
Proof. destruct s; reflexivity. Qed.

Lemma strip_suffix_app (suf a : string) : strip_suffix suf (a +:+ suf) = Some a.
Proof.
  induction a as [|c a IH].
  - change ("" +:+ suf) with suf. now rewrite strip_suffix_unfold, String.eqb_refl.
  - rewrite append_cons, strip_suffix_unfold.
    destruct (String.eqb_spec (String c (a +:+ suf)) suf) as [E|_].
    + apply (f_equal String.length) in E. cbn [String.length] in E.
      rewrite append_length in E. lia.
    + now rewrite IH.
Qed.

(** The headings are where the layout puts them and nowhere before: the
    transcript heading first occurs in the head followed by it at the end
    of the head, and the summary heading first occurs in the transcript
    followed by it at the end of the transcript. *)
Definition unambiguous (w : World) (r : Result) : Prop :=
  split_first transcript_heading (summary_head w r +:+ transcript_heading)
    = Some (summary_head w r, "") /\
  split_first summary_heading (transcript r +:+ summary_heading)
    = Some (transcript r, "").

(** C9 (amended). For a result whose headings are unambiguous, reading
    the persisted content back by its layout gives exactly the transcript
    and the summary that were formatted; hence two such results with the
    same persisted content have the same transcript and the same
    summary. *)
Theorem persisted_summary_round_trip (w : World) (r : Result) :
  unambiguous w r ->
  parse_summary_file (_format_summary_content w r) = Some (transcript r, summary r) /\
  (forall r',
     unambiguous w r' ->
     _format_summary_content w r' = _format_summary_content w r ->
     transcript r' = transcript r /\ summary r' = summary r).
Proof.
  assert (Hparse : forall x, unambiguous w x ->
            parse_summary_file (_format_summary_content w x)
            = Some (transcript x, summary x)).
  { intros x [Hhead Htext]. rewrite format_shape. unfold parse_summary_file.
    rewrite (split_first_extend _ _ Hhead).
    rewrite (split_first_extend _ _ Htext).
    now rewrite strip_suffix_app. }
  intros Hr. split; [now apply Hparse|].
  intros r' Hr' Heq.
  pose proof (Hparse r Hr) as P. pose proof (Hparse r' Hr') as P'.
  rewrite Heq in P'. rewrite P in P'. now injection P' as -> ->.
Qed.

(** What [_save_result] writes is the formatted content. *)
Lemma save_result_writes_format w r p s path s' :
  _save_result w r p s = (Returns path, s') ->
  written s' = written s ++ [(path, _format_summary_content w r)].
Proof.
  unfold _save_result, bind, datetime_now, check, modify, ret, raise.
  destruct (open_text w _); [discriminate|].
  destruct (write_text w _ _); [discriminate|].
  now intros [= <- <-].
Qed.

(** The result of the video of the example. *)
Definition demo_result : Result :=
  {| video_path := "./videos/demo.mp4";
     video_info := mk_VideoInfo 30 24 (640, 480)%Z "mp4" 5 true;
     transcript := "hola mundo";
     summary := "OK";
     processed_at := "2025-01-15T10:30:00.000003";
     ai_provider := "openai";
     transcription_model := "whisper" |}.

(** C9 (amended) at the result of the example. *)
Lemma persisted_summary_round_trip_witness :
  parse_summary_file (_format_summary_content demo_world demo_result)
    = Some (transcript demo_result, summary demo_result) /\
  (forall r',
     unambiguous demo_world r' ->
     _format_summary_content demo_world r' = _format_summary_content demo_world demo_result ->
     transcript r' = transcript demo_result /\ summary r' = summary demo_result).
Proof.
  apply (persisted_summary_round_trip demo_world demo_result).
  split; vm_compute; reflexivity.
Defined.

(** Two results that differ only in where the summary heading stands. *)
Definition heading_in_transcript : Result :=
  {| video_path := "./videos/demo.mp4";
     video_info := mk_VideoInfo 30 24 (640, 480)%Z "mp4" 5 true;
     transcript := "uno" +:+ summary_heading +:+ "dos";
     summary := "tres";
     processed_at := "2025-01-15T10:30:00.000003";
     ai_provider := "openai";
     transcription_model := "whisper" |}.

Definition heading_in_summary : Result :=
  {| video_path := "./videos/demo.mp4";
     video_info := mk_VideoInfo 30 24 (640, 480)%Z "mp4" 5 true;
     transcript := "uno";
     summary := "dos" +:+ summary_heading +:+ "tres";
     processed_at := "2025-01-15T10:30:00.000003";
     ai_provider := "openai";
     transcription_model := "whisper" |}.

(** C9 as stated fails: a transcript that contains the summary heading
    and a summary that contains it are persisted as the same file, so the
    formatting is not injective and no reader of the file can give back
    both pairs. *)
Lemma formatting_is_not_injective :
  _format_summary_content demo_world heading_in_transcript
    = _format_summary_content demo_world heading_in_summary /\
  transcript heading_in_transcript <> transcript heading_in_summary /\
  summary heading_in_transcript <> summary heading_in_summary.
Proof.
  split; [vm_compute; reflexivity|]. split; intros H; vm_compute in H; discriminate.
Qed.

(** * Further properties of the code *)

(** ** ai_agents.py: the chunks of a long transcript *)

(** [''.join(chunks)]. *)
Fixpoint concat_all (l : list string) : string :=
  match l with
  | [] => ""
  | x :: rest => x +:+ concat_all rest
  end.

Lemma append_empty_r (a : string) : a +:+ "" = a.
Proof.
  induction a as [|c a IH]; [reflexivity|]. rewrite append_cons. now rewrite IH.
Qed.

Lemma substring_zero (t : string) (i : nat) : substring i 0 t = "".
Proof. revert i. induction t as [|c t IH]; intros [|i]; simpl; auto. Qed.

Lemma substring_full (t : string) : substring 0 (String.length t) t = t.
Proof. induction t as [|c t IH]; simpl; [reflexivity|now rewrite IH]. Qed.

(** Two adjacent slices make one. *)
Lemma substring_adjacent (t : string) :
  forall i n m, substring i n t +:+ substring (i + n) m t = substring i (n + m) t.
Proof.
  induction t as [|c t IH]; intros i n m.
  - destruct i, n, m; reflexivity.
  - destruct i as [|i].
    + destruct n as [|n].
      * reflexivity.
      * change (substring 0 (S n) (String c t)) with (String c (substring 0 n t)).
        change (substring (0 + S n) m (String c t)) with (substring (0 + n) m t).
        change (substring 0 (S n + m) (String c t))
          with (String c (substring 0 (n + m) t)).
        rewrite append_cons. now rewrite IH.
    + change (substring (S i) n (String c t)) with (substring i n t).
      change (substring (S i + n) m (String c t)) with (substring (i + n) m t).
      change (substring (S i) (n + m) (String c t)) with (substring i (n + m) t).
      apply IH.
Qed.

(** A slice that runs past the end stops at the end. *)
Lemma substring_past_end (t : string) :
  forall i n, (String.length t <= i + n)%nat ->
    substring i n t = substring i (String.length t - i) t.
Proof.
  induction t as [|c t IH]; intros i n Hlen.
  - destruct i, n; reflexivity.
  - destruct i as [|i].
    + destruct n as [|n]; simpl in Hlen; [lia|].
      simpl. f_equal. rewrite (IH 0%nat n) by (simpl; lia). now rewrite Nat.sub_0_r.
    + simpl. apply IH. simpl in Hlen. lia.
Qed.

Lemma substring_length (t : string) :
  forall i n, String.length (substring i n t) = Nat.min n (String.length t - i).
Proof.
  induction t as [|c t IH]; intros i n.
  - destruct i, n; reflexivity.
  - destruct i as [|i].
    + destruct n as [|n]; [reflexivity|]. simpl. rewrite IH. now rewrite Nat.sub_0_r.
    + simpl. apply IH.
Qed.

Lemma slice_step (t : string) (i T : nat) : slice t i (i + T) = substring i T t.
Proof. unfold slice. f_equal. lia. Qed.

Lemma range_fuel_bounds (fuel i stop step x : nat) :
  x ∈ range_fuel fuel i stop step -> (i <= x < stop)%nat.
Proof.
  revert i. induction fuel as [|fuel IH]; intros i Hx; simpl in Hx.
  - inversion Hx.
  - destruct (Nat.ltb_spec i stop) as [Hlt|Hge]; [|inversion Hx].
    apply elem_of_cons in Hx as [->|Hx]; [lia|].
    apply IH in Hx. lia.
Qed.

(** The slices taken at the values of the loop variable, joined, are the
    text from the first value on. *)
Lemma chunks_from (t : string) (T : nat) :
  (0 < T)%nat ->
  forall fuel i,
    (String.length t - i <= fuel)%nat ->
    concat_all (map (fun j => slice t j (j + T))
                    (range_fuel fuel i (String.length t) T))
    = substring i (String.length t - i) t.
Proof.
  intros HT. induction fuel as [|fuel IH]; intros i Hfuel; simpl.
  - replace (String.length t - i)%nat with 0%nat by lia. now rewrite substring_zero.
  - destruct (Nat.ltb_spec i (String.length t)) as [Hlt|Hge]; simpl.
    + rewrite IH by lia. rewrite slice_step, substring_adjacent.
      destruct (Nat.le_gt_cases (i + T) (String.length t)) as [Hin|Hout].
      * f_equal. lia.
      * replace (String.length t - (i + T))%nat with 0%nat by lia.
        rewrite Nat.add_0_r. apply substring_past_end. lia.
    + replace (String.length t - i)%nat with 0%nat by lia. now rewrite substring_zero.
Qed.

(** X1. The chunks of [generate_summary] are a partition of the
    transcript: joined in order they give the transcript back, character
    for character; none is longer than the chunk length, and none is
    empty unless the transcript is. *)
Theorem chunks_partition_transcript (T : nat) (transcript : string) :
  (0 < T)%nat ->
  concat_all (split_transcript T transcript) = transcript /\
  Forall (fun chunk => (String.length chunk <= T)%nat) (split_transcript T transcript) /\
  ((0 < String.length transcript)%nat ->
   Forall (fun chunk => (0 < String.length chunk)%nat) (split_transcript T transcript)).
Proof.
  intros HT. unfold split_transcript.
  destruct (Nat.ltb_spec T (String.length transcript)) as [Hlong|Hshort].
  - split; [|split].
    + unfold range. rewrite (chunks_from transcript T HT) by lia.
      rewrite Nat.sub_0_r. apply substring_full.
    + apply Forall_forall. intros chunk Hin.
      apply list_elem_of_fmap_1 in Hin as (j & -> & _).
      rewrite slice_step, substring_length. lia.
    + intros _. apply Forall_forall. intros chunk Hin.
      apply list_elem_of_fmap_1 in Hin as (j & -> & Hj).
      apply range_fuel_bounds in Hj.
      rewrite slice_step, substring_length. lia.
  - split; [|split].
    + simpl. apply append_empty_r.
    + repeat constructor. exact Hshort.
    + intros Hpos. repeat constructor. exact Hpos.
Qed.

(** X1 at a seven-character transcript cut in pieces of three. *)
Lemma chunks_partition_transcript_witness :
  concat_all (split_transcript 3 "abcdefg") = "abcdefg" /\
  Forall (fun chunk => (String.length chunk <= 3)%nat) (split_transcript 3 "abcdefg") /\
  ((0 < String.length "abcdefg")%nat ->
   Forall (fun chunk => (0 < String.length chunk)%nat) (split_transcript 3 "abcdefg")).
Proof. apply (chunks_partition_transcript 3 "abcdefg"). lia. Defined.

Example chunks_demo : split_transcript 3 "abcdefg" = ["abc"; "def"; "g"].
Proof. reflexivity. Qed.

(** ** ai_agents.py: what the long-context provider is asked *)

(** The text of the model's answer to a prompt. *)
Definition answer_text (w : World) (p : Prompt) : string :=
  match generate w GoogleAIAgent p with inr r => r | inl _ => "" end.

Definition answered (w : World) (p : Prompt) : Prop :=
  exists r, generate w GoogleAIAgent p = inr r.

(** The list [summaries] once every chunk has been answered. *)
Definition chunk_summaries (w : World) (prompts : list Prompt) : list string :=
  map (fun p => strip (answer_text w p)) prompts.

(** Every prompt of a run of [generate_summary], in the order sent. *)
Definition summary_prompts (w : World) (T : nat) (transcript : string)
    (info : VideoInfo) : list Prompt :=
  let chunks := split_transcript T transcript in
  let prompts := chunk_prompts (length chunks) info 0 chunks in
  prompts ++ (if (1 <? length chunks)%nat
              then [FinalPrompt (chunk_summaries w prompts)] else []).

Lemma set_calls_twice g h s : set_calls g (set_calls h s) = set_calls (fun l => g (h l)) s.
Proof. now destruct s. Qed.

Lemma set_calls_ext g h s : g (calls s) = h (calls s) -> set_calls g s = set_calls h s.
Proof. destruct s; unfold set_calls; simpl. now intros ->. Qed.

Lemma set_calls_id s : set_calls (fun l => l ++ []) s = s.
Proof. destruct s; unfold set_calls; simpl. now rewrite app_nil_r. Qed.

Lemma call_model_answered w p r s :
  generate w GoogleAIAgent p = inr r ->
  call_model w GoogleAIAgent p s = (Returns r, set_calls (fun l => l ++ [p]) s).
Proof. intros Hr. unfold call_model, bind, modify. simpl. now rewrite Hr. Qed.

Lemma call_model_refused w p e s :
  generate w GoogleAIAgent p = inl e ->
  call_model w GoogleAIAgent p s = (Raises e, set_calls (fun l => l ++ [p]) s).
Proof. intros Hr. unfold call_model, bind, modify. simpl. now rewrite Hr. Qed.

(** The chunk loop when every chunk is answered. *)
Lemma summarize_chunks_answered w n info chunks :
  forall i acc s,
    (forall p, p ∈ chunk_prompts n info i chunks -> answered w p) ->
    summarize_chunks w n info i chunks acc s
    = (Returns (acc ++ chunk_summaries w (chunk_prompts n info i chunks)),
       set_calls (fun l => l ++ chunk_prompts n info i chunks) s).
Proof.
  induction chunks as [|chunk rest IH]; intros i acc s Hall; simpl.
  - now rewrite app_nil_r, set_calls_id.
  - destruct (Hall (ChunkPrompt (i + 1) n chunk info)) as [r Hr]; [simpl; left|].
    rewrite (bind_returns _ _ _ _ _ (call_model_answered w _ r s Hr)).
    rewrite IH by (intros p Hp; apply Hall; simpl; now right).
    unfold answer_text at 1. rewrite Hr, <- app_assoc, set_calls_twice.
    f_equal. apply set_calls_ext. now rewrite <- app_assoc.
Qed.

(** The chunk loop when a chunk is refused: the loop ends there. *)
Lemma summarize_chunks_refused w n info chunks :
  forall i acc s pre p post e,
    chunk_prompts n info i chunks = pre ++ p :: post ->
    (forall q, q ∈ pre -> answered w q) ->
    generate w GoogleAIAgent p = inl e ->
    summarize_chunks w n info i chunks acc s
    = (Raises e, set_calls (fun l => l ++ pre ++ [p]) s).
Proof.
  induction chunks as [|chunk rest IH]; intros i acc s pre p post e Hsplit Hpre He;
    simpl in Hsplit.
  - now destruct pre.
  - simpl. destruct pre as [|q pre]; simpl in Hsplit; injection Hsplit as Hq Hrest.
    + subst p. now rewrite (bind_raises _ _ _ _ _ (call_model_refused w _ e s He)).
    + subst q. destruct (Hpre (ChunkPrompt (i + 1) n chunk info)) as [r Hr]; [left|].
      rewrite (bind_returns _ _ _ _ _ (call_model_answered w _ r s Hr)).
      rewrite (IH _ _ _ pre p post e Hrest) by (auto; intros q Hq; apply Hpre; now right).
      rewrite set_calls_twice. f_equal. apply set_calls_ext. now rewrite <- app_assoc.
Qed.

Lemma chunk_prompts_lookup n info chunks :
  forall i k chunk,
    chunks !! k = Some chunk ->
    chunk_prompts n info i chunks !! k = Some (ChunkPrompt (i + k + 1) n chunk info).
Proof.
  induction chunks as [|c rest IH]; intros i k chunk Hk; [discriminate|].
  destruct k as [|k]; simpl in *.
  - injection Hk as ->. now rewrite Nat.add_0_r.
  - rewrite (IH (i + 1)%nat k chunk Hk). do 3 f_equal. lia.
Qed.

(** There is one chunk, the transcript itself, or there are several. *)
Lemma split_transcript_cases (T : nat) (transcript : string) :
  (0 < T)%nat ->
  split_transcript T transcript = [transcript] \/
  (1 < length (split_transcript T transcript))%nat.
Proof.
  intros HT. unfold split_transcript.
  destruct (Nat.ltb_spec T (String.length transcript)) as [Hlong|Hshort]; [right|now left].
  rewrite length_map, range_length by exact HT.
  destruct (ceil_div_least (String.length transcript) T HT) as [Hcover _].
  destruct (ceil_div (String.length transcript) T) as [|[|n]]; simpl in Hcover; lia.
Qed.

Lemma not_T_zero (T L : nat) : (0 < T)%nat -> ((T =? 0) && (0 <? L))%nat = false.
Proof. intros HT. destruct (Nat.eqb_spec T 0); [lia|reflexivity]. Qed.

(** X2. The calls of the long-context provider's summarisation, for a
    chunk length T > 0 and prompts that are all answered: the k-th call
    carries the k-th chunk, numbered k of n; then, if there are several
    chunks, one combining call carries the stripped answers to the chunk
    calls, in the order of the chunks.  The summary is the stripped
    answer to the combining call, or, with one chunk, to the only call;
    the state changes by these calls and nothing else. *)
Theorem google_summary_calls (w : World) (T : nat) (transcript : string)
    (info : VideoInfo) (s : Sys) :
  (0 < T)%nat ->
  (forall p, p ∈ summary_prompts w T transcript info -> answered w p) ->
  let chunks := split_transcript T transcript in
  let prompts := chunk_prompts (length chunks) info 0 chunks in
  GoogleAIAgent_generate_summary_at w T transcript info s
  = (Returns (match chunk_summaries w prompts with
              | [only] => only
              | summaries => strip (answer_text w (FinalPrompt summaries))
              end),
     set_calls (fun l => l ++ summary_prompts w T transcript info) s) /\
  (forall k chunk, chunks !! k = Some chunk ->
     summary_prompts w T transcript info !! k
     = Some (ChunkPrompt (k + 1) (length chunks) chunk info)) /\
  (chunks = [transcript] \/
   last (summary_prompts w T transcript info)
   = Some (FinalPrompt (chunk_summaries w prompts))).
Proof.
  intros HT Hall chunks prompts. split; [|split].
  - unfold GoogleAIAgent_generate_summary_at. rewrite not_T_zero by exact HT.
    cbv beta iota zeta. fold chunks.
    rewrite (bind_returns _ _ _ _ _
               (summarize_chunks_answered w (length chunks) info chunks 0 [] s
                  ltac:(intros p Hp; apply Hall, elem_of_app; now left))).
    fold prompts. change ([] ++ chunk_summaries w prompts) with (chunk_summaries w prompts).
    cbv beta. unfold summary_prompts. fold chunks. fold prompts.
    assert (Hlen : length (chunk_summaries w prompts) = length chunks).
    { unfold chunk_summaries, prompts. now rewrite length_map, chunk_prompts_length. }
    rewrite Hlen.
    destruct (Nat.ltb_spec 1 (length chunks)) as [Hmany|Hone].
    + destruct (Hall (FinalPrompt (chunk_summaries w prompts))) as [r Hr].
      { unfold summary_prompts. fold chunks. fold prompts. apply elem_of_app. right.
        destruct (Nat.ltb_spec 1 (length chunks)); [left|lia]. }
      rewrite (bind_returns _ _ _ _ _ (call_model_answered w _ r _ Hr)).
      unfold ret. rewrite set_calls_twice. f_equal.
      * f_equal. revert Hr Hlen.
        destruct (chunk_summaries w prompts) as [|a [|b l]]; intros Hr Hlen;
          simpl in Hlen; try lia.
        unfold answer_text. now rewrite Hr.
      * apply set_calls_ext. now rewrite <- app_assoc.
    + destruct (chunk_summaries w prompts) as [|a [|b l]]; simpl in Hlen.
      * destruct (split_transcript_cases T transcript HT) as [E|E]; fold chunks in E;
          [rewrite E in Hlen; discriminate|lia].
      * unfold ret. f_equal. apply set_calls_ext. now rewrite app_nil_r.
      * lia.
  - intros k chunk Hk. unfold summary_prompts. fold chunks. fold prompts.
    rewrite lookup_app_l.
    + unfold prompts. now rewrite (chunk_prompts_lookup _ _ _ 0 k chunk Hk).
    + unfold prompts. rewrite chunk_prompts_length. now apply lookup_lt_Some in Hk.
  - destruct (split_transcript_cases T transcript HT) as [E|E]; fold chunks in E;
      [now left|right].
    unfold summary_prompts. fold chunks. fold prompts.
    destruct (Nat.ltb_spec 1 (length chunks)); [|lia].
    apply last_snoc.
Qed.

(** X2 at a seven-character transcript cut in pieces of three. *)
Lemma google_summary_calls_witness :
  let chunks := split_transcript 3 "abcdefg" in
  let prompts := chunk_prompts (length chunks)
                   (mk_VideoInfo 30 24 (640, 480)%Z "mp4" 5 true) 0 chunks in
  GoogleAIAgent_generate_summary_at demo_world 3 "abcdefg"
    (mk_VideoInfo 30 24 (640, 480)%Z "mp4" 5 true) demo_sys
  = (Returns (match chunk_summaries demo_world prompts with
              | [only] => only
              | summaries => strip (answer_text demo_world (FinalPrompt summaries))
              end),
     set_calls (fun l => l ++ summary_prompts demo_world 3 "abcdefg"
                                (mk_VideoInfo 30 24 (640, 480)%Z "mp4" 5 true)) demo_sys) /\
  (forall k chunk, chunks !! k = Some chunk ->
     summary_prompts demo_world 3 "abcdefg"
       (mk_VideoInfo 30 24 (640, 480)%Z "mp4" 5 true) !! k
     = Some (ChunkPrompt (k + 1) (length chunks) chunk
               (mk_VideoInfo 30 24 (640, 480)%Z "mp4" 5 true))) /\
  (chunks = ["abcdefg"] \/
   last (summary_prompts demo_world 3 "abcdefg"
           (mk_VideoInfo 30 24 (640, 480)%Z "mp4" 5 true))
   = Some (FinalPrompt (chunk_summaries demo_world prompts))).
Proof.
  apply (google_summary_calls demo_world 3 "abcdefg"
           (mk_VideoInfo 30 24 (640, 480)%Z "mp4" 5 true) demo_sys).
  - lia.
  - intros p _. exists "OK". reflexivity.
Defined.

(** Where a prompt of the run lies: among the chunk prompts, or it is the
    combining prompt. *)
Lemma refused_position {A} (prompts final pre post : list A) (p : A) :
  prompts ++ final = pre ++ p :: post -> (length final <= 1)%nat ->
  (exists tail, prompts = pre ++ p :: tail) \/ (pre = prompts /\ final = [p]).
Proof.
  intros Hsplit Hfinal.
  apply app_eq_app in Hsplit as [tail [[Hprompts Htail]|[Hpre Htail]]].
  - destruct tail as [|q tail].
    + right. rewrite app_nil_r in Hprompts. simpl in Htail. subst final prompts.
      destruct post; simpl in Hfinal; [auto|lia].
    + left. injection Htail as -> _. now exists tail.
  - right. destruct final as [|a [|b l]]; simpl in Hfinal; try lia.
    + now destruct tail.
    + destruct tail as [|q [|q' tail]]; try discriminate.
      injection Htail as -> _. rewrite app_nil_r in Hpre. auto.
Qed.

(** X3. The first prompt the model refuses ends the summarisation: for a
    chunk length T > 0, if the prompts before it are answered and the
    model raises on it, the call raises the same error, the refused
    prompt is the last one sent (no retry, and no chunk or combining
    call after it), and nothing else in the state changes. *)
Theorem google_summary_stops_at_first_error (w : World) (T : nat)
    (transcript : string) (info : VideoInfo) (s : Sys)
    (pre post : list Prompt) (p : Prompt) (e : exn) :
  (0 < T)%nat ->
  summary_prompts w T transcript info = pre ++ p :: post ->
  (forall q, q ∈ pre -> answered w q) ->
  generate w GoogleAIAgent p = inl e ->
  GoogleAIAgent_generate_summary_at w T transcript info s
  = (Raises e, set_calls (fun l => l ++ pre ++ [p]) s).
Proof.
  intros HT Hsplit Hpre He.
  unfold GoogleAIAgent_generate_summary_at. rewrite not_T_zero by exact HT.
  cbv beta iota zeta. unfold summary_prompts in Hsplit. cbv zeta in Hsplit.
  set (chunks := split_transcript T transcript) in *.
  set (prompts := chunk_prompts (length chunks) info 0 chunks) in *.
  destruct (refused_position _ _ _ _ _ Hsplit) as [[tail Hprompts]|[-> Hfinal]];
    [destruct (1 <? length chunks)%nat; simpl; lia| |].
  - (* a chunk is refused *)
    now rewrite (bind_raises _ _ _ _ _
                   (summarize_chunks_refused w (length chunks) info chunks 0 [] s
                      pre p tail e Hprompts Hpre He)).
  - (* every chunk is answered and the combining prompt is refused *)
    rewrite (bind_returns _ _ _ _ _
               (summarize_chunks_answered w (length chunks) info chunks 0 [] s Hpre)).
    fold prompts. change ([] ++ chunk_summaries w prompts) with (chunk_summaries w prompts).
    cbv beta.
    replace (length (chunk_summaries w prompts)) with (length chunks)
      by (unfold chunk_summaries, prompts; now rewrite length_map, chunk_prompts_length).
    destruct (1 <? length chunks)%nat; [|discriminate].
    injection Hfinal as Hp. rewrite Hp.
    rewrite (bind_raises _ _ _ _ _ (call_model_refused w _ e _ He)).
    rewrite set_calls_twice. f_equal. apply set_calls_ext. now rewrite <- app_assoc.
Qed.

(** A world as [w] whose text model answers as [g] says. *)
Definition with_generate (g : Agent -> Prompt -> exn + string) (w : World) : World :=
  {| config := config w; clock := clock w; gettempdir := gettempdir w;
     VideoFileClip := VideoFileClip w; getsize := getsize w;
     write_audiofile := write_audiofile w; load_model := load_model w;
     whisper_transcribe := whisper_transcribe w; client_init := client_init w;
     client_transcribe := client_transcribe w; generate := g;
     os_remove := os_remove w; isdir := isdir w; open_text := open_text w;
     write_text := write_text w; listdir := listdir w;
     format_2f := format_2f w; str_float := str_float w |}.

(** The model refuses the second chunk of any transcript. *)
Definition refusing_world : World :=
  with_generate
    (fun _ p => match p with
                | ChunkPrompt 2 _ _ _ => inl (ExternalError "quota exceeded")
                | _ => inr "OK"
                end)
    demo_world.

Definition demo_info : VideoInfo := mk_VideoInfo 30 24 (640, 480)%Z "mp4" 5 true.

(** X3 at a seven-character transcript cut in pieces of three, the
    second of which is refused. *)
Lemma google_summary_stops_at_first_error_witness :
  GoogleAIAgent_generate_summary_at refusing_world 3 "abcdefg" demo_info demo_sys
  = (Raises (ExternalError "quota exceeded"),
     set_calls (fun l => l ++ [ChunkPrompt 1 3 "abc" demo_info]
                           ++ [ChunkPrompt 2 3 "def" demo_info]) demo_sys).
Proof.
  apply (google_summary_stops_at_first_error refusing_world 3 "abcdefg" demo_info demo_sys
           [ChunkPrompt 1 3 "abc" demo_info]
           [ChunkPrompt 3 3 "g" demo_info; FinalPrompt ["OK"; ""; "OK"]]
           (ChunkPrompt 2 3 "def" demo_info) (ExternalError "quota exceeded")).
  - lia.
  - vm_compute. reflexivity.
  - intros q Hq. apply list_elem_of_singleton in Hq as ->. exists "OK". reflexivity.
  - reflexivity.
Defined.

(** ** video_processor.py: what a run writes and returns *)

(** What the [try] block of [process_video] has written when it ends. *)
Lemma body_written w agent p s :
  let body := process_video_body w agent p s in
  match fst body with
  | Returns result =>
      video_path result = p /\
      ai_provider result = AI_PROVIDER (config w) /\
      transcription_model result = TRANSCRIPTION_MODEL (config w) /\
      exists n,
        processed_at result = isoformat (clock w n) /\
        written (snd body)
        = written s ++ [(summary_path w p (clock w (S n)),
                         _format_summary_content w result)] /\
        summary_path w p (clock w (S n)) ∈ files (snd body)
  | Raises _ => written (snd body) = written s
  end.
Proof.
  cbv zeta. unfold process_video_body, enter, path_exists.
  rewrite bind_modify, bind_gets. cbv beta.
  destruct (bool_decide (p ∈ files _) || isdir w p); cbn [negb]; cbv iota.
  2: { now destruct s. }
  rewrite bind_modify.
  run_op (get_video_info_footprint written w p ltac:(other_field)).
  2: { simpl. rewrite Hst. now destruct s. }
  rewrite bind_modify.
  destruct (too_large w _); cbv iota.
  { simpl. rewrite Hst. now destruct s. }
  rewrite bind_modify.
  destruct (supported w _); cbn [negb]; cbv iota.
  2: { simpl. rewrite Hst. now destruct s. }
  rewrite bind_modify.
  run_op (extract_audio_footprint written w p None ltac:(other_field) ltac:(other_field)).
  2: { simpl. rewrite Hst0. simpl. rewrite Hst. now destruct s. }
  rewrite !bind_modify.
  match goal with |- context [_transcribe_audio w agent ?a] =>
    run_op (transcribe_footprint written w agent a) end.
  2: { simpl. rewrite Hst1. simpl. rewrite Hst0. simpl. rewrite Hst. now destruct s. }
  rewrite bind_modify.
  match goal with |- context [generate_summary w agent ?t ?i] =>
    run_op (generate_summary_footprint written w agent t i ltac:(other_field)) end.
  2: { simpl. rewrite Hst2. simpl. rewrite Hst1. simpl. rewrite Hst0. simpl. rewrite Hst.
       now destruct s. }
  rewrite bind_datetime_now, bind_modify.
  assert (Hw : written s3 = written s).
  { rewrite Hst2. simpl. rewrite Hst1. simpl. rewrite Hst0. simpl. rewrite Hst.
    now destruct s. }
  unfold bind. rewrite save_result_run.
  destruct (open_text w _) as [e|]; [|destruct (write_text w _ _) as [e|]]; cbn [fst snd].
  - rewrite <- Hw. now destruct s3.
  - rewrite <- Hw. now destruct s3.
  - repeat split. exists (ticks s3). split; [reflexivity|].
    rewrite <- Hw. destruct s3. fields. split; [reflexivity|]. set_solver.
Qed.

(** Two texts that end differently are different. *)
Lemma append_inj_r (a b x y : string) :
  a +:+ x = b +:+ y -> String.length x = String.length y -> x = y.
Proof.
  revert b. induction a as [|c a IH]; intros b H Hlen.
  - change ("" +:+ x) with x in H. destruct b as [|d b]; [exact H|].
    apply (f_equal String.length) in H. rewrite append_length in H.
    cbn [String.length] in H. lia.
  - destruct b as [|d b].
    + change ("" +:+ y) with y in H. apply (f_equal String.length) in H.
      rewrite append_length in H. cbn [String.length] in H. lia.
    + rewrite !append_cons in H. apply string_tail_eq in H. now apply (IH b).
Qed.

(** [os.path.join] ends with its second component. *)
Lemma join_ends a b : exists x, Path.join a b = x +:+ b.
Proof.
  assert (Hgo : exists x, match rsplit "/" a with
                          | Some (_, "") => a +:+ b
                          | _ => if bool_decide (a = "") then b else a +:+ "/" +:+ b
                          end = x +:+ b).
  { destruct (rsplit "/" a) as [[a' [|c r]]|].
    - now exists a.
    - destruct (bool_decide (a = "")); [now exists ""|].
      exists (a +:+ "/"). now rewrite append_assoc.
    - destruct (bool_decide (a = "")); [now exists ""|].
      exists (a +:+ "/"). now rewrite append_assoc. }
  unfold Path.join. destruct b as [|x b]; [exact Hgo|].
  destruct x as [[] [] [] [] [] [] [] []]; try exact Hgo. now exists "".
Qed.

(** The summary file is never the temporary audio file. *)
Lemma summary_is_not_audio w p q now :
  summary_path w p now <> default_audio_path w q.
Proof.
  unfold summary_path, default_audio_path. intros H.
  destruct (join_ends (VIDEO_OUTPUT_FOLDER (config w))
              (Path.stem p +:+ "_resumen_" +:+ strftime_seconds now +:+ ".txt"))
    as [x Hx].
  destruct (join_ends (gettempdir w)
              (fst (Path.splitext (Path.basename q)) +:+ "_audio.wav")) as [y Hy].
  rewrite Hx, Hy in H.
  change "_audio.wav" with ("_audio" +:+ ".wav") in H.
  rewrite <- !append_assoc in H.
  apply append_inj_r in H; [discriminate|reflexivity].
Qed.

(** X10. What [process_video] writes.  A run that raises has completed
    no write of a summary.  A run that returns has completed exactly
    one, after everything written before: to the file named by the
    output folder, the stem of the video's name and the reading of the
    clock taken when saving, printed to the second, which exists when
    the run ends (the cleanup never removes it); its content is the
    formatted result that the run returns; and that result names the
    video it was asked for, the configured provider and transcription
    model, and the reading of the clock just before the one in the file
    name.  Saving is [open] followed by [write]: when [open] raises no
    file is created; when [open] succeeds and [write] raises, the file
    has been created and is left in place, with no write completed. *)
Theorem process_video_writes_one_summary (w : World) (agent : Agent) (p : string)
    (s : Sys) :
  let run := process_video w agent p s in
  match fst run with
  | Returns result =>
      video_path result = p /\
      ai_provider result = AI_PROVIDER (config w) /\
      transcription_model result = TRANSCRIPTION_MODEL (config w) /\
      exists n,
        processed_at result = isoformat (clock w n) /\
        written (snd run)
        = written s ++ [(summary_path w p (clock w (S n)),
                         _format_summary_content w result)] /\
        (temp_files s = [] -> summary_path w p (clock w (S n)) ∈ files (snd run))
  | Raises _ => written (snd run) = written s
  end /\
  forall result y,
    let path := summary_path w p (clock w (ticks y)) in
    let content := _format_summary_content w result in
    match _save_result w result p y with
    | (Returns out, y') =>
        out = path /\ files y' = {[path]} ∪ files y /\
        written y' = written y ++ [(path, content)]
    | (Raises e, y') =>
        written y' = written y /\
        (open_text w path = Some e /\ files y' = files y \/
         open_text w path = None /\ write_text w path content = Some e /\
         files y' = {[path]} ∪ files y)
    end.
Proof.
  cbv zeta. split.
  - rewrite process_video_unfold. cbn [fst snd].
    pose proof (body_written w agent p s) as Hbody. cbv zeta in Hbody.
    destruct (body_registers_audio w agent p s) as [Hreg _]. cbv zeta in Hreg.
    destruct (process_video_body w agent p s) as [[result|e] s1]; cbn [fst snd] in *.
    + destruct Hbody as (Hp & Ha & Ht & n & Hn & Hw & Hfile).
      repeat split; auto. exists n. split; [exact Hn|]. split; [now destruct s1|].
      intros Htemp. rewrite Htemp in Hreg.
      assert (Hkeep : summary_path w p (clock w (S n)) ∉ removable w (temp_files s1)).
      { intros Hin. apply elem_of_removable in Hin as [Hin _].
        destruct Hreg as [Hreg|Hreg]; rewrite Hreg in Hin.
        - inversion Hin.
        - apply list_elem_of_singleton in Hin. now apply summary_is_not_audio in Hin. }
      destruct s1. fields. set_solver.
    + now destruct s1.
  - intros result y. rewrite save_result_run.
    destruct (open_text w _) as [e|] eqn:Hopen;
      [|destruct (write_text w _ _) as [e|] eqn:Hwrite].
    + split; [now destruct y|]. left. split; [reflexivity|now destruct y].
    + split; [now destruct y|]. right. repeat split; auto; now destruct y.
    + repeat split; now destruct y.
Qed.

Example summary_file_demo :
  written (snd (process_video demo_world OpenAIAgent "./videos/demo.mp4" demo_sys))
  = [("./processed/demo_resumen_20250115_103000.txt",
      _format_summary_content demo_world
        (mk_Result "./videos/demo.mp4"
           (video_info_of "./videos/demo.mp4" (mk_Clip 30 24 (640, 480)%Z true) 5242880)
           "hola mundo" "OK" "2025-01-15T10:30:00" "openai" "whisper"))].
Proof. vm_compute. reflexivity. Qed.

(** A world as [w] in which writing to a file that was opened fails. *)
Definition with_write_text (g : string -> string -> option exn) (w : World) : World :=
  {| config := config w; clock := clock w; gettempdir := gettempdir w;
     VideoFileClip := VideoFileClip w; getsize := getsize w;
     write_audiofile := write_audiofile w; load_model := load_model w;
     whisper_transcribe := whisper_transcribe w; client_init := client_init w;
     client_transcribe := client_transcribe w; generate := generate w;
     os_remove := os_remove w; isdir := isdir w; open_text := open_text w;
     write_text := g; listdir := listdir w;
     format_2f := format_2f w; str_float := str_float w |}.

(** A full disk: the summary file is created, the write raises, and the
    run leaves the empty file behind. *)
Example failed_write_demo :
  let w := with_write_text (fun _ _ => Some (ExternalError "No space left on device"))
             demo_world in
  let run := process_video w OpenAIAgent "./videos/demo.mp4" demo_sys in
  fst run = Raises (ExternalError "No space left on device") /\
  written (snd run) = [] /\
  "./processed/demo_resumen_20250115_103000.txt" ∈ files (snd run).
Proof.
  split; [vm_compute; reflexivity|]. split; [vm_compute; reflexivity|].
  apply (bool_decide_unpack _). vm_compute. exact I.
Qed.

(** ** video_processor.py: the folder variant *)

Lemma video_outcomes_temp_files w agent video_files :
  forall y, temp_files y = [] ->
            temp_files (snd (video_outcomes w agent video_files y)) = [].
Proof.
  induction video_files as [|p rest IH]; intros y Hy; simpl; [exact Hy|].
  pose proof (process_video_unfold w agent p y) as Hrun.
  destruct (process_video w agent p y) as [r y1].
  assert (Hy1 : temp_files y1 = []) by (injection Hrun as _ ->; reflexivity).
  specialize (IH y1 Hy1).
  now destruct (video_outcomes w agent rest y1) as [rs y2].
Qed.

Lemma filter_sublist {A} (f : A -> bool) (l : list A) : List.filter f l `sublist_of` l.
Proof.
  induction l as [|x l IH]; simpl; [constructor|].
  destruct (f x); [now apply sublist_skip|now apply sublist_cons].
Qed.

Lemma map_sublist {A B} (f : A -> B) (l1 l2 : list A) :
  l1 `sublist_of` l2 -> map f l1 `sublist_of` map f l2.
Proof.
  induction 1; simpl; [constructor|now apply sublist_skip|now apply sublist_cons].
Qed.

Lemma matching_files_sublist folder fmts existing names :
  matching_files folder fmts existing names `sublist_of` map (Path.join folder) names.
Proof.
  unfold matching_files. etrans; [apply filter_sublist|].
  apply map_sublist, filter_sublist.
Qed.

(** The results of the loop are results of the videos of the list, in
    the order of the list. *)
Lemma successes_paths w agent video_files :
  forall y,
    map video_path (successes (fst (video_outcomes w agent video_files y)))
    `sublist_of` video_files.
Proof.
  induction video_files as [|p rest IH]; intros y; simpl; [constructor|].
  pose proof (process_video_unfold w agent p y) as Hrun.
  pose proof (body_written w agent p y) as Hbody. cbv zeta in Hbody.
  destruct (process_video w agent p y) as [r y1].
  injection Hrun as Hr _. rewrite <- Hr in Hbody.
  specialize (IH y1). destruct (video_outcomes w agent rest y1) as [rs y2].
  destruct r as [result|e]; simpl in *.
  - destruct Hbody as [-> _]. now apply sublist_skip.
  - now apply sublist_cons.
Qed.

(** X11. The folder variant raises only when the folder cannot be
    listed.  If the listing raises, [process_folder] raises the same
    error and has touched nothing (no video is processed).  If the
    listing answers, [process_folder] returns, whatever happens to the
    videos: its results are results of files of that folder, each
    listed name giving at most one, in the order of the listing; and the
    processor's list of temporary files is empty when it was empty
    before. *)
Theorem process_folder_raises_only_on_listing (w : World) (agent : Agent)
    (folder_path : option string) (y : Sys) :
  match listdir w (resolved_folder w folder_path) with
  | inl e => process_folder w agent folder_path y = (Raises e, y)
  | inr names =>
      exists results y',
        process_folder w agent folder_path y = (Returns results, y') /\
        map video_path results
          `sublist_of` map (Path.join (resolved_folder w folder_path)) names /\
        (temp_files y = [] -> temp_files y' = [])
  end.
Proof.
  rewrite process_folder_run.
  destruct (listdir w (resolved_folder w folder_path)) as [e|names]; [reflexivity|].
  cbv zeta. do 2 eexists. split; [reflexivity|]. split.
  - etrans; [apply successes_paths|apply matching_files_sublist].
  - apply video_outcomes_temp_files.
Qed.

(** ** Paths: the name of a file in a folder *)

(** [c in s]. *)
Fixpoint occurs (c : ascii) (s : string) : bool :=
  match s with
  | EmptyString => false
  | String x s' => Ascii.eqb x c || occurs c s'
  end.

Lemma rsplit_none c s : occurs c s = false -> rsplit c s = None.
Proof.
  induction s as [|x s IH]; simpl; [reflexivity|].
  intros H. apply orb_false_iff in H as [Hx Hs]. now rewrite (IH Hs), Hx.
Qed.

Lemma rsplit_some c s a b :
  rsplit c s = Some (a, b) -> s = a +:+ String c b /\ occurs c b = false.
Proof.
  revert a. induction s as [|x s IH]; intros a; simpl; [discriminate|].
  destruct (rsplit c s) as [[a' b']|] eqn:E.
  - intros [= <- <-]. destruct (IH a' eq_refl) as [-> Hb]. now rewrite append_cons.
  - destruct (Ascii.eqb_spec x c) as [->|_]; [|discriminate].
    intros [= <- <-]. split; [reflexivity|].
    clear IH. induction s as [|y s IHs]; [reflexivity|]. simpl in *.
    destruct (rsplit c s) as [[a' b']|]; [discriminate|].
    destruct (Ascii.eqb y c); [discriminate|]. simpl. now apply IHs.
Qed.

Lemma rsplit_app c a b :
  occurs c b = false -> rsplit c (a +:+ String c b) = Some (a, b).
Proof.
  intros Hb. induction a as [|x a IH].
  - change ("" +:+ String c b) with (String c b). simpl.
    now rewrite (rsplit_none c b Hb), Ascii.eqb_refl.
  - rewrite append_cons. simpl. now rewrite IH.
Qed.

(** [os.path.basename(os.path.join(folder, name))] is [name], for a name
    without separator. *)
Lemma basename_join folder name :
  occurs "/" name = false -> Path.basename (Path.join folder name) = name.
Proof.
  intros Hname. unfold Path.basename.
  assert (Hplain : rsplit "/" name = None) by now apply rsplit_none.
  assert (Hsep : forall a, rsplit "/" (a +:+ "/" +:+ name) = Some (a, name)).
  { intros a. change ("/" +:+ name) with (String "/" name). now apply rsplit_app. }
  assert (Hjoin : Path.join folder name = name \/
                  exists a, Path.join folder name = a +:+ "/" +:+ name).
  { unfold Path.join. destruct name as [|x name]; [|destruct (Ascii.eqb_spec x "/")].
    - destruct (rsplit "/" folder) as [[a [|y b]]|] eqn:E.
      + right. exists a. apply rsplit_some in E as [-> _]. now rewrite append_empty_r.
      + destruct (bool_decide (folder = "")); [now left|right; now exists folder].
      + destruct (bool_decide (folder = "")); [now left|right; now exists folder].
    - subst x. simpl in Hname. discriminate.
    - assert (Hgo : match rsplit "/" folder with
                    | Some (_, "") => folder +:+ String x name
                    | _ => if bool_decide (folder = "") then String x name
                           else folder +:+ "/" +:+ String x name
                    end = String x name \/
                    exists a, match rsplit "/" folder with
                    | Some (_, "") => folder +:+ String x name
                    | _ => if bool_decide (folder = "") then String x name
                           else folder +:+ "/" +:+ String x name
                    end = a +:+ "/" +:+ String x name).
      { destruct (rsplit "/" folder) as [[a [|y b]]|] eqn:E.
        - right. exists a. apply rsplit_some in E as [-> _].
          now rewrite append_assoc.
        - destruct (bool_decide (folder = "")); [now left|right; now exists folder].
        - destruct (bool_decide (folder = "")); [now left|right; now exists folder]. }
      destruct x as [[] [] [] [] [] [] [] []]; try exact Hgo. now contradiction n. }
  destruct Hjoin as [->|[a ->]]; [now rewrite Hplain|now rewrite Hsep].
Qed.

(** X12. The temporary audio file of a video is named after the video's
    file name alone: two videos with the same name in different folders
    are given the same temporary path. *)
Theorem temp_audio_path_ignores_folder (w : World) (folder1 folder2 name : string) :
  occurs "/" name = false ->
  default_audio_path w (Path.join folder1 name)
  = default_audio_path w (Path.join folder2 name).
Proof.
  intros Hname. unfold default_audio_path. now rewrite !basename_join.
Qed.

(** X12 at two folders that hold a file of the same name. *)
Lemma temp_audio_path_ignores_folder_witness :
  default_audio_path demo_world (Path.join "./videos" "demo.mp4")
  = default_audio_path demo_world (Path.join "/srv/archive" "demo.mp4").
Proof.
  apply (temp_audio_path_ignores_folder demo_world "./videos" "/srv/archive" "demo.mp4").
  reflexivity.
Defined.

Example temp_audio_path_demo :
  default_audio_path demo_world "./videos/demo.mp4" = "/tmp/demo_audio.wav" /\
  default_audio_path demo_world "/srv/archive/demo.mp4" = "/tmp/demo_audio.wav".
Proof. split; reflexivity. Qed.

(** ** The two readings of a file's extension *)

Definition starts_with_dot (name : string) : bool :=
  match name with
  | String "." _ => true
  | _ => false
  end.

Lemma span_dots_none name :
  starts_with_dot name = false -> span_char "." name = ("", name).
Proof.
  destruct name as [|x name]; [reflexivity|]. simpl.
  destruct (Ascii.eqb_spec x ".") as [->|_]; [discriminate|reflexivity].
Qed.

Lemma lower_cons c s : lower (String c s) = String (lower_char c) (lower s).
Proof. reflexivity. Qed.

(** The extension [process_folder] selects a file by
    ([Path(file).suffix.lower()[1:]]) is the extension the format policy
    of [process_video] checks ([os.path.splitext(path)[1][1:]], lower
    case), for a file name that does not begin with a dot. *)
Lemma folder_extension_is_policy_extension folder name :
  occurs "/" name = false -> starts_with_dot name = false ->
  Path.drop_first (lower (Path.suffix name))
  = lower (Path.drop_first (snd (Path.splitext (Path.join folder name)))).
Proof.
  intros Hname Hdot. unfold Path.suffix, Path.splitext.
  rewrite (basename_join folder name Hname).
  assert (Hbase : Path.basename name = name)
    by (unfold Path.basename; now rewrite (rsplit_none "/" name Hname)).
  rewrite Hbase, (span_dots_none name Hdot).
  destruct (rsplit "." name) as [[root ext]|] eqn:E; [|reflexivity].
  apply rsplit_some in E as [-> _]. cbn [snd].
  change ("." +:+ ext) with (String "." ext).
  destruct root as [|r root]; [discriminate|].
  destruct ext as [|c e]; reflexivity.
Qed.

(** X13. A video that the folder variant selects passes the format
    policy of the single-video pipeline: for a listed name without
    separator that does not begin with a dot, if its extension is in the
    lower-cased allow-list, then the metadata of the joined path is
    supported, whatever the decoder and the filesystem say about it. *)
Theorem folder_selection_passes_format_policy (w : World) (folder name : string)
    (clip : Clip) (bytes : Z) :
  occurs "/" name = false ->
  starts_with_dot name = false ->
  str_in (Path.drop_first (lower (Path.suffix name)))
         (map lower (SUPPORTED_FORMATS (config w))) = true ->
  supported w (video_info_of (Path.join folder name) clip bytes) = true.
Proof.
  intros Hname Hdot Hsel. unfold supported, video_info_of. cbn [format].
  now rewrite <- (folder_extension_is_policy_extension folder name Hname Hdot).
Qed.

(** X13 at the video of the example. *)
Lemma folder_selection_passes_format_policy_witness :
  supported demo_world
    (video_info_of (Path.join "./videos" "Demo.MP4") (mk_Clip 30 24 (640, 480)%Z true) 1)
  = true.
Proof.
  apply (folder_selection_passes_format_policy demo_world "./videos" "Demo.MP4"
           (mk_Clip 30 24 (640, 480)%Z true) 1).
  - reflexivity.
  - reflexivity.
  - vm_compute. reflexivity.
Defined.

(** A name that begins with two dots: the folder variant selects it, the
    format policy rejects it. *)
Example leading_dots_demo :
  str_in (Path.drop_first (lower (Path.suffix "..mp4")))
         (map lower (SUPPORTED_FORMATS (config demo_world))) = true /\
  supported demo_world
    (video_info_of (Path.join "./videos" "..mp4") (mk_Clip 30 24 (640, 480)%Z true) 1)
  = false.
Proof. split; vm_compute; reflexivity. Qed.

(** ** The format policy and letter case *)

(** [str.isascii()]: on such text [lower] and [upper] are Python's
    [str.lower] and [str.upper]. *)
Definition isascii (s : string) : bool :=
  forallb (fun c => (nat_of_ascii c <? 128)%nat) (list_ascii_of_string s).

Lemma lower_upper_char c : lower_char (upper_char c) = lower_char c.
Proof. destruct c as [[] [] [] [] [] [] [] []]; reflexivity. Qed.

Lemma lower_lower_char c : lower_char (lower_char c) = lower_char c.
Proof. destruct c as [[] [] [] [] [] [] [] []]; reflexivity. Qed.

Lemma lower_upper s : isascii s = true -> lower (upper s) = lower s.
Proof.
  intros _. induction s as [|c s IH]; [reflexivity|].
  unfold lower, upper in *. simpl. now rewrite lower_upper_char, IH.
Qed.

Lemma lower_lower s : lower (lower s) = lower s.
Proof.
  induction s as [|c s IH]; [reflexivity|].
  unfold lower in *. simpl. now rewrite lower_lower_char, IH.
Qed.

Definition with_format (f : string -> string) (info : VideoInfo) : VideoInfo :=
  {| duration := duration info; fps := fps info; size := size info;
     format := f (format info); size_mb := size_mb info; has_audio := has_audio info |}.

Definition with_formats (f : string -> string) (w : World) : World :=
  {| config :=
       {| VIDEO_INPUT_FOLDER := VIDEO_INPUT_FOLDER (config w);
          VIDEO_OUTPUT_FOLDER := VIDEO_OUTPUT_FOLDER (config w);
          AI_PROVIDER := AI_PROVIDER (config w);
          GOOGLE_API_KEY := GOOGLE_API_KEY (config w);
          TRANSCRIPTION_MODEL := TRANSCRIPTION_MODEL (config w);
          MAX_VIDEO_SIZE_MB := MAX_VIDEO_SIZE_MB (config w);
          SUPPORTED_FORMATS := map f (SUPPORTED_FORMATS (config w)) |};
     clock := clock w; gettempdir := gettempdir w;
     VideoFileClip := VideoFileClip w; getsize := getsize w;
     write_audiofile := write_audiofile w; load_model := load_model w;
     whisper_transcribe := whisper_transcribe w; client_init := client_init w;
     client_transcribe := client_transcribe w; generate := generate w;
     os_remove := os_remove w; isdir := isdir w; open_text := open_text w;
     write_text := write_text w; listdir := listdir w;
     format_2f := format_2f w; str_float := str_float w |}.

(** X14. On ASCII text the format policy does not see letter case: when
    the extension of the video and every entry of the configured
    allow-list are ASCII, writing the extension in upper or in lower
    case, or every entry of the allow-list in upper or in lower case,
    does not change its verdict. *)
Theorem format_policy_ignores_case (w : World) (info : VideoInfo) :
  isascii (format info) = true ->
  forallb isascii (SUPPORTED_FORMATS (config w)) = true ->
  supported w (with_format upper info) = supported w info /\
  supported w (with_format lower info) = supported w info /\
  supported (with_formats upper w) info = supported w info /\
  supported (with_formats lower w) info = supported w info.
Proof.
  intros Hext Hlist.
  unfold supported, with_format, with_formats. cbn [format config SUPPORTED_FORMATS].
  rewrite (lower_upper _ Hext), lower_lower, !List.map_map.
  repeat split; f_equal; apply map_ext_in; intros fmt Hin.
  - apply lower_upper. rewrite forallb_forall in Hlist. now apply Hlist.
  - apply lower_lower.
Qed.

(** X14 at a video whose extension is written [Mp4]. *)
Lemma format_policy_ignores_case_witness :
  let info := video_info_of "./videos/demo.Mp4" (mk_Clip 30 24 (640, 480)%Z true) 5242880 in
  supported demo_world (with_format upper info) = supported demo_world info /\
  supported demo_world (with_format lower info) = supported demo_world info /\
  supported (with_formats upper demo_world) info = supported demo_world info /\
  supported (with_formats lower demo_world) info = supported demo_world info.
Proof.
  apply (format_policy_ignores_case demo_world
           (video_info_of "./videos/demo.Mp4" (mk_Clip 30 24 (640, 480)%Z true) 5242880)).
  - reflexivity.
  - reflexivity.
Defined.

(** ** audio_processor.py: the cleanup loop and the metadata *)

Lemma removable_twice (w : World) (l : list string) (f : gset string) :
  f ∖ removable w l ∖ removable w l = f ∖ removable w l.
Proof. set_solver. Qed.

(** X15. [cleanup_temp_files] never raises and can be repeated: a second
    run over the same list changes nothing.  It removes no file that is
    not on the list, and after it every listed file whose removal the
    operating system accepts is absent; nothing but the set of files
    changes. *)
Theorem cleanup_temp_files_idempotent (w : World) (file_paths : list string) (s : Sys) :
  let s1 := snd (cleanup_temp_files w file_paths s) in
  fst (cleanup_temp_files w file_paths s) = Returns tt /\
  cleanup_temp_files w file_paths s1 = (Returns tt, s1) /\
  (forall p, p ∉ file_paths -> (p ∈ files s1 <-> p ∈ files s)) /\
  (forall p, p ∈ file_paths -> os_remove w p = None -> p ∉ files s1) /\
  files s1 ⊆ files s /\
  s1 = set_files (fun _ => files s1) s.
Proof.
  cbv zeta. rewrite !cleanup_temp_files_spec. cbn [fst snd].
  split; [reflexivity|]. split.
  - f_equal. rewrite set_files_twice. apply set_files_ext. apply removable_twice.
  - assert (Hfiles : files (set_files (fun f => f ∖ removable w file_paths) s)
                     = files s ∖ removable w file_paths) by now destruct s.
    rewrite Hfiles. split; [|split; [|split]].
    + intros p Hp. rewrite elem_of_difference, elem_of_removable. tauto.
    + intros p Hp Hrm. rewrite elem_of_difference, elem_of_removable. tauto.
    + set_solver.
    + now destruct s.
Qed.

(** A world as [w] in which the size of no file can be read. *)
Definition with_getsize (g : string -> exn + Z) (w : World) : World :=
  {| config := config w; clock := clock w; gettempdir := gettempdir w;
     VideoFileClip := VideoFileClip w; getsize := g;
     write_audiofile := write_audiofile w; load_model := load_model w;
     whisper_transcribe := whisper_transcribe w; client_init := client_init w;
     client_transcribe := client_transcribe w; generate := generate w;
     os_remove := os_remove w; isdir := isdir w; open_text := open_text w;
     write_text := write_text w; listdir := listdir w;
     format_2f := format_2f w; str_float := str_float w |}.

Definition unreadable_world : World :=
  with_getsize (fun _ => inl (ExternalError "Permission denied")) demo_world.

(** X16. A failure while reading the metadata leaves the decoder open.
    When the video can be opened and the size of its file cannot be read,
    [get_video_info] raises the error of the filesystem without closing
    the decoder it opened; [process_video] on a video that exists then
    raises the same error at the metadata stage, its cleanup does not
    close the decoder either, and no file is written or removed. *)
Theorem metadata_failure_leaves_decoder_open (w : World) (agent : Agent) (p : string)
    (s : Sys) (clip : Clip) (e : exn) :
  VideoFileClip w p = inr clip ->
  getsize w p = inl e ->
  p ∈ files s ->
  temp_files s = [] ->
  get_video_info w p s = (Raises e, set_open_clips (cons p) s) /\
  process_video w agent p s
  = (Raises e,
     set_open_clips (cons p) (set_stages (fun l => l ++ [ExistenceCheck; Metadata]) s)).
Proof.
  intros Hclip Hsize Hex Htemp.
  assert (Hinfo : forall s0, get_video_info w p s0 = (Raises e, set_open_clips (cons p) s0)).
  { intros s0. unfold get_video_info, open_clip, bind, answer, modify, ret, raise.
    rewrite Hclip. simpl. now rewrite Hsize. }
  split; [apply Hinfo|].
  rewrite process_video_unfold.
  assert (Hbody : process_video_body w agent p s
                  = (Raises e, set_open_clips (cons p)
                                 (set_stages (fun l => l ++ [ExistenceCheck; Metadata]) s))).
  { unfold process_video_body, enter, path_exists.
    rewrite bind_modify, bind_gets. cbv beta.
    replace (bool_decide (p ∈ files (set_stages _ s))) with true
      by (symmetry; apply bool_decide_eq_true; now destruct s).
    cbn [orb negb]. cbv iota. rewrite bind_modify.
    rewrite (bind_raises _ _ _ _ _ (Hinfo _)). f_equal.
    rewrite set_stages_twice. f_equal. apply set_stages_ext. now rewrite <- app_assoc. }
  rewrite Hbody. cbn [fst snd]. f_equal.
  destruct s as [fs oc tf wr st cl tk]. simpl in Htemp. subst tf.
  unfold set_temp_files, set_files, set_open_clips, set_stages. cbn.
  f_equal. unfold removable. simpl. set_solver.
Qed.

(** X16 at the video of the example, in a world where no size can be
    read. *)
Lemma metadata_failure_leaves_decoder_open_witness :
  get_video_info unreadable_world "./videos/demo.mp4" demo_sys
  = (Raises (ExternalError "Permission denied"),
     set_open_clips (cons "./videos/demo.mp4") demo_sys) /\
  process_video unreadable_world OpenAIAgent "./videos/demo.mp4" demo_sys
  = (Raises (ExternalError "Permission denied"),
     set_open_clips (cons "./videos/demo.mp4")
       (set_stages (fun l => l ++ [ExistenceCheck; Metadata]) demo_sys)).
Proof.
  apply (metadata_failure_leaves_decoder_open unreadable_world OpenAIAgent
           "./videos/demo.mp4" demo_sys (mk_Clip 30 24 (640, 480)%Z true)
           (ExternalError "Permission denied")).
  - reflexivity.
  - reflexivity.
  - apply (bool_decide_unpack _). vm_compute. exact I.
  - reflexivity.
Defined.

(** ** config.py: the validation at startup *)

(** The two API keys that only [validate_config] and the clients read. *)
Record Credentials := mk_Credentials {
  OPENAI_API_KEY : option string;
  ANTHROPIC_API_KEY : option string
}.

(** [not key]. *)
Definition missing (key : option string) : bool :=
  match truthy key with Some _ => false | None => true end.

(** [Config.validate_config]; [makedirs] is [os.makedirs(_, exist_ok=True)],
    which raises or creates the folder. *)
Definition validate_config (makedirs : string -> option exn) (cfg : Config)
    (keys : Credentials) : Outcome (list string) :=
  let errors := [] in
  match makedirs (VIDEO_INPUT_FOLDER cfg) with
  | Some e => Raises e
  | None =>
  match makedirs (VIDEO_OUTPUT_FOLDER cfg) with
  | Some e => Raises e
  | None =>
      let errors :=
        if negb (str_in (AI_PROVIDER cfg) ["openai"; "anthropic"; "google"])
        then errors ++ ["Proveedor de IA no válido: " +:+ AI_PROVIDER cfg]
        else errors in
      let errors :=
        if bool_decide (AI_PROVIDER cfg = "openai") && missing (OPENAI_API_KEY keys)
        then errors ++ ["OPENAI_API_KEY es requerida para el proveedor OpenAI"]
        else if bool_decide (AI_PROVIDER cfg = "anthropic")
                && missing (ANTHROPIC_API_KEY keys)
        then errors ++ ["ANTHROPIC_API_KEY es requerida para el proveedor Anthropic"]
        else if bool_decide (AI_PROVIDER cfg = "google") && missing (GOOGLE_API_KEY cfg)
        then errors ++ ["GOOGLE_API_KEY es requerida para el proveedor Google"]
        else errors in
      Returns errors
  end
  end.

(** The key of the configured provider. *)
Definition provider_key (cfg : Config) (keys : Credentials) : option string :=
  if bool_decide (AI_PROVIDER cfg = "openai") then OPENAI_API_KEY keys
  else if bool_decide (AI_PROVIDER cfg = "anthropic") then ANTHROPIC_API_KEY keys
  else GOOGLE_API_KEY cfg.

Lemma provider_cases (provider : string) :
  str_in provider ["openai"; "anthropic"; "google"] = true <->
  provider = "openai" \/ provider = "anthropic" \/ provider = "google".
Proof.
  unfold str_in. rewrite bool_decide_eq_true, !elem_of_cons, elem_of_nil. tauto.
Qed.

Lemma google_init_with_key w s :
  missing (GOOGLE_API_KEY (config w)) = false ->
  exists s', GoogleAIAgent_init w s = (Returns tt, s').
Proof.
  unfold missing, truthy, GoogleAIAgent_init.
  destruct (GOOGLE_API_KEY (config w)) as [[|c key]|]; try discriminate. intros _.
  unfold try_except.
  destruct ((check (client_init w GoogleAIAgent) ;;;
             _ <- call_model w GoogleAIAgent TestPrompt ;; ret tt) s) as [[[]|e] s1];
    now eexists.
Qed.

(** Decides the comparisons of the configured provider with the three
    known names. *)
Ltac decide_provider :=
  repeat match goal with
  | |- context [bool_decide (?a = ?b)] =>
      first [ rewrite (bool_decide_eq_true_2 (a = b)) by congruence
            | rewrite (bool_decide_eq_false_2 (a = b)) by congruence ]
  end.

(** X17. The validation of the configuration.  When both folders can be
    created, [validate_config] reports at most one error, and none
    exactly when the provider is one of the three known ones and the key
    of that provider is set.  A configuration it accepts is one the
    agent factory can work with: [create_agent] then never raises the
    unsupported-provider or missing-key error; it returns the agent of
    the configured provider, unless the constructor of the provider's
    client raises. *)
Theorem validated_config_builds_agent (w : World) (makedirs : string -> option exn)
    (keys : Credentials) (s : Sys) :
  makedirs (VIDEO_INPUT_FOLDER (config w)) = None ->
  makedirs (VIDEO_OUTPUT_FOLDER (config w)) = None ->
  exists errors,
    validate_config makedirs (config w) keys = Returns errors /\
    (length errors <= 1)%nat /\
    (errors = [] <->
     str_in (AI_PROVIDER (config w)) ["openai"; "anthropic"; "google"] = true /\
     missing (provider_key (config w) keys) = false) /\
    (errors = [] ->
     match fst (create_agent w s) with
     | Returns OpenAIAgent => AI_PROVIDER (config w) = "openai"
     | Returns AnthropicAgent => AI_PROVIDER (config w) = "anthropic"
     | Returns GoogleAIAgent => AI_PROVIDER (config w) = "google"
     | Raises e => exists agent, agent <> GoogleAIAgent /\ client_init w agent = Some e
     end).
Proof.
  intros Hin Hout. unfold validate_config. rewrite Hin, Hout. cbv zeta.
  eexists. split; [reflexivity|].
  unfold provider_key, create_agent.
  destruct (decide (AI_PROVIDER (config w) = "openai")) as [Ho|Ho];
    [|destruct (decide (AI_PROVIDER (config w) = "anthropic")) as [Ha|Ha];
      [|destruct (decide (AI_PROVIDER (config w) = "google")) as [Hg|Hg]]].
  1-3: assert (Hk : str_in (AI_PROVIDER (config w)) ["openai"; "anthropic"; "google"] = true)
         by (apply provider_cases; auto).
  4: assert (Hk : str_in (AI_PROVIDER (config w)) ["openai"; "anthropic"; "google"] = false)
       by (destruct (str_in _ _) eqn:E; [apply provider_cases in E; tauto|reflexivity]).
  all: rewrite Hk; decide_provider; cbn [negb andb app].
  - destruct (missing (OPENAI_API_KEY keys)); cbn [andb app length].
    + split; [lia|]. split; [split; [discriminate|intros [_ ?]; discriminate]|discriminate].
    + split; [lia|]. split; [tauto|]. intros _.
      unfold bind, check. destruct (client_init w OpenAIAgent) as [e|] eqn:Hc; cbn.
      * exists OpenAIAgent. split; [discriminate|exact Hc].
      * exact Ho.
  - destruct (missing (ANTHROPIC_API_KEY keys)); cbn [andb app length].
    + split; [lia|]. split; [split; [discriminate|intros [_ ?]; discriminate]|discriminate].
    + split; [lia|]. split; [tauto|]. intros _.
      unfold bind, check. destruct (client_init w AnthropicAgent) as [e|] eqn:Hc; cbn.
      * exists AnthropicAgent. split; [discriminate|exact Hc].
      * exact Ha.
  - destruct (missing (GOOGLE_API_KEY (config w))) eqn:Hkey; cbn [andb app length].
    + split; [lia|]. split; [split; [discriminate|intros [_ ?]; discriminate]|discriminate].
    + split; [lia|]. split; [tauto|]. intros _.
      destruct (google_init_with_key w s Hkey) as [s' Hinit].
      now rewrite (bind_returns _ _ _ _ _ Hinit).
  - cbn [length].
    split; [lia|]. split; [split; [discriminate|intros [? _]; discriminate]|discriminate].
Qed.

(** X17 at the default configuration with the key of its provider set. *)
Lemma validated_config_builds_agent_witness :
  exists errors,
    validate_config (fun _ => None) (config demo_world)
      (mk_Credentials (Some "sk-demo") None) = Returns errors /\
    (length errors <= 1)%nat /\
    (errors = [] <->
     str_in (AI_PROVIDER (config demo_world)) ["openai"; "anthropic"; "google"] = true /\
     missing (provider_key (config demo_world) (mk_Credentials (Some "sk-demo") None))
     = false) /\
    (errors = [] ->
     match fst (create_agent demo_world demo_sys) with
     | Returns OpenAIAgent => AI_PROVIDER (config demo_world) = "openai"
     | Returns AnthropicAgent => AI_PROVIDER (config demo_world) = "anthropic"
     | Returns GoogleAIAgent => AI_PROVIDER (config demo_world) = "google"
     | Raises e =>
         exists agent, agent <> GoogleAIAgent /\ client_init demo_world agent = Some e
     end).
Proof.
  apply (validated_config_builds_agent demo_world (fun _ => None)
           (mk_Credentials (Some "sk-demo") None) demo_sys).
  - reflexivity.
  - reflexivity.
Defined.

Example validate_config_demo :
  validate_config (fun _ => None) demo_config (mk_Credentials None None)
  = Returns ["OPENAI_API_KEY es requerida para el proveedor OpenAI"].
Proof. reflexivity. Qed.

(** ** Identifiers under a clock whose readings differ *)

(** A computation does not decrease a measure of the state. *)
Definition mono {S A} (f : S -> nat) (m : ST S A) : Prop :=
  forall s, (f s <= f (snd (m s)))%nat.

Lemma mono_preserves {S A} (f : S -> nat) (m : ST S A) : preserves f m -> mono f m.
Proof. intros H s. now rewrite H. Qed.

Lemma mono_bind {S A B} (f : S -> nat) (m : ST S A) (k : A -> ST S B) :
  mono f m -> (forall a, mono f (k a)) -> mono f (bind m k).
Proof.
  intros Hm Hk s. unfold bind. specialize (Hm s).
  destruct (m s) as [[a|e] s1]; simpl in *; [|exact Hm].
  etransitivity; [exact Hm|apply Hk].
Qed.

Lemma mono_try_except {S A} (f : S -> nat) (m : ST S A) h :
  mono f m -> (forall e, mono f (h e)) -> mono f (try_except m h).
Proof.
  intros Hm Hh s. unfold try_except. specialize (Hm s).
  destruct (m s) as [[a|e] s1]; simpl in *; [exact Hm|].
  etransitivity; [exact Hm|apply Hh].
Qed.

Lemma mono_try_finally {S A} (f : S -> nat) (m : ST S A) fin :
  mono f m -> mono f fin -> mono f (try_finally m fin).
Proof.
  intros Hm Hf s. unfold try_finally. specialize (Hm s).
  destruct (m s) as [r s1]. specialize (Hf s1).
  destruct (fin s1) as [[u|e] s2]; simpl in *; lia.
Qed.

Lemma mono_lift {A} (m : ST Sys A) :
  mono ticks m -> mono (fun s => ticks (sys s)) (lift m).
Proof.
  intros Hm s. unfold lift. specialize (Hm (sys s)).
  now destruct (m (sys s)) as [r y].
Qed.

(** Splits a goal [mono f m] along the structure of [m]; operations
    that leave the measure alone are discharged by their footprint. *)
Ltac advance :=
  repeat first
    [ progress intros
    | solve [ auto ]
    | solve [ apply mono_preserves; auto with frame ]
    | solve [ apply mono_preserves, preserves_modify; intros []; reflexivity ]
    | apply mono_bind
    | apply mono_try_except
    | apply mono_try_finally
    | match goal with
      | |- mono _ (if ?b then _ else _) => destruct b
      | |- mono _ (match ?x with _ => _ end) => destruct x
      end ].

Section Readings.

Variable w : World.

Lemma datetime_now_mono : mono ticks (datetime_now w).
Proof. intros []. simpl. lia. Qed.

Lemma process_video_mono agent p : mono ticks (process_video w agent p).
Proof.
  pose proof datetime_now_mono as Hnow.
  pose proof (mono_preserves _ _ (get_video_info_footprint ticks w p ltac:(other_field)))
    as Hinfo.
  pose proof (mono_preserves _ _
                (extract_audio_footprint ticks w p None ltac:(other_field) ltac:(other_field)))
    as Haudio.
  pose proof (fun a => mono_preserves _ _ (transcribe_footprint ticks w agent a)) as Htr.
  pose proof (fun t i => mono_preserves _ _
                (generate_summary_footprint ticks w agent t i ltac:(other_field))) as Hsum.
  pose proof (mono_preserves _ _
                (cleanup_footprint ticks w ltac:(other_field) ltac:(other_field))) as Hclean.
  unfold process_video, process_video_body, _save_result, enter, path_exists.
  advance.
Qed.

Lemma video_outcomes_mono agent video_files :
  forall y, (ticks y <= ticks (snd (video_outcomes w agent video_files y)))%nat.
Proof.
  induction video_files as [|p rest IH]; intros y; simpl; [lia|].
  pose proof (process_video_mono agent p y) as Hp.
  destruct (process_video w agent p y) as [r y1]. specialize (IH y1).
  destruct (video_outcomes w agent rest y1) as [rs y2]. simpl in *. lia.
Qed.

Lemma process_folder_mono agent folder_path : mono ticks (process_folder w agent folder_path).
Proof.
  intros y. rewrite process_folder_run.
  destruct (listdir w _) as [e|names]; cbn [snd]; [lia|apply video_outcomes_mono].
Qed.

Lemma VideoProcessor_init_mono : mono ticks (VideoProcessor_init w).
Proof.
  pose proof (fun p => mono_preserves _ _
                (call_model_footprint ticks w GoogleAIAgent p ltac:(other_field))) as Hcall.
  unfold VideoProcessor_init, AudioProcessor_init, create_agent, GoogleAIAgent_init.
  advance.
Qed.

Lemma job_outcome_mono j : mono ticks (job_outcome w j).
Proof.
  pose proof VideoProcessor_init_mono. pose proof process_video_mono.
  pose proof process_folder_mono.
  destruct j; unfold job_outcome, run_pipeline; advance.
Qed.

Definition readings (s : State) : nat := ticks (sys s).

Lemma now_mono : mono readings (now_ w).
Proof. apply mono_lift, datetime_now_mono. Qed.

Lemma update_task_mono task_id f : mono readings (update_task task_id f).
Proof. intros s. unfold update_task. now destruct (processing_tasks s !! task_id). Qed.

Lemma notify_mono cb task_id st rs es : mono readings (notify w cb task_id st rs es).
Proof.
  pose proof now_mono. unfold notify, send_callback.
  destruct (truthy cb); advance.
Qed.

Lemma record_error_mono task_id cb e : mono readings (record_error w task_id cb e).
Proof.
  pose proof now_mono. pose proof update_task_mono. pose proof notify_mono.
  unfold record_error. advance.
Qed.

Lemma record_results_mono task_id cb rs : mono readings (record_results w task_id cb rs).
Proof.
  pose proof now_mono. pose proof update_task_mono. pose proof notify_mono.
  unfold record_results. advance.
Qed.

Lemma run_job_mono j : mono readings (run_job w j).
Proof.
  pose proof record_error_mono. pose proof record_results_mono.
  pose proof (mono_lift _ VideoProcessor_init_mono).
  pose proof (fun agent p => mono_lift _ (process_video_mono agent p)).
  pose proof (fun agent f => mono_lift _ (process_folder_mono agent f)).
  destruct j; unfold run_job, process_video_task, process_folder_task; advance.
Qed.

Lemma handle_mono req : mono readings (handle w req).
Proof.
  pose proof now_mono.
  destruct req; unfold handle, process_video_endpoint, process_folder_endpoint,
    webhook_process, submit, get_task_status, list_tasks; advance.
Qed.

Lemma step_mono s s' : step w s s' -> (readings s <= readings s')%nat.
Proof.
  intros [req s0|j before after s0 _].
  - apply handle_mono.
  - exact (run_job_mono j (set_scheduled (fun _ => before ++ after) s0)).
Qed.

(** The prefixes of the identifiers the four submission paths make. *)
Definition prefixes : list string :=
  ["video_"; "folder_"; "webhook_video_"; "webhook_folder_"].

(** Every identifier of the registry is a prefix and the stamp of a
    reading already taken. *)
Definition stamped (s : State) : Prop :=
  forall task_id, is_Some (processing_tasks s !! task_id) ->
    exists prefix k,
      prefix ∈ prefixes /\
      task_id = prefix +:+ strftime_micro (clock w k) /\
      (k < readings s)%nat.

Lemma stamped_later s s' :
  stamped s -> (readings s <= readings s')%nat ->
  (forall task_id, is_Some (processing_tasks s' !! task_id) ->
                   is_Some (processing_tasks s !! task_id)) ->
  stamped s'.
Proof.
  intros Hs Hle Hsub task_id Hk.
  destruct (Hs task_id (Hsub task_id Hk)) as (prefix & k & Hp & Hid & Hlt).
  exists prefix, k. repeat split; auto. lia.
Qed.

Lemma accepted_prefix req s task_id :
  accepted_id w req s = Some task_id ->
  exists prefix,
    prefix ∈ prefixes /\ task_id = prefix +:+ strftime_micro (clock w (readings s)).
Proof.
  intros Hacc. apply accepted_id_spec in Hacc as (prefix & Hp & Hid).
  exists prefix. split; [|exact Hid].
  unfold prefixes. rewrite !elem_of_cons.
  destruct (id_prefix_cases _ _ Hp) as [-> | [-> | [-> | ->]]]; auto.
Qed.

Lemma step_stamped s s' : known s -> stamped s -> step w s s' -> stamped s'.
Proof.
  intros Hknown Hs Hstep.
  pose proof (step_mono s s' Hstep) as Hle.
  destruct Hstep as [req s0|j before after s0 Hsched].
  - destruct (accepted_id w req s0) as [task_id|] eqn:Hacc.
    + destruct (handle_accepted w req s0 task_id Hacc)
        as (prefix & job & message & _ & Hid & Hrun).
      destruct (accepted_prefix req s0 task_id Hacc) as (prefix' & Hp & Hid').
      rewrite Hrun, submit_run in *. cbn [snd] in *.
      intros id Hk. unfold submitted in Hk. cbn [processing_tasks] in Hk.
      rewrite <- Hid in Hk.
      apply lookup_insert_is_Some in Hk as [<-|[_ Hk]].
      * exists prefix', (readings s0). repeat split; auto.
        unfold readings, submitted. cbn [sys]. destruct (sys s0). simpl. lia.
      * destruct (Hs id Hk) as (p & k & Hpk & Hidk & Hlt).
        exists p, k. repeat split; auto. lia.
    + apply (stamped_later s0); auto.
      destruct (handle_cases w req s0)
        as [(id & j & started & Hacc' & _)|(_ & Htasks & _)]; [congruence|].
      now rewrite Htasks.
  - apply (stamped_later s0); auto.
    destruct (Hknown j) as [t Ht].
    { rewrite Hsched. apply elem_of_app. right. now left. }
    destruct (run_job_recorded w j (set_scheduled (fun _ => before ++ after) s0) t Ht)
      as (s' & Hrun & Htasks & _).
    rewrite Hrun. cbn [snd]. rewrite Htasks. intros id Hk.
    apply lookup_insert_is_Some in Hk as [<-|[_ Hk]]; [now exists t|exact Hk].
Qed.

Lemma steps_invariant s0 s :
  initial s0 -> rtc (step w) s0 s -> known s /\ stamped s.
Proof.
  intros [Hempty Hsched] Hrun. revert s Hrun.
  apply (rtc_ind_r (fun s => known s /\ stamped s) s0).
  - split.
    + intros j Hj. rewrite Hsched in Hj. inversion Hj.
    + intros id Hk. rewrite Hempty, lookup_empty in Hk. now destruct Hk.
  - intros s s' Hpast Hstep [Hk Hs]. split.
    + exact (step_known w s s' Hk Hstep).
    + exact (step_stamped s s' Hk Hs Hstep).
Qed.

Lemma steps_mono s s' : rtc (step w) s s' -> (readings s <= readings s')%nat.
Proof.
  induction 1 as [s|s s1 s' Hstep _ IH]; [lia|].
  pose proof (step_mono s s1 Hstep). lia.
Qed.

(** The readings used up to a state are valid and pairwise distinct. *)
Definition distinct_readings (s : State) : Prop :=
  (forall n, (n <= readings s)%nat -> valid_datetime (clock w n)) /\
  (forall n m, (n <= readings s)%nat -> (m <= readings s)%nat ->
               clock w n = clock w m -> n = m).

Lemma distinct_readings_earlier s s' :
  (readings s <= readings s')%nat -> distinct_readings s' -> distinct_readings s.
Proof.
  intros Hle [Hvalid Hinj]. split.
  - intros n Hn. apply Hvalid. lia.
  - intros n m Hn Hm. apply Hinj; lia.
Qed.

Lemma stamped_fresh req s : stamped s -> distinct_readings s -> fresh w req s.
Proof.
  intros Hs [Hvalid Hinj] task_id Hacc.
  destruct (processing_tasks s !! task_id) as [t|] eqn:Ht; [exfalso|reflexivity].
  destruct (Hs task_id ltac:(now exists t)) as (p & k & Hp & Hid & Hlt).
  destruct (accepted_prefix req s task_id Hacc) as (p' & Hp' & Hid').
  rewrite Hid in Hid'. clear Hid Hacc Ht.
  assert (Hk : k = readings s).
  { apply Hinj; [lia|lia|].
    unfold prefixes in Hp, Hp'. rewrite !elem_of_cons, elem_of_nil in Hp, Hp'.
    destruct Hp as [-> | [-> | [-> | [-> | []]]]],
             Hp' as [-> | [-> | [-> | [-> | []]]]];
      try (cbn [String.append] in Hid'; discriminate).
    all: apply append_inj_l in Hid'; apply strftime_micro_inj; auto; apply Hvalid; lia. }
  lia.
Qed.

End Readings.

(** X18. Under a clock whose readings, as far as they have been taken,
    are valid and pairwise distinct, identifiers never collide: from the
    start of the service on, every identifier in the registry is the
    stamp of an earlier reading, so no request is answered with an
    identifier already in use, and the execution that led to the state is
    one without collisions. *)
Theorem distinct_readings_no_collision (w : World) (s0 s : State) :
  initial s0 ->
  rtc (step w) s0 s ->
  distinct_readings w s ->
  rtc (quiet_step w) s0 s /\
  forall req, fresh w req s.
Proof.
  intros Hinit Hrun Hdist. split.
  - revert s Hrun Hdist.
    apply (rtc_ind_r (fun s => distinct_readings w s -> rtc (quiet_step w) s0 s) s0);
      [constructor|].
    intros s s' Hpast Hstep IH Hdist.
    pose proof (distinct_readings_earlier w s s' (step_mono w s s' Hstep) Hdist) as Hd.
    eapply rtc_r; [exact (IH Hd)|].
    destruct (steps_invariant w s0 s Hinit Hpast) as [_ Hs].
    destruct Hstep as [req s1|j before after s1 Hsched].
    + apply quiet_request. now apply stamped_fresh.
    + now apply quiet_job.
  - intros req. apply stamped_fresh; [|exact Hdist].
    exact (proj2 (steps_invariant w s0 s Hinit Hrun)).
Qed.

(** X18 from the start of the service to the end of the task of a video
    that does not exist, under the clock that advances by one microsecond
    per reading. *)
Lemma distinct_readings_no_collision_witness :
  rtc (quiet_step demo_world) demo_state missing_failed /\
  forall req, fresh demo_world req missing_failed.
Proof.
  apply (distinct_readings_no_collision demo_world demo_state missing_failed).
  - split; reflexivity.
  - eapply rtc_l; [|apply rtc_once].
    + apply (step_request demo_world
               (PostProcessVideo (Some "./videos/missing.mp4") None) demo_state).
    + apply (step_job demo_world
               (VideoJob "video_20250115_103000_000000" "./videos/missing.mp4" None)
               [] [] missing_submitted).
      reflexivity.
  - split.
    + intros n Hn. change (readings missing_failed) with 4%nat in Hn.
      unfold valid_datetime. simpl. lia.
    + intros n m _ _ H. injection H as H. now apply Nat2N.inj.
Defined.

(** ** video_processor.py: where the fields of a result come from *)

(** One step of a run that is known to return. *)
Ltac returned H :=
  match type of H with
  | fst (bind ?m ?k ?s) = Returns _ =>
      let E := fresh "E" in
      destruct (m s) as [[?|?] ?] eqn:E;
      [ rewrite (bind_returns m k s _ _ E) in H
      | rewrite (bind_raises m k s _ _ E) in H; discriminate H ]
  end.

Lemma get_video_info_inv w p s info s' :
  get_video_info w p s = (Returns info, s') ->
  exists clip bytes,
    VideoFileClip w p = inr clip /\ getsize w p = inr bytes /\
    info = video_info_of p clip bytes.
Proof.
  unfold get_video_info, open_clip, close_clip, bind, answer, modify, ret, raise.
  destruct (VideoFileClip w p) as [e|clip]; simpl; [discriminate|].
  destruct (getsize w p) as [e|bytes]; simpl; [discriminate|].
  intros [= <- _]. now exists clip, bytes.
Qed.

Lemma extract_audio_inv w p s out s' :
  extract_audio_from_video w p None s = (Returns out, s') ->
  out = default_audio_path w p /\
  exists clip, VideoFileClip w p = inr clip /\ clip_audio clip = true.
Proof.
  unfold extract_audio_from_video, open_clip, close_clip, bind, answer, check,
    modify, ret, raise.
  destruct (VideoFileClip w p) as [e|clip]; simpl; [discriminate|].
  destruct (clip_audio clip) eqn:Haudio; simpl; [|discriminate].
  destruct (write_audiofile w p _); simpl; [discriminate|].
  intros [= <- _]. split; [reflexivity|]. now exists clip.
Qed.

(** [GoogleAIAgent.transcribe_audio] falls back to the local speech
    model. *)
Definition uses_local_speech (agent : Agent) : bool :=
  match agent with
  | GoogleAIAgent => true
  | OpenAIAgent | AnthropicAgent => false
  end.

(** The engine that transcribes: the local speech model when it is the
    configured one, and for the long-context provider in any case. *)
Lemma transcribe_audio_inv w agent a s t :
  fst (_transcribe_audio w agent a s) = Returns t ->
  if bool_decide (TRANSCRIPTION_MODEL (config w) = "whisper") || uses_local_speech agent
  then whisper_transcribe w a = inr t
  else client_transcribe w agent a = inr t.
Proof.
  unfold _transcribe_audio, transcribe_audio, transcribe_with_whisper,
    AudioProcessor_init, bind, check, answer, ret, raise.
  destruct (bool_decide (TRANSCRIPTION_MODEL (config w) = "whisper")); cbn [orb].
  - destruct (whisper_transcribe w a); simpl; [discriminate|congruence].
  - destruct agent; cbn.
    + destruct (client_transcribe w OpenAIAgent a); simpl; [discriminate|congruence].
    + destruct (client_transcribe w AnthropicAgent a); simpl; [discriminate|congruence].
    + destruct (load_model w); simpl; [discriminate|].
      destruct (whisper_transcribe w a); simpl; [discriminate|congruence].
Qed.

Lemma create_agent_inv w s agent :
  fst (create_agent w s) = Returns agent ->
  AI_PROVIDER (config w)
  = match agent with
    | OpenAIAgent => "openai"
    | AnthropicAgent => "anthropic"
    | GoogleAIAgent => "google"
    end.
Proof.
  unfold create_agent.
  destruct (decide (AI_PROVIDER (config w) = "openai")) as [Ho|Ho];
    [|destruct (decide (AI_PROVIDER (config w) = "anthropic")) as [Ha|Ha];
      [|destruct (decide (AI_PROVIDER (config w) = "google")) as [Hg|Hg]]].
  all: decide_provider.
  - unfold bind, check. destruct (client_init w OpenAIAgent); simpl; [discriminate|].
    now intros [= <-].
  - unfold bind, check. destruct (client_init w AnthropicAgent); simpl; [discriminate|].
    now intros [= <-].
  - unfold bind. destruct (GoogleAIAgent_init w s) as [[[]|e] s1]; simpl; [|discriminate].
    now intros [= <-].
  - discriminate.
Qed.

Lemma VideoProcessor_init_inv w s agent s' :
  VideoProcessor_init w s = (Returns agent, s') ->
  exists s1, fst (create_agent w s1) = Returns agent.
Proof.
  unfold VideoProcessor_init, AudioProcessor_init. unfold bind at 1, check.
  destruct (load_model w); [discriminate|]. unfold ret at 1.
  intros H. exists s. unfold bind in H.
  destruct (create_agent w s) as [[a|e] s1]; [|discriminate].
  now injection H as -> _.
Qed.

Lemma body_provenance w agent p s result :
  fst (process_video_body w agent p s) = Returns result ->
  exists clip bytes,
    VideoFileClip w p = inr clip /\ getsize w p = inr bytes /\
    clip_audio clip = true /\
    video_info result = video_info_of p clip bytes /\
    too_large w (video_info result) = false /\
    supported w (video_info result) = true /\
    (exists s1, fst (_transcribe_audio w agent (default_audio_path w p) s1)
                = Returns (transcript result)) /\
    (exists s1, fst (generate_summary w agent (transcript result) (video_info result) s1)
                = Returns (summary result)).
Proof.
  unfold process_video_body, enter, path_exists.
  rewrite bind_modify, bind_gets. cbv beta.
  destruct (bool_decide (p ∈ files _) || isdir w p); cbn [negb]; cbv iota; [|discriminate].
  rewrite bind_modify. intros H.
  returned H. rewrite bind_modify in H.
  destruct (too_large w _) eqn:Hlarge; cbv iota in H; [discriminate|].
  rewrite bind_modify in H.
  destruct (supported w _) eqn:Hsup; cbn [negb] in H; cbv iota in H; [|discriminate].
  rewrite bind_modify in H.
  returned H. rewrite !bind_modify in H.
  returned H. rewrite bind_modify in H.
  returned H. rewrite bind_datetime_now, bind_modify in H.
  returned H. cbn [fst] in H. injection H as <-. cbn [video_info transcript summary].
  apply get_video_info_inv in E as (clip & bytes & Hclip & Hsize & ->).
  apply extract_audio_inv in E0 as (-> & clip' & Hclip' & Haudio).
  assert (clip' = clip) by congruence. subst clip'.
  exists clip, bytes. repeat split; auto.
  - eexists. now rewrite E1.
  - eexists. now rewrite E2.
Qed.

(** X19. Where the fields of a result come from.  When the processor can
    be built and [process_video] returns a result: its metadata is what
    the decoder and the filesystem said of that video, which has an
    audio track and passed the size and the format policy; the agent is
    the one of the configured provider; the transcript is the answer of
    the local speech model on the temporary audio file when the
    configured transcription model is [whisper] or the provider is the
    long-context one, and the answer of the provider's own transcription
    otherwise; and the summary is what the agent's summarisation returns
    on that transcript and that metadata. *)
Theorem result_provenance (w : World) (p : string) (s : Sys) (result : Result) :
  fst (run_pipeline w p s) = Returns result ->
  exists clip bytes agent,
    VideoFileClip w p = inr clip /\ getsize w p = inr bytes /\
    clip_audio clip = true /\
    video_info result = video_info_of p clip bytes /\
    too_large w (video_info result) = false /\
    supported w (video_info result) = true /\
    AI_PROVIDER (config w)
    = match agent with
      | OpenAIAgent => "openai"
      | AnthropicAgent => "anthropic"
      | GoogleAIAgent => "google"
      end /\
    (if bool_decide (TRANSCRIPTION_MODEL (config w) = "whisper")
        || bool_decide (AI_PROVIDER (config w) = "google")
     then whisper_transcribe w (default_audio_path w p) = inr (transcript result)
     else client_transcribe w agent (default_audio_path w p) = inr (transcript result)) /\
    exists s1, fst (generate_summary w agent (transcript result) (video_info result) s1)
               = Returns (summary result).
Proof.
  unfold run_pipeline. intros H.
  returned H. rename a into agent.
  rewrite process_video_unfold in H. cbn [fst] in H.
  apply body_provenance in H
    as (clip & bytes & Hclip & Hsize & Haudio & Hinfo & Hlarge & Hsup & [s1 Htr] & Hsum).
  assert (Hagent : AI_PROVIDER (config w)
                   = match agent with
                     | OpenAIAgent => "openai"
                     | AnthropicAgent => "anthropic"
                     | GoogleAIAgent => "google"
                     end)
    by (destruct (VideoProcessor_init_inv w s agent s0 E) as [s2 Hc];
        exact (create_agent_inv w s2 agent Hc)).
  exists clip, bytes, agent. repeat split; auto.
  apply transcribe_audio_inv in Htr. rewrite Hagent.
  destruct agent; exact Htr.
Qed.

(** X19 at the video of the example. *)
Lemma result_provenance_witness :
  exists clip bytes agent,
    VideoFileClip demo_world "./videos/demo.mp4" = inr clip /\
    getsize demo_world "./videos/demo.mp4" = inr bytes /\
    clip_audio clip = true /\
    video_info demo_video_result = video_info_of "./videos/demo.mp4" clip bytes /\
    too_large demo_world (video_info demo_video_result) = false /\
    supported demo_world (video_info demo_video_result) = true /\
    AI_PROVIDER (config demo_world)
    = match agent with
      | OpenAIAgent => "openai"
      | AnthropicAgent => "anthropic"
      | GoogleAIAgent => "google"
      end /\
    (if bool_decide (TRANSCRIPTION_MODEL (config demo_world) = "whisper")
        || bool_decide (AI_PROVIDER (config demo_world) = "google")
     then whisper_transcribe demo_world (default_audio_path demo_world "./videos/demo.mp4")
          = inr (transcript demo_video_result)
     else client_transcribe demo_world agent
            (default_audio_path demo_world "./videos/demo.mp4")
          = inr (transcript demo_video_result)) /\
    exists s1, fst (generate_summary demo_world agent (transcript demo_video_result)
                      (video_info demo_video_result) s1)
               = Returns (summary demo_video_result).
Proof.
  apply (result_provenance demo_world "./videos/demo.mp4" (sys demo_submitted)
           demo_video_result).
  vm_compute. reflexivity.
Defined.
